(** * kcp-go session layer (sess.go): a shallow embedding

    The development follows [sess.go]: the per-session stream interface
    ([Read], [Write], [Close]), the egress pipeline ([output]), the ingress
    pipeline ([kcpInput], [readLoop]) and the listener demultiplexer
    ([monitor]).

    Conventions.
    - Go [int] is a 64-bit two's complement integer, [uint16]/[uint32]/
      [uint64] are unsigned; all are carried by [Z] with the wrap-around
      written out where the source does arithmetic on them.
    - A byte slice is a [list byte]; slicing outside the bounds is a Go
      run-time panic and is [None] in the model.
    - Methods with a pointer receiver are computations in a state-and-panic
      monad over the pair of the receiver and the process-wide state. *)

From Stdlib Require Import ZArith Lia.
From Stdlib Require Import Strings.Byte.
From stdpp Require Import base numbers option list list_numbers strings gmap.

Local Open Scope Z_scope.

(** ** Byte slices *)

Definition bytes : Type := list byte.

Definition byte_to_Z (b : byte) : Z := Z.of_N (Byte.to_N b).

Definition byte_of_Z (z : Z) : byte :=
  default x00 (Byte.of_N (Z.to_N (z mod 256))).

Definition len {A} (b : list A) : Z := Z.of_nat (length b).

(** [b[i:]]: panics unless [0 <= i <= len(b)]. *)
Definition slice_from {A} (b : list A) (i : Z) : option (list A) :=
  if bool_decide (0 <= i <= len b) then Some (drop (Z.to_nat i) b) else None.

(** [b[:j]]: panics unless [0 <= j <= cap(b)]; the model takes the capacity
    of a slice to be its length. *)
Definition slice_to {A} (b : list A) (j : Z) : option (list A) :=
  if bool_decide (0 <= j <= len b) then Some (take (Z.to_nat j) b) else None.

(** [b[i:j]]: panics unless [0 <= i <= j <= cap(b)]. *)
Definition slice {A} (b : list A) (i j : Z) : option (list A) :=
  if bool_decide (0 <= i <= j /\ j <= len b)
  then Some (drop (Z.to_nat i) (take (Z.to_nat j) b)) else None.

(** The built-in [copy(dst, src)]: overwrites the first
    [min(len(dst), len(src))] bytes of [dst]; returns the new [dst] and the
    number of bytes copied. *)
Definition copy {A} (dst src : list A) : list A * Z :=
  let n := Nat.min (length dst) (length src) in
  (take n src ++ drop n dst, Z.of_nat n).

(** Writing through the sub-slice [dst[off:]] of [dst]: what [dst] holds
    after [copy(dst[off:], src)]. *)
Definition copy_at {A} (dst : list A) (off : nat) (src : list A) : list A :=
  take off dst ++ fst (copy (drop off dst) src).

(** ** encoding/binary, little endian *)

Module LittleEndian.

Definition Uint16 (b : bytes) : option Z :=
  match b with
  | b0 :: b1 :: _ => Some (Z.lor (byte_to_Z b0) (Z.shiftl (byte_to_Z b1) 8))
  | _ => None
  end.

Definition Uint32 (b : bytes) : option Z :=
  match b with
  | b0 :: b1 :: b2 :: b3 :: _ =>
      Some (Z.lor (Z.lor (Z.lor (byte_to_Z b0) (Z.shiftl (byte_to_Z b1) 8))
                         (Z.shiftl (byte_to_Z b2) 16))
                  (Z.shiftl (byte_to_Z b3) 24))
  | _ => None
  end.

(** [PutUint32(b, v)] panics when [len(b) < 4]. *)
Definition PutUint32 (b : bytes) (v : Z) : option bytes :=
  match b with
  | _ :: _ :: _ :: _ :: rest =>
      Some (byte_of_Z v :: byte_of_Z (Z.shiftr v 8)
            :: byte_of_Z (Z.shiftr v 16) :: byte_of_Z (Z.shiftr v 24) :: rest)
  | _ => None
  end.

End LittleEndian.

(** The other byte order, for comparison with the wording of the
    specification ("big-endian length of the original payload"). *)
Module BigEndian.

Definition Uint16 (b : bytes) : option Z :=
  match b with
  | b0 :: b1 :: _ => Some (Z.lor (byte_to_Z b1) (Z.shiftl (byte_to_Z b0) 8))
  | _ => None
  end.

End BigEndian.

(** ** hash/crc32, IEEE polynomial (reflected form 0xEDB88320) *)

Module crc32.

Definition IEEE : Z := 0xEDB88320.

Definition step (crc : Z) : Z :=
  if Z.testbit crc 0 then Z.lxor (Z.shiftr crc 1) IEEE else Z.shiftr crc 1.

Definition update_byte (crc : Z) (b : byte) : Z :=
  Nat.iter 8 step (Z.lxor crc (byte_to_Z b)).

Definition ChecksumIEEE (data : bytes) : Z :=
  Z.lxor (foldl update_byte 0xFFFFFFFF data) 0xFFFFFFFF.

End crc32.

(** ** Machine integers *)

Definition int_min : Z := - 2 ^ 63.
Definition int_max : Z := 2 ^ 63 - 1.

(** Two's complement wrap-around of Go's [int]. *)
Definition wrap_int (z : Z) : Z := (z + 2 ^ 63) mod 2 ^ 64 - 2 ^ 63.

Definition int_add (a b : Z) : Z := wrap_int (a + b).

(** The conversion [uint64(x)] and addition on [uint64]. *)
Definition to_uint64 (z : Z) : Z := z mod 2 ^ 64.

Definition add_uint64 (a b : Z) : Z := (a + b) mod 2 ^ 64.

(** [^uint64(0)], the addend that decrements a counter. *)
Definition uint64_all_ones : Z := 2 ^ 64 - 1.

(** ** Constants of sess.go *)

Definition nonceSize : Z := 16.
Definition crcSize : Z := 4.
Definition cryptHeaderSize : Z := nonceSize + crcSize.
Definition mtuLimit : Z := 1500.
Definition rxFECMulti : Z := 3.
Definition acceptBacklog : Z := 128.
Definition qlen : Z := 128.

Definition errBrokenPipe : string := "broken pipe".
Definition errInvalidOperation : string := "invalid operation".

(** ** Constants declared outside sess.go *)

(** Modelled from the spec: kcp.go is not under src/; the constants section
    gives kcp_overhead=24. *)
Definition IKCP_OVERHEAD : Z := 24.

(** Modelled from the spec: fec.go is not under src/; the constants section
    gives fec_header=6 and fec_header_plus2=8, and the FEC header's flag is
    [typeData=0xF1] or [typeFEC=0xF2]. *)
Definition fecHeaderSize : Z := 6.
Definition fecHeaderSizePlus2 : Z := 8.
Definition typeData : Z := 0xF1.
Definition typeFEC : Z := 0xF2.

(** ** Errors *)

(** A Go [error] value: [errors.New(msg)], the package's [errTimeout], or
    an error produced by the carrier. [nil] is [None] at type
    [option error]. *)
Inductive error : Type :=
| errors_New (msg : string)
| errTimeout
| carrier_error (code : Z).

(** ** The monad of methods

    A computation runs on a state and ends in one of three ways: it returns
    a value and a new state, it panics (an out-of-range slice expression, a
    nil dereference, closing a closed channel), or it never returns (a loop
    that does not terminate, a channel operation that stays blocked). The
    last two carry the state reached, so that what was done before is
    known. *)

Inductive Res (A S : Type) : Type :=
| Ok (x : A * S)
| Panic (s : S)
| Stuck (s : S).
Arguments Ok {A S} x.
Arguments Panic {A S} s.
Arguments Stuck {A S} s.

(** The state a computation ends in. *)
Definition final {A S} (r : Res A S) : S :=
  match r with
  | Ok x => snd x
  | Panic s => s
  | Stuck s => s
  end.

(** Whether it returned. *)
Definition is_Ok {A S} (r : Res A S) : bool :=
  match r with
  | Ok _ => true
  | _ => false
  end.

Definition M (S A : Type) : Type := S -> Res A S.

Definition ret {S A} (a : A) : M S A := fun s => Ok (a, s).

Definition bind {S A B} (m : M S A) (f : A -> M S B) : M S B :=
  fun s => match m s with
           | Ok (a, s') => f a s'
           | Panic s' => Panic s'
           | Stuck s' => Stuck s'
           end.

Definition get {S} : M S S := fun s => Ok (s, s).
Definition gets {S A} (f : S -> A) : M S A := fun s => Ok (f s, s).
Definition modify {S} (f : S -> S) : M S unit := fun s => Ok (tt, f s).
Definition panic {S A} : M S A := fun s => Panic s.
Definition stuck {S A} : M S A := fun s => Stuck s.

(** A value obtained from an operation that may panic. *)
Definition try {S A} (o : option A) : M S A :=
  match o with Some a => ret a | None => panic end.

Notation "'let*' x ':=' m 'in' k" := (bind m (fun x => k))
  (at level 10, x name, m at level 100, k at level 200).
Notation "'let*' ' pat ':=' m 'in' k" :=
  (bind m (fun x => match x with pat => k end))
  (at level 10, pat pattern, m at level 100, k at level 200).
Notation "m1 ';;;' m2" := (bind m1 (fun _ => m2))
  (at level 100, m2 at level 200, right associativity).

(** [when c m]: an [if] without [else]. *)
Definition when {S} (c : bool) (m : M S unit) : M S unit :=
  if c then m else ret tt.

(** [for _, x := range xs { acc = body acc x }], the local variables the
    body assigns being threaded as [acc]. *)
Fixpoint for_range {S A B} (xs : list A) (acc : B) (body : B -> A -> M S B)
  : M S B :=
  match xs with
  | [] => ret acc
  | x :: xs' => let* acc' := body acc x in for_range xs' acc' body
  end.

(** [for i := 0; i < bound; i++ { acc = body acc i }], where the body does
    not assign [i] and [bound] has the same value at every test. *)
Definition for_lt {S B} (bound : Z) (acc : B) (body : B -> Z -> M S B)
  : M S B :=
  for_range (seqZ 0 bound) acc body.

(** Running a computation on a component of the state. *)
Definition zoom {S T A} (proj : S -> T) (inj : T -> S -> S) (m : M T A)
  : M S A :=
  fun s => match m (proj s) with
           | Ok (a, t') => Ok (a, inj t' s)
           | Panic t' => Panic (inj t' s)
           | Stuck t' => Stuck (inj t' s)
           end.

(** ** The statistics registry [DefaultSnmp] *)

Inductive SnmpField : Type :=
| BytesSent | BytesReceived | InPkts | OutPkts | InBytes | OutBytes
| InErrs | InCsumErrors | KCPInErrors | FECErrs | FECRecovered
| FECParityShards | ActiveOpens | PassiveOpens | CurrEstab | MaxConn.

#[global] Instance SnmpField_eq_dec : EqDecision SnmpField.
Proof. solve_decision. Defined.

(** The registry: one [uint64] per field. *)
Definition Snmp : Type := SnmpField -> Z.

Definition atomic_AddUint64 (f : SnmpField) (delta : Z) (m : Snmp) : Snmp :=
  fun g => if decide (g = f) then add_uint64 (m g) delta else m g.

Definition atomic_StoreUint64 (f : SnmpField) (v : Z) (m : Snmp) : Snmp :=
  fun g => if decide (g = f) then v else m g.

(** [atomic.CompareAndSwapUint64(&f, old, new)]: [new] is stored only if the
    field still holds [old]. *)
Definition atomic_CompareAndSwapUint64 (f : SnmpField) (old new : Z) (m : Snmp)
  : Snmp :=
  if decide (m f = old) then atomic_StoreUint64 f new m else m.

(** ** Addresses, connections and the observable calls *)

(** A [net.Addr], identified with what its [String()] returns. *)
Definition Addr : Type := string.

(** A [net.PacketConn] is a reference into the network state. *)
Definition ConnId : Type := positive.

Definition Time : Type := Z.
Definition Time_IsZero (t : Time) : bool := bool_decide (t = 0).
Definition Time_After (t u : Time) : bool := bool_decide (u < t).
Definition Time_Sub (t u : Time) : Z := t - u.

(** Calls that leave the session layer, in the order they are made. *)
Inductive Event : Type :=
| KcpNew (conv : Z)
| KcpSetMtu (mtu : Z)
| KcpSend (buffer : bytes)
| KcpInput (data : bytes) (regular ackNoDelay : bool)
| KcpFlush (ackOnly : bool)
| KcpRecv (size : Z)
| FecEncode (b : bytes)
| FecDecode (seqid flag : Z) (data : bytes)
| ConnWriteTo (c : ConnId) (b : bytes) (addr : Addr)
| ConnClose (c : ConnId)
| UpdaterAdd
| UpdaterRemove
| ListenerCloseSession (remote : Addr)
| GoReadLoop.

(** ** The KCP core, as far as the session layer sees it *)

(** Modelled from the spec: kcp.go is not under src/. A queued segment of
    the send queue, with the two fields [Send] fills in (data model,
    "Segment": fragment index, payload bytes); the other header fields are
    stamped by [flush]. *)
Record Segment : Type := mkSegment {
  seg_frg : Z;
  seg_data : bytes
}.

(** Modelled from the spec: kcp.go is not under src/. The fields of the core
    that sess.go reads ([conv], [mss], [snd_wnd], [stream]) and the send
    queue of the data model ("send queue (application-supplied, not yet
    windowed)"); the rest of the core (send buffer, receive side, timers,
    congestion state) is [kcp_rest]. *)
Record KCP (Rest : Type) : Type := mkKCP {
  conv : Z;
  mss : Z;
  snd_wnd : Z;
  stream : Z;
  snd_queue : list Segment;
  kcp_rest : Rest
}.
Arguments mkKCP {Rest}.
Arguments conv {Rest}.
Arguments mss {Rest}.
Arguments snd_wnd {Rest}.
Arguments stream {Rest}.
Arguments snd_queue {Rest}.
Arguments kcp_rest {Rest}.

(** The block cipher interface [BlockCrypt]; both methods are called with
    [dst] and [src] the same slice. *)
Record BlockCrypt : Type := mkBlockCrypt {
  Encrypt : bytes -> bytes;
  Decrypt : bytes -> bytes
}.

(** What [fecDecoder.decodeBytes] returns. *)
Record fecPacket : Type := mkFecPacket {
  fec_seqid : Z;
  fec_flag : Z;
  fec_data : bytes
}.

(** The collaborators whose code is outside sess.go: the rest of the KCP
    core, the Reed-Solomon codec, the nonce generator and the carrier. Each
    is a state type with its operations. An operation of the core that may
    invoke the output callback returns the [(buf, size)] pairs it invokes the
    callback with, in order. *)
Class External : Type := {
  KcpRest : Type;
  FecDec : Type;
  FecEnc : Type;
  Entropy : Type;
  Net : Type;
  IKCP_MTU_DEF : Z;
  kcp_new_mss : Z;
  kcp_new_snd_wnd : Z;
  kcp_new_rest : Z -> KcpRest;
  kcp_setmtu_rest : KCP KcpRest -> Z -> KcpRest;
  kcp_WaitSnd : KCP KcpRest -> Z;
  kcp_PeekSize : KCP KcpRest -> Z;
  kcp_Recv : KCP KcpRest -> bytes -> KCP KcpRest * bytes * Z;
  kcp_Input : KCP KcpRest -> bytes -> bool -> bool
              -> KCP KcpRest * list (bytes * Z) * Z;
  kcp_flush : KCP KcpRest -> bool -> KCP KcpRest * list (bytes * Z) * Z;
  newFECDecoder : Z -> Z -> Z -> option FecDec;
  newFECEncoder : Z -> Z -> Z -> option FecEnc;
  fec_decode : FecDec -> fecPacket -> FecDec * list bytes;
  fec_encode : FecEnc -> bytes -> FecEnc * bytes * list bytes;
  nonce_Init : Entropy;
  nonce_Fill : Entropy -> Entropy * bytes;
  conn_WriteTo : Net -> ConnId -> bytes -> Addr -> Net * Z * option error;
  conn_Close : Net -> ConnId -> Net * option error
}.

(** ** KCP operations the session layer calls *)

(** Modelled from the spec: kcp.go is not under src/. Cutting a byte string
    into MSS-sized pieces ("fragments into MSS-sized segments"); every piece
    but the last has exactly [mss] bytes. *)
Fixpoint fragments (fuel : nat) (mss : nat) (b : bytes) : list bytes :=
  match fuel with
  | O => []
  | S fuel' =>
      match b with
      | [] => []
      | _ :: _ => take mss b :: fragments fuel' mss (drop mss b)
      end
  end.

(** Modelled from the spec: "with descending fragment indices (only the
    last has index 0)". *)
Definition number_fragments (frs : list bytes) : list Segment :=
  imap (fun i d => mkSegment (len frs - 1 - Z.of_nat i) d) frs.

(** Modelled from the spec: "In stream mode, it first attempts to pack bytes
    into the tail segment up to MSS". Returns the queue with its tail
    extended and the bytes that did not fit. *)
Definition pack_tail (mss : Z) (q : list Segment) (b : bytes)
  : list Segment * bytes :=
  match reverse q with
  | [] => (q, b)
  | old :: before =>
      let room := Z.to_nat (mss - len (seg_data old)) in
      (reverse before ++ [mkSegment (seg_frg old) (seg_data old ++ take room b)],
       drop room b)
  end.

(** Modelled from the spec: kcp.go is not under src/. "Send(bytes) appends
    to the send queue. In stream mode, it first attempts to pack bytes into
    the tail segment up to MSS; otherwise fragments into MSS-sized segments
    with descending fragment indices (only the last has index 0). Returns
    bytes appended." *)
Definition kcp_Send {Rest} (k : KCP Rest) (buffer : bytes) : KCP Rest * Z :=
  let '(q, rest) :=
    if bool_decide (stream k = 0) then (snd_queue k, buffer)
    else pack_tail (mss k) (snd_queue k) buffer in
  let segs := number_fragments (fragments (length rest) (Z.to_nat (mss k)) rest) in
  (mkKCP (conv k) (mss k) (snd_wnd k) (stream k) (q ++ segs) (kcp_rest k),
   len buffer).

(** ** Control and channels *)

(** How one pass through the [for] loop of [Read] or [Write] ends: with a
    [return], or waiting in the [select] (with the timer of the deadline,
    if one is set). *)
Inductive Outcome (A : Type) : Type :=
| Return (a : A)
| Blocked (timer : option Z).
Arguments Return {A} a.
Arguments Blocked {A} timer.

(** The case of a [select] that fires. *)
Inductive Wake : Type :=
| WakeEvent     (* chReadEvent, resp. chWriteEvent *)
| WakeTimer     (* the deadline timer *)
| WakeDie       (* die is closed *)
| WakeError.    (* chErrorEvent; Read only *)

(** A buffered channel: what is queued, and its capacity. *)
Record Chan (A : Type) : Type := mkChan {
  chan_buf : list A;
  chan_cap : Z
}.
Arguments mkChan {A}.
Arguments chan_buf {A}.
Arguments chan_cap {A}.

(** What [receiver] does with one result of [conn.ReadFrom]. *)
Inductive Received : Type :=
| Forwarded (data : bytes)     (* sent on the packet channel *)
| Dropped                      (* counted as InErrs *)
| Failed (err : error).        (* the receiver stops *)

(** What the [select] of [monitor] receives. *)
Inductive MonitorIn : Type :=
| InPacket (from : Addr) (data : bytes)
| InClosed (deadlink : Addr)
| InDie.

(** The cases of the [select] of [AcceptKCP]. *)
Inductive AcceptWake : Type :=
| AcceptTimeout
| AcceptSession
| AcceptDie.

Section Session.

Context {X : External}.

(** Modelled from the spec: kcp.go is not under src/. [NewKCP(conv,
    output)]: a core for conversation [conv] with an empty send queue, in
    message mode; the output callback is the session's [kcp_output]
    below. *)
Definition NewKCP (conv : Z) : KCP KcpRest :=
  mkKCP conv kcp_new_mss kcp_new_snd_wnd 0 [] (kcp_new_rest conv).

(** Modelled from the spec: "SetMtu sets MTU (and thereby MSS = MTU - 24)". *)
Definition kcp_SetMtu (k : KCP KcpRest) (mtu : Z) : KCP KcpRest :=
  mkKCP (conv k) (mtu - IKCP_OVERHEAD) (snd_wnd k) (stream k) (snd_queue k)
        (kcp_setmtu_rest k mtu).

(** ** UDPSession *)

Record UDPSession : Type := mkUDPSession {
  conn : ConnId;                 (* the underlying packet connection *)
  kcp : KCP KcpRest;             (* KCP ARQ protocol *)
  l : option positive;           (* the Listener that accepted it, or nil *)
  block : option BlockCrypt;     (* block encryption object, or nil *)
  recvbuf : bytes;
  bufptr : bytes;
  ext : bytes;                   (* header extended output buffer *)
  fecDecoder : option FecDec;
  fecEncoder : option FecEnc;
  remote : Addr;
  rd : Time;                     (* read deadline *)
  wd : Time;                     (* write deadline *)
  headerSize : Z;
  ackNoDelay : bool;
  writeDelay : bool;
  dup : Z;
  die : bool;                    (* the channel [die] has been closed *)
  chReadEvent : bool;            (* a notification is pending (capacity 1) *)
  chWriteEvent : bool;
  chErrorEvent : option error;   (* an error is pending (capacity 1) *)
  nonce : Entropy;
  isClosed : bool
}.

Definition set_kcp (v : KCP KcpRest) (s : UDPSession) : UDPSession :=
  mkUDPSession (conn s) v (l s) (block s) (recvbuf s) (bufptr s) (ext s)
    (fecDecoder s) (fecEncoder s) (remote s) (rd s) (wd s) (headerSize s)
    (ackNoDelay s) (writeDelay s) (dup s) (die s) (chReadEvent s)
    (chWriteEvent s) (chErrorEvent s) (nonce s) (isClosed s).

Definition set_recvbuf (v : bytes) (s : UDPSession) : UDPSession :=
  mkUDPSession (conn s) (kcp s) (l s) (block s) v (bufptr s) (ext s)
    (fecDecoder s) (fecEncoder s) (remote s) (rd s) (wd s) (headerSize s)
    (ackNoDelay s) (writeDelay s) (dup s) (die s) (chReadEvent s)
    (chWriteEvent s) (chErrorEvent s) (nonce s) (isClosed s).

Definition set_bufptr (v : bytes) (s : UDPSession) : UDPSession :=
  mkUDPSession (conn s) (kcp s) (l s) (block s) (recvbuf s) v (ext s)
    (fecDecoder s) (fecEncoder s) (remote s) (rd s) (wd s) (headerSize s)
    (ackNoDelay s) (writeDelay s) (dup s) (die s) (chReadEvent s)
    (chWriteEvent s) (chErrorEvent s) (nonce s) (isClosed s).

Definition set_ext (v : bytes) (s : UDPSession) : UDPSession :=
  mkUDPSession (conn s) (kcp s) (l s) (block s) (recvbuf s) (bufptr s) v
    (fecDecoder s) (fecEncoder s) (remote s) (rd s) (wd s) (headerSize s)
    (ackNoDelay s) (writeDelay s) (dup s) (die s) (chReadEvent s)
    (chWriteEvent s) (chErrorEvent s) (nonce s) (isClosed s).

Definition set_fecDecoder (v : option FecDec) (s : UDPSession) : UDPSession :=
  mkUDPSession (conn s) (kcp s) (l s) (block s) (recvbuf s) (bufptr s) (ext s)
    v (fecEncoder s) (remote s) (rd s) (wd s) (headerSize s)
    (ackNoDelay s) (writeDelay s) (dup s) (die s) (chReadEvent s)
    (chWriteEvent s) (chErrorEvent s) (nonce s) (isClosed s).

Definition set_fecEncoder (v : option FecEnc) (s : UDPSession) : UDPSession :=
  mkUDPSession (conn s) (kcp s) (l s) (block s) (recvbuf s) (bufptr s) (ext s)
    (fecDecoder s) v (remote s) (rd s) (wd s) (headerSize s)
    (ackNoDelay s) (writeDelay s) (dup s) (die s) (chReadEvent s)
    (chWriteEvent s) (chErrorEvent s) (nonce s) (isClosed s).

Definition set_rd (v : Time) (s : UDPSession) : UDPSession :=
  mkUDPSession (conn s) (kcp s) (l s) (block s) (recvbuf s) (bufptr s) (ext s)
    (fecDecoder s) (fecEncoder s) (remote s) v (wd s) (headerSize s)
    (ackNoDelay s) (writeDelay s) (dup s) (die s) (chReadEvent s)
    (chWriteEvent s) (chErrorEvent s) (nonce s) (isClosed s).

Definition set_wd (v : Time) (s : UDPSession) : UDPSession :=
  mkUDPSession (conn s) (kcp s) (l s) (block s) (recvbuf s) (bufptr s) (ext s)
    (fecDecoder s) (fecEncoder s) (remote s) (rd s) v (headerSize s)
    (ackNoDelay s) (writeDelay s) (dup s) (die s) (chReadEvent s)
    (chWriteEvent s) (chErrorEvent s) (nonce s) (isClosed s).

Definition set_ackNoDelay (v : bool) (s : UDPSession) : UDPSession :=
  mkUDPSession (conn s) (kcp s) (l s) (block s) (recvbuf s) (bufptr s) (ext s)
    (fecDecoder s) (fecEncoder s) (remote s) (rd s) (wd s) (headerSize s)
    v (writeDelay s) (dup s) (die s) (chReadEvent s)
    (chWriteEvent s) (chErrorEvent s) (nonce s) (isClosed s).

Definition set_writeDelay (v : bool) (s : UDPSession) : UDPSession :=
  mkUDPSession (conn s) (kcp s) (l s) (block s) (recvbuf s) (bufptr s) (ext s)
    (fecDecoder s) (fecEncoder s) (remote s) (rd s) (wd s) (headerSize s)
    (ackNoDelay s) v (dup s) (die s) (chReadEvent s)
    (chWriteEvent s) (chErrorEvent s) (nonce s) (isClosed s).

Definition set_dup (v : Z) (s : UDPSession) : UDPSession :=
  mkUDPSession (conn s) (kcp s) (l s) (block s) (recvbuf s) (bufptr s) (ext s)
    (fecDecoder s) (fecEncoder s) (remote s) (rd s) (wd s) (headerSize s)
    (ackNoDelay s) (writeDelay s) v (die s) (chReadEvent s)
    (chWriteEvent s) (chErrorEvent s) (nonce s) (isClosed s).

Definition set_die (v : bool) (s : UDPSession) : UDPSession :=
  mkUDPSession (conn s) (kcp s) (l s) (block s) (recvbuf s) (bufptr s) (ext s)
    (fecDecoder s) (fecEncoder s) (remote s) (rd s) (wd s) (headerSize s)
    (ackNoDelay s) (writeDelay s) (dup s) v (chReadEvent s)
    (chWriteEvent s) (chErrorEvent s) (nonce s) (isClosed s).

Definition set_chReadEvent (v : bool) (s : UDPSession) : UDPSession :=
  mkUDPSession (conn s) (kcp s) (l s) (block s) (recvbuf s) (bufptr s) (ext s)
    (fecDecoder s) (fecEncoder s) (remote s) (rd s) (wd s) (headerSize s)
    (ackNoDelay s) (writeDelay s) (dup s) (die s) v
    (chWriteEvent s) (chErrorEvent s) (nonce s) (isClosed s).

Definition set_chWriteEvent (v : bool) (s : UDPSession) : UDPSession :=
  mkUDPSession (conn s) (kcp s) (l s) (block s) (recvbuf s) (bufptr s) (ext s)
    (fecDecoder s) (fecEncoder s) (remote s) (rd s) (wd s) (headerSize s)
    (ackNoDelay s) (writeDelay s) (dup s) (die s) (chReadEvent s)
    v (chErrorEvent s) (nonce s) (isClosed s).

Definition set_chErrorEvent (v : option error) (s : UDPSession) : UDPSession :=
  mkUDPSession (conn s) (kcp s) (l s) (block s) (recvbuf s) (bufptr s) (ext s)
    (fecDecoder s) (fecEncoder s) (remote s) (rd s) (wd s) (headerSize s)
    (ackNoDelay s) (writeDelay s) (dup s) (die s) (chReadEvent s)
    (chWriteEvent s) v (nonce s) (isClosed s).

Definition set_nonce (v : Entropy) (s : UDPSession) : UDPSession :=
  mkUDPSession (conn s) (kcp s) (l s) (block s) (recvbuf s) (bufptr s) (ext s)
    (fecDecoder s) (fecEncoder s) (remote s) (rd s) (wd s) (headerSize s)
    (ackNoDelay s) (writeDelay s) (dup s) (die s) (chReadEvent s)
    (chWriteEvent s) (chErrorEvent s) v (isClosed s).

Definition set_isClosed (v : bool) (s : UDPSession) : UDPSession :=
  mkUDPSession (conn s) (kcp s) (l s) (block s) (recvbuf s) (bufptr s) (ext s)
    (fecDecoder s) (fecEncoder s) (remote s) (rd s) (wd s) (headerSize s)
    (ackNoDelay s) (writeDelay s) (dup s) (die s) (chReadEvent s)
    (chWriteEvent s) (chErrorEvent s) (nonce s) v.

(** ** Process-wide state *)

Record Glob : Type := mkGlob {
  snmp : Snmp;            (* DefaultSnmp *)
  net : Net;              (* the carriers *)
  now : Time;             (* what time.Now() returns *)
  trace : list Event      (* the calls made so far, oldest first *)
}.

Definition set_snmp (v : Snmp) (g : Glob) : Glob :=
  mkGlob v (net g) (now g) (trace g).
Definition set_net (v : Net) (g : Glob) : Glob :=
  mkGlob (snmp g) v (now g) (trace g).
Definition set_trace (v : list Event) (g : Glob) : Glob :=
  mkGlob (snmp g) (net g) (now g) v.

(** The monad of the methods of [*UDPSession]. *)
Definition SM (A : Type) : Type := M (UDPSession * Glob) A.

Definition getS : SM UDPSession := gets fst.
Definition getG : SM Glob := gets snd.
Definition modS (f : UDPSession -> UDPSession) : SM unit :=
  modify (fun st => (f (fst st), snd st)).
Definition modG (f : Glob -> Glob) : SM unit :=
  modify (fun st => (fst st, f (snd st))).

Definition emitG (e : Event) (g : Glob) : Glob :=
  set_trace (trace g ++ [e]) g.
Definition emit (e : Event) : SM unit := modG (emitG e).

Definition atomic_Add (f : SnmpField) (delta : Z) : SM unit :=
  modG (fun g => set_snmp (atomic_AddUint64 f delta (snmp g)) g).

Definition emitGM (e : Event) : M Glob unit := modify (emitG e).

Definition atomic_AddG (f : SnmpField) (delta : Z) : M Glob Z :=
  modify (fun g => set_snmp (atomic_AddUint64 f delta (snmp g)) g) ;;;
  gets (fun g => snmp g f).

(** [newUDPSession]: the fields of the new session, and what creating it
    does to the process: the core is created and given its MTU, the session
    is registered with the updater, a client session starts its read loop,
    and the open counters are advanced. The value returned is what
    [new(UDPSession)] points to once the function returns. *)
Definition newUDPSession (conv : Z) (dataShards parityShards : Z)
    (l : option positive) (conn : ConnId) (remote : Addr)
    (block : option BlockCrypt) : M Glob UDPSession :=
  let fecDecoder :=
    newFECDecoder (wrap_int (rxFECMulti * wrap_int (dataShards + parityShards)))
                  dataShards parityShards in
  let fecEncoder :=
    if block is Some _ then newFECEncoder dataShards parityShards cryptHeaderSize
    else newFECEncoder dataShards parityShards 0 in
  let headerSize :=
    (if block is Some _ then cryptHeaderSize else 0)
    + (if fecEncoder is Some _ then fecHeaderSizePlus2 else 0) in
  let ext :=
    if bool_decide (headerSize > 0) then replicate (Z.to_nat mtuLimit) x00
    else [] in
  emitGM (KcpNew conv) ;;;
  emitGM (KcpSetMtu (wrap_int (IKCP_MTU_DEF - headerSize))) ;;;
  let kcp := kcp_SetMtu (NewKCP conv) (wrap_int (IKCP_MTU_DEF - headerSize)) in
  emitGM UpdaterAdd ;;;
  (if l is None then emitGM GoReadLoop ;;; atomic_AddG ActiveOpens 1
   else atomic_AddG PassiveOpens 1) ;;;
  let* currestab := atomic_AddG CurrEstab 1 in
  let* maxconn := gets (fun g => snmp g MaxConn) in
  when (bool_decide (currestab > maxconn))
       (modify (fun g => set_snmp
                           (atomic_CompareAndSwapUint64 MaxConn maxconn currestab
                              (snmp g)) g)) ;;;
  ret (mkUDPSession conn kcp l block (replicate (Z.to_nat mtuLimit) x00) [] ext
         fecDecoder fecEncoder remote 0 0 headerSize false false 0 false
         false false None nonce_Init false).

(** [s.conn.WriteTo(b, s.remote)]. *)
Definition s_WriteTo (b : bytes) : SM (Z * option error) :=
  let* s := getS in
  let* g := getG in
  let '(net', n, err) := conn_WriteTo (net g) (conn s) b (remote s) in
  modG (set_net net') ;;;
  emit (ConnWriteTo (conn s) b (remote s)) ;;;
  ret (n, err).

(** The statements [output] applies to [ext] and then to every [ecc[k]]:
    fill the nonce, checksum the bytes after the crypto header, store the
    checksum after the nonce, encrypt in place. Returns what the buffer
    holds afterwards. *)
Definition seal (blk : BlockCrypt) (b : bytes) : SM bytes :=
  let* head := try (slice_to b nonceSize) in
  let* s := getS in
  let '(e', r) := nonce_Fill (nonce s) in
  modS (set_nonce e') ;;;
  let b1 := fst (copy head r) ++ drop (length head) b in
  let* body := try (slice_from b1 cryptHeaderSize) in
  let checksum := crc32.ChecksumIEEE body in
  let* field := try (slice_from b1 nonceSize) in
  let* field' := try (LittleEndian.PutUint32 field checksum) in
  let b2 := take (Z.to_nat nonceSize) b1 ++ field' in
  ret (fst (copy b2 (Encrypt blk b2))).

(** One [WriteTo] of the two write loops of [output], with the locals
    [nbytes] and [npkts] it updates. *)
Definition write_counted (pkt : bytes) (acc : Z * Z) : SM (Z * Z) :=
  let '(nbytes, npkts) := acc in
  let* '(n, err) := s_WriteTo pkt in
  ret (if err is None then (int_add nbytes n, int_add npkts 1)
       else (nbytes, npkts)).

(** [output]: post-processing for sending a packet from the kcp core. *)
Definition output (buf : bytes) : SM unit :=
  let* s := getS in
  (* 0. extend buf's header space (if necessary) *)
  let* ext0 :=
    if bool_decide (headerSize s > 0) then
      let* e := try (slice_to (ext s) (int_add (headerSize s) (len buf))) in
      let* tail := try (slice_from e (headerSize s)) in
      ret (take (Z.to_nat (headerSize s)) e ++ fst (copy tail buf))
    else ret buf in
  (* 1. FEC encoding; the encoder writes its header into ext *)
  let* '(ext1, ecc) :=
    match fecEncoder s with
    | Some enc =>
        let '(enc', marked, ecc) := fec_encode enc ext0 in
        emit (FecEncode ext0) ;;;
        modS (set_fecEncoder (Some enc')) ;;;
        ret (fst (copy ext0 marked), ecc)
    | None => ret (ext0, [])
    end in
  (* 2&3. crc32 & encryption *)
  let* '(ext2, ecc2) :=
    match block s with
    | Some blk =>
        let* e := seal blk ext1 in
        let* ecc' := for_range ecc []
                       (fun done shard =>
                          let* sh := seal blk shard in ret (done ++ [sh])) in
        ret (e, ecc')
    | None => ret (ext1, ecc)
    end in
  (* ext is a slice of s.ext: what was written to it is in s.ext *)
  when (bool_decide (headerSize s > 0))
       (modS (fun s => set_ext (fst (copy (ext s) ext2)) s)) ;;;
  (* 4. WriteTo kernel *)
  let* acc := for_lt (int_add (dup s) 1) (0, 0)
                (fun acc _ => write_counted ext2 acc) in
  let* '(nbytes, npkts) := for_range ecc2 acc
                             (fun acc shard => write_counted shard acc) in
  atomic_Add OutPkts (to_uint64 npkts) ;;;
  atomic_Add OutBytes (to_uint64 nbytes).

(** The output callback [newUDPSession] gives to [NewKCP]. *)
Definition kcp_output (buf : bytes) (size : Z) : SM unit :=
  if bool_decide (size >= IKCP_OVERHEAD) then
    let* b := try (slice_to buf size) in output b
  else ret tt.

(** The core invoking the callback with each of [outs]. *)
Definition run_output (outs : list (bytes * Z)) : SM unit :=
  for_range outs tt (fun _ o => kcp_output (fst o) (snd o)).

(** [s.kcp.Send(b)]. *)
Definition s_kcp_Send (b : bytes) : SM Z :=
  let* s := getS in
  let '(k', n) := kcp_Send (kcp s) b in
  emit (KcpSend b) ;;;
  modS (set_kcp k') ;;;
  ret n.

(** [s.kcp.flush(ackOnly)]. *)
Definition s_kcp_flush (ackOnly : bool) : SM Z :=
  let* s := getS in
  let '(k', outs, interval) := kcp_flush (kcp s) ackOnly in
  emit (KcpFlush ackOnly) ;;;
  modS (set_kcp k') ;;;
  run_output outs ;;;
  ret interval.

(** [s.kcp.Input(data, regular, ackNoDelay)]. *)
Definition s_kcp_Input (data : bytes) (regular ackNoDelay : bool) : SM Z :=
  let* s := getS in
  let '(k', outs, r) := kcp_Input (kcp s) data regular ackNoDelay in
  emit (KcpInput data regular ackNoDelay) ;;;
  modS (set_kcp k') ;;;
  run_output outs ;;;
  ret r.

(** [s.kcp.Recv(buffer)]; returns what [buffer] holds afterwards. *)
Definition s_kcp_Recv (buffer : bytes) : SM bytes :=
  let* s := getS in
  let '(k', filled, n) := kcp_Recv (kcp s) buffer in
  emit (KcpRecv n) ;;;
  modS (set_kcp k') ;;;
  ret (fst (copy buffer filled)).

(** ** Read, Write, Close *)

(** What happens while a call waits: the other goroutines change the
    session and the process state, then one case of the [select] fires. *)
Record Tick : Type := mkTick {
  tick_env : UDPSession * Glob -> UDPSession * Glob;
  tick_wake : Wake
}.

(** The inner [for] of [Write]: [Send] of [b] in pieces of [mss] bytes. The
    loop does not terminate when [mss] is 0 and [b] is not empty; otherwise
    [len(b)+1] passes are more than it makes. *)
Fixpoint Write_fragment (fuel : nat) (b : bytes) : SM unit :=
  match fuel with
  | O => stuck
  | S fuel' =>
      let* s := getS in
      if bool_decide (len b <= mss (kcp s)) then
        s_kcp_Send b ;;; ret tt
      else
        let* head := try (slice_to b (mss (kcp s))) in
        s_kcp_Send head ;;;
        let* s := getS in
        let* rest := try (slice_from b (mss (kcp s))) in
        Write_fragment fuel' rest
  end.

(** One pass through the outer [for] of [Write], up to the [select]. *)
Definition Write_iter (b : bytes) : SM (Outcome (Z * option error)) :=
  let* s := getS in
  if isClosed s then ret (Return (0, Some (errors_New errBrokenPipe)))
  else if bool_decide (kcp_WaitSnd (kcp s) < snd_wnd (kcp s)) then
    let n := len b in
    Write_fragment (S (length b)) b ;;;
    (* flush immediately if the queue is full *)
    let* s := getS in
    when (bool_decide (kcp_WaitSnd (kcp s) >= snd_wnd (kcp s))
          || negb (writeDelay s))
         (s_kcp_flush false ;;; ret tt) ;;;
    atomic_Add BytesSent (to_uint64 n) ;;;
    ret (Return (n, None))
  else
    let* g := getG in
    if negb (Time_IsZero (wd s)) then
      if Time_After (now g) (wd s) then ret (Return (0, Some errTimeout))
      else ret (Blocked (Some (Time_Sub (wd s) (now g))))
    else ret (Blocked None).

(** The [select] of [Write]; a case that is not ready does not fire. *)
Definition Write_select (timer : option Z) (w : Wake) : SM unit :=
  let* s := getS in
  match w with
  | WakeEvent => if chWriteEvent s then modS (set_chWriteEvent false) else stuck
  | WakeTimer => if timer is Some _ then ret tt else stuck
  | WakeDie => if die s then ret tt else stuck
  | WakeError => stuck
  end.

(** [Write]: the passes of the loop, with what happens while it waits given
    by [sched]; [Blocked] when the call is still waiting at the end of
    [sched]. *)
Fixpoint Write (sched : list Tick) (b : bytes)
  : SM (Outcome (Z * option error)) :=
  let* o := Write_iter b in
  match o with
  | Return r => ret (Return r)
  | Blocked timer =>
      match sched with
      | [] => ret (Blocked timer)
      | tk :: sched' =>
          modify (tick_env tk) ;;;
          Write_select timer (tick_wake tk) ;;;
          Write sched' b
      end
  end.

(** One pass through the [for] of [Read], up to the [select]; the result
    carries what [b] holds on return. *)
Definition Read_iter (b : bytes) : SM (Outcome (bytes * Z * option error)) :=
  let* s := getS in
  if bool_decide (len (bufptr s) > 0) then
    (* copy from buffer into b *)
    let '(b', n) := copy b (bufptr s) in
    let* rest := try (slice_from (bufptr s) n) in
    modS (set_bufptr rest) ;;;
    ret (Return (b', n, None))
  else if isClosed s then
    ret (Return (b, 0, Some (errors_New errBrokenPipe)))
  else
    let size := kcp_PeekSize (kcp s) in
    if bool_decide (size > 0) then
      atomic_Add BytesReceived (to_uint64 size) ;;;
      if bool_decide (len b >= size) then
        (* receive data into 'b' directly *)
        let* b' := s_kcp_Recv b in
        ret (Return (b', size, None))
      else
        (* [recvbuf s] is the whole backing array of s.recvbuf *)
        let backing :=
          if bool_decide (len (recvbuf s) < size)
          then replicate (Z.to_nat size) x00 else recvbuf s in
        let* view := try (slice_to backing size) in
        let* view' := s_kcp_Recv view in
        modS (set_recvbuf (view' ++ drop (length view') backing)) ;;;
        let '(b', n) := copy b view' in
        let* rest := try (slice_from view' n) in
        modS (set_bufptr rest) ;;;
        ret (Return (b', n, None))
    else
      let* g := getG in
      if negb (Time_IsZero (rd s)) then
        if Time_After (now g) (rd s) then ret (Return (b, 0, Some errTimeout))
        else ret (Blocked (Some (Time_Sub (rd s) (now g))))
      else ret (Blocked None).

(** The [select] of [Read]: [Some] when it returns from [Read]. *)
Definition Read_select (timer : option Z) (w : Wake)
  : SM (option (Z * option error)) :=
  let* s := getS in
  match w with
  | WakeEvent =>
      if chReadEvent s then modS (set_chReadEvent false) ;;; ret None else stuck
  | WakeTimer => if timer is Some _ then ret None else stuck
  | WakeDie => if die s then ret None else stuck
  | WakeError =>
      match chErrorEvent s with
      | Some err => modS (set_chErrorEvent None) ;;; ret (Some (0, Some err))
      | None => stuck
      end
  end.

(** [Read], in the manner of [Write]. *)
Fixpoint Read (sched : list Tick) (b : bytes)
  : SM (Outcome (bytes * Z * option error)) :=
  let* o := Read_iter b in
  match o with
  | Return r => ret (Return r)
  | Blocked timer =>
      match sched with
      | [] => ret (Blocked timer)
      | tk :: sched' =>
          modify (tick_env tk) ;;;
          let* r := Read_select timer (tick_wake tk) in
          match r with
          | Some (n, err) => ret (Return (b, n, err))
          | None => Read sched' b
          end
      end
  end.

(** [s.conn.Close()]. *)
Definition s_conn_Close : SM (option error) :=
  let* s := getS in
  let* g := getG in
  let '(net', err) := conn_Close (net g) (conn s) in
  modG (set_net net') ;;;
  emit (ConnClose (conn s)) ;;;
  ret err.

(** [Close] closes the connection. [updater.removeSession] and
    [l.closeSession] are the calls they are; what the listener does with the
    notification is [monitor_closed] below. *)
Definition Close : SM (option error) :=
  emit UpdaterRemove ;;;
  let* s := getS in
  when (bool_decide (is_Some (l s))) (emit (ListenerCloseSession (remote s))) ;;;
  if isClosed s then ret (Some (errors_New errBrokenPipe))
  else
    (* close(s.die) panics on a closed channel *)
    (if die s then panic else modS (set_die true)) ;;;
    modS (set_isClosed true) ;;;
    atomic_Add CurrEstab uint64_all_ones ;;;
    if l s is None then s_conn_Close else ret None.

(** Setters of the configuration, and the two notifications. *)
Definition SetWriteDelay (delay : bool) : SM unit := modS (set_writeDelay delay).
Definition SetDUP (dup : Z) : SM unit := modS (set_dup dup).
Definition SetACKNoDelay (nodelay : bool) : SM unit := modS (set_ackNoDelay nodelay).

Definition notifyReadEvent : SM unit := modS (set_chReadEvent true).
Definition notifyWriteEvent : SM unit := modS (set_chWriteEvent true).

(** [update]: kcp update, returns the interval for the next call. *)
Definition update : SM Z :=
  let* s := getS in
  let waitsnd := kcp_WaitSnd (kcp s) in
  let* interval := s_kcp_flush false in
  let* s := getS in
  when (bool_decide (kcp_WaitSnd (kcp s) < waitsnd)) notifyWriteEvent ;;;
  ret interval.

(** ** Ingress *)

(** Modelled from the spec: fec.go is not under src/. [decodeBytes] reads
    the on-wire FEC header, "sequence number (32-bit ...); flag (16-bit ...)",
    all multi-byte integers little-endian; the rest is the shard's data. *)
Definition decodeBytes (data : bytes) : option fecPacket :=
  seqid ← LittleEndian.Uint32 data;
  flag ← LittleEndian.Uint16 (drop 4 data);
  Some (mkFecPacket seqid flag (drop (Z.to_nat fecHeaderSize) data)).

(** The body of [for _, r := range recovers] in [kcpInput], on the locals
    [kcpInErrors], [fecErrs] and [fecRecovered]. *)
Definition kcpInput_recovered (acc : Z * Z * Z) (r : bytes) : SM (Z * Z * Z) :=
  let '(kcpInErrors, fecErrs, fecRecovered) := acc in
  if bool_decide (len r >= 2) then       (* must be larger than 2bytes *)
    let* sz := try (LittleEndian.Uint16 r) in
    if bool_decide (sz <= len r) && bool_decide (sz >= 2) then
      let* payload := try (slice r 2 sz) in
      let* s := getS in
      let* rv := s_kcp_Input payload false (ackNoDelay s) in
      if bool_decide (rv = 0)
      then ret (kcpInErrors, fecErrs, add_uint64 fecRecovered 1)
      else ret (add_uint64 kcpInErrors 1, fecErrs, fecRecovered)
    else ret (kcpInErrors, add_uint64 fecErrs 1, fecRecovered)
  else ret (kcpInErrors, add_uint64 fecErrs 1, fecRecovered).

(** [kcpInput]. *)
Definition kcpInput (data : bytes) : SM unit :=
  let* s := getS in
  let* '(kcpInErrors, fecErrs, fecRecovered, fecParityShards) :=
    match fecDecoder s with
    | Some dec =>
        if bool_decide (len data > fecHeaderSize) then
          (* must be larger than fec header size *)
          let* f := try (decodeBytes data) in
          if bool_decide (fec_flag f = typeData)
             || bool_decide (fec_flag f = typeFEC) then     (* header check *)
            let fecParityShards :=
              if bool_decide (fec_flag f = typeFEC) then 1 else 0 in
            let '(dec', recovers) := fec_decode dec f in
            emit (FecDecode (fec_seqid f) (fec_flag f) (fec_data f)) ;;;
            modS (set_fecDecoder (Some dec')) ;;;
            let* s := getS in
            let waitsnd := kcp_WaitSnd (kcp s) in
            let* kcpInErrors :=
              if bool_decide (fec_flag f = typeData) then
                let* payload := try (slice_from data fecHeaderSizePlus2) in
                let* rv := s_kcp_Input payload true (ackNoDelay s) in
                ret (if bool_decide (rv ≠ 0) then 1 else 0)
              else ret 0 in
            let* '(kcpInErrors, fecErrs, fecRecovered) :=
              for_range recovers (kcpInErrors, 0, 0) kcpInput_recovered in
            (* to notify the readers to receive the data *)
            let* s := getS in
            when (bool_decide (kcp_PeekSize (kcp s) > 0)) notifyReadEvent ;;;
            (* to notify the writers when queue is shorter (e.g. ACKed) *)
            when (bool_decide (kcp_WaitSnd (kcp s) < waitsnd)) notifyWriteEvent ;;;
            ret (kcpInErrors, fecErrs, fecRecovered, fecParityShards)
          else atomic_Add InErrs 1 ;;; ret (0, 0, 0, 0)
        else atomic_Add InErrs 1 ;;; ret (0, 0, 0, 0)
    | None =>
        let waitsnd := kcp_WaitSnd (kcp s) in
        let* rv := s_kcp_Input data true (ackNoDelay s) in
        let* s := getS in
        when (bool_decide (kcp_PeekSize (kcp s) > 0)) notifyReadEvent ;;;
        when (bool_decide (kcp_WaitSnd (kcp s) < waitsnd)) notifyWriteEvent ;;;
        ret (if bool_decide (rv ≠ 0) then 1 else 0, 0, 0, 0)
    end in
  atomic_Add InPkts 1 ;;;
  atomic_Add InBytes (to_uint64 (len data)) ;;;
  when (bool_decide (fecParityShards > 0))
       (atomic_Add FECParityShards fecParityShards) ;;;
  when (bool_decide (kcpInErrors > 0)) (atomic_Add KCPInErrors kcpInErrors) ;;;
  when (bool_decide (fecErrs > 0)) (atomic_Add FECErrs fecErrs) ;;;
  when (bool_decide (fecRecovered > 0)) (atomic_Add FECRecovered fecRecovered).

(** The test of [receiver]: [err == nil && n >= headerSize+IKCP_OVERHEAD]. *)
Definition receiver_admits (headerSize n : Z) : bool :=
  bool_decide (n >= int_add headerSize IKCP_OVERHEAD).

(** One pass of the loop of [UDPSession.receiver]: [data] is the buffer
    after [ReadFrom], [n] and [err] what it returned. *)
Definition receiver (data : bytes) (n : Z) (err : option error) : SM Received :=
  let* s := getS in
  match err with
  | None =>
      if receiver_admits (headerSize s) n then
        let* d := try (slice_to data n) in ret (Forwarded d)
      else atomic_Add InErrs 1 ;;; ret Dropped
  | Some e => modS (set_chErrorEvent (Some e)) ;;; ret (Failed e)
  end.

(** Decrypting and verifying one datagram, as [readLoop] and [monitor] both
    do: the data after it, and [dataValid]. *)
Definition open_datagram (block : option BlockCrypt) (data : bytes)
  : M Glob (bytes * bool) :=
  match block with
  | Some blk =>
      let data := fst (copy data (Decrypt blk data)) in
      let* data := try (slice_from data nonceSize) in
      let* body := try (slice_from data crcSize) in
      let checksum := crc32.ChecksumIEEE body in
      let* stored := try (LittleEndian.Uint32 data) in
      if bool_decide (checksum = stored) then ret (body, true)
      else atomic_AddG InCsumErrors 1 ;;; ret (data, false)
  | None => ret (data, true)
  end.

(** The case [data := <-chPacket] of the read loop of a client session. *)
Definition readLoop_packet (data : bytes) : SM unit :=
  let* s := getS in
  let* '(data, dataValid) := zoom snd (fun g st => (fst st, g))
                                  (open_datagram (block s) data) in
  when dataValid (kcpInput data).

(** ** Listener *)

(** The fields of [Listener]; a [*UDPSession] is a reference into the heap
    of sessions. *)
Record Listener : Type := mkListener {
  l_block : option BlockCrypt;
  l_dataShards : Z;
  l_parityShards : Z;
  l_fecDecoder : option FecDec;
  l_conn : ConnId;
  sessions : gmap string positive;   (* all sessions accepted by this Listener *)
  chAccepts : Chan positive;         (* Listen() backlog *)
  l_headerSize : Z;
  l_die : bool;
  l_rd : Time
}.

Definition set_sessions (v : gmap string positive) (l : Listener) : Listener :=
  mkListener (l_block l) (l_dataShards l) (l_parityShards l) (l_fecDecoder l)
    (l_conn l) v (chAccepts l) (l_headerSize l) (l_die l) (l_rd l).

Definition set_chAccepts (v : Chan positive) (l : Listener) : Listener :=
  mkListener (l_block l) (l_dataShards l) (l_parityShards l) (l_fecDecoder l)
    (l_conn l) (sessions l) v (l_headerSize l) (l_die l) (l_rd l).

Definition set_l_die (v : bool) (l : Listener) : Listener :=
  mkListener (l_block l) (l_dataShards l) (l_parityShards l) (l_fecDecoder l)
    (l_conn l) (sessions l) (chAccepts l) (l_headerSize l) v (l_rd l).

(** [ServeConn]: the listener it builds (it then starts [monitor]). *)
Definition ServeConn (block : option BlockCrypt) (dataShards parityShards : Z)
    (conn : ConnId) : Listener :=
  let fecDecoder :=
    newFECDecoder (wrap_int (rxFECMulti * wrap_int (dataShards + parityShards)))
                  dataShards parityShards in
  mkListener block dataShards parityShards fecDecoder conn ∅
    (mkChan [] acceptBacklog)
    ((if block is Some _ then cryptHeaderSize else 0)
     + (if fecDecoder is Some _ then fecHeaderSizePlus2 else 0))
    false 0.

(** The listener, the locals [lastAddr] and [lastSession] of its [monitor],
    the sessions allocated so far, and the process-wide state. *)
Record World : Type := mkWorld {
  listener : Listener;
  self : positive;                   (* the address of the listener *)
  lastAddr : string;
  lastSession : option positive;
  heap : gmap positive UDPSession;
  glob : Glob
}.

Definition set_listener (v : Listener) (w : World) : World :=
  mkWorld v (self w) (lastAddr w) (lastSession w) (heap w) (glob w).
Definition set_last (a : string) (s : option positive) (w : World) : World :=
  mkWorld (listener w) (self w) a s (heap w) (glob w).
Definition set_heap (v : gmap positive UDPSession) (w : World) : World :=
  mkWorld (listener w) (self w) (lastAddr w) (lastSession w) v (glob w).
Definition set_glob (v : Glob) (w : World) : World :=
  mkWorld (listener w) (self w) (lastAddr w) (lastSession w) (heap w) v.

(** The monad of the methods of [*Listener]. *)
Definition LM (A : Type) : Type := M World A.

(** A method called on the session [p] points to; a nil [p] panics. *)
Definition on_session {A} (p : option positive) (m : SM A) : LM A :=
  fun w =>
    let back (st : UDPSession * Glob) :=
      set_heap (<[default 1%positive p := fst st]> (heap w)) (set_glob (snd st) w) in
    match p ≫= (fun sid => heap w !! sid) with
    | None => Panic w
    | Some s =>
        match m (s, glob w) with
        | Ok (a, st) => Ok (a, back st)
        | Panic st => Panic (back st)
        | Stuck st => Stuck (back st)
        end
    end.

(** [new(UDPSession)]: a reference not in use. *)
Definition alloc (s : UDPSession) : LM positive :=
  fun w =>
    let sid := fresh (dom (heap w)) in
    Ok (sid, set_heap (<[sid := s]> (heap w)) w).

(** [l.chAccepts <- s]: waits while the queue is full. *)
Definition send_chAccepts (sid : positive) : LM unit :=
  let* w := get in
  let ch := chAccepts (listener w) in
  if bool_decide (len (chan_buf ch) < chan_cap ch) then
    modify (fun w => set_listener
                       (set_chAccepts (mkChan (chan_buf ch ++ [sid]) (chan_cap ch))
                                      (listener w)) w)
  else stuck.

(** The case [p := <-chPacket] of [monitor]. *)
Definition monitor_packet (from : Addr) (data : bytes) : LM unit :=
  let* w := get in
  let l := listener w in
  let* '(data, dataValid) := zoom glob set_glob (open_datagram (l_block l) data) in
  when dataValid (
    let addr := from in
    (* the packets received from an address always come in batch,
       cache the session for next packet, without querying map. *)
    let* '(s, ok) :=
      if bool_decide (addr = lastAddr w) then ret (lastSession w, true)
      else match sessions l !! addr with
           | Some s => modify (set_last addr (Some s)) ;;; ret (Some s, true)
           | None => ret (None, false)
           end in
    if negb ok then                                           (* new session *)
      (* do not let the new sessions overwhelm accept queue *)
      when (bool_decide (len (chan_buf (chAccepts l)) < chan_cap (chAccepts l))) (
        let* conv :=
          match l_fecDecoder l with
          | Some _ =>
              let* isfec := try (slice_from data 4 ≫= LittleEndian.Uint16) in
              if bool_decide (isfec = typeData) then
                let* c := try (slice_from data fecHeaderSizePlus2
                               ≫= LittleEndian.Uint32) in
                ret (Some c)
              else ret None
          | None =>
              let* c := try (LittleEndian.Uint32 data) in ret (Some c)
          end in
        (* creates a new session only if the 'conv' field in kcp is accessible *)
        match conv with
        | Some conv =>
            let* s := zoom glob set_glob
                        (newUDPSession conv (l_dataShards l) (l_parityShards l)
                           (Some (self w)) (l_conn l) from (l_block l)) in
            let* sid := alloc s in
            on_session (Some sid) (kcpInput data) ;;;
            modify (fun w => set_listener
                               (set_sessions (<[addr := sid]> (sessions (listener w)))
                                             (listener w)) w) ;;;
            send_chAccepts sid
        | None => ret tt
        end)
    else on_session s (kcpInput data)).

(** The case [deadlink := <-l.chSessionClosed] of [monitor]. *)
Definition monitor_closed (deadlink : Addr) : LM unit :=
  modify (fun w => set_listener
                     (set_sessions (delete deadlink (sessions (listener w)))
                                   (listener w)) w).

(** One pass of the loop of [monitor]; [false] when it returns. *)
Definition monitor (i : MonitorIn) : LM bool :=
  match i with
  | InPacket from data => monitor_packet from data ;;; ret true
  | InClosed deadlink => monitor_closed deadlink ;;; ret true
  | InDie => let* w := get in if l_die (listener w) then ret false else stuck
  end.

(** One pass of the loop of [Listener.receiver]. *)
Definition l_receiver (data : bytes) (n : Z) (from : Addr) (err : option error)
  : LM Received :=
  let* w := get in
  match err with
  | None =>
      if receiver_admits (l_headerSize (listener w)) n then
        let* d := try (slice_to data n) in ret (Forwarded d)
      else
        zoom glob set_glob (atomic_AddG InErrs 1) ;;; ret Dropped
  | Some e => ret (Failed e)
  end.

(** [AcceptKCP] accepts a KCP connection. *)
Definition AcceptKCP (a : AcceptWake) : LM (option positive * option error) :=
  let* w := get in
  let l := listener w in
  match a with
  | AcceptTimeout =>
      if negb (Time_IsZero (l_rd l)) then ret (None, Some errTimeout) else stuck
  | AcceptSession =>
      match chan_buf (chAccepts l) with
      | c :: rest =>
          modify (set_listener
                    (set_chAccepts (mkChan rest (chan_cap (chAccepts l))) l)) ;;;
          ret (Some c, None)
      | [] => stuck
      end
  | AcceptDie =>
      if l_die l then ret (None, Some (errors_New errBrokenPipe)) else stuck
  end.

(** [Listener.Close] stops listening; accepted connections are not closed. *)
Definition l_Close : LM (option error) :=
  let* w := get in
  (if l_die (listener w) then panic
   else modify (fun w => set_listener (set_l_die true (listener w)) w)) ;;;
  let* w := get in
  let '(net', err) := conn_Close (net (glob w)) (l_conn (listener w)) in
  modify (fun w => set_glob (emitG (ConnClose (l_conn (listener w)))
                               (set_net net' (glob w))) w) ;;;
  ret err.

End Session.

(** ** A small instance of the collaborators

    For running the model on concrete inputs. The core keeps nothing beyond
    its send queue: [WaitSnd] is the length of the queue, [flush] hands every
    queued segment to the output callback behind a 24-byte header and
    empties the queue, [Input] accepts everything and nothing is ever ready
    to read. The codecs replay a script: each call returns the next entry.
    The nonce generator counts. The carrier accepts every write and reports
    its state as the result of [Close] (0 is success). *)
Definition demo_flush (k : KCP unit) (ackOnly : bool)
  : KCP unit * list (bytes * Z) * Z :=
  (mkKCP (conv k) (mss k) (snd_wnd k) (stream k) [] tt,
   (fun sg => (replicate 24 x00 ++ seg_data sg, 24 + len (seg_data sg)))
     <$> snd_queue k,
   10).

Definition demo : External := {|
  KcpRest := unit;
  FecDec := list (list bytes);
  FecEnc := list (list bytes);
  Entropy := Z;
  Net := Z;
  IKCP_MTU_DEF := 1400;
  kcp_new_mss := 1376;
  kcp_new_snd_wnd := 32;
  kcp_new_rest := fun _ => tt;
  kcp_setmtu_rest := fun _ _ => tt;
  kcp_WaitSnd := fun k => len (snd_queue k);
  kcp_PeekSize := fun _ => -1;
  kcp_Recv := fun k _ => (k, [], -1);
  kcp_Input := fun k _ _ _ => (k, [], 0);
  kcp_flush := demo_flush;
  newFECDecoder := fun _ d p =>
    if bool_decide (0 < d) && bool_decide (0 < p) then Some [] else None;
  newFECEncoder := fun d p _ =>
    if bool_decide (0 < d) && bool_decide (0 < p) then Some [] else None;
  fec_decode := fun d _ => (tail d, default [] (head d));
  fec_encode := fun e b => (tail e, b, default [] (head e));
  nonce_Init := 0;
  nonce_Fill := fun n => (n + 1, replicate 16 (byte_of_Z n));
  conn_WriteTo := fun n _ b _ => (n, len b, None);
  conn_Close := fun n _ =>
    (n, if bool_decide (n = 0) then None else Some (carrier_error n))
|}.

(** The process state the examples start from. *)
Definition demo_glob : @Glob demo := @mkGlob demo (fun _ => 0) 0 1000 [].

(** A client session as [newUDPSession] makes it, without cipher and
    without FEC. *)
Definition demo_client : @UDPSession demo :=
  @mkUDPSession demo 1%positive (@NewKCP demo 7) None None
    (replicate 1500 x00) [] [] None None "10.0.0.2" 0 0 0 false false 0
    false false false None 0 false.

(** A session closed after its carry buffer received a byte that [Read] has
    not yet returned. *)
Definition demo_carry : @UDPSession demo :=
  set_bufptr [x41] demo_client.

(** ** Well-formed sessions and listeners *)

(** The additional header of a datagram: the crypto header when a cipher is
    configured, the FEC header and the shard length when FEC is. *)
Definition header_size (block : option BlockCrypt) (fec : bool) : Z :=
  (if block is Some _ then cryptHeaderSize else 0)
  + (if fec then fecHeaderSizePlus2 else 0).

(** What [newUDPSession] establishes about [headerSize] and [ext], and no
    method changes. *)
Definition session_wf `{X : External} (s : UDPSession) : Prop :=
  (exists fec, headerSize s = header_size (block s) fec)
  /\ (0 < headerSize s -> len (ext s) = mtuLimit).

(** What [ServeConn] establishes. *)
Definition listener_wf `{X : External} (l : Listener) : Prop :=
  (exists fec, l_headerSize l = header_size (l_block l) fec)
  /\ chan_cap (chAccepts l) = acceptBacklog.

(** ** The checksum of an incoming datagram *)

(** The checksum stored in a decrypted datagram, after the nonce. *)
Definition crc_stored (plain : bytes) : option Z :=
  LittleEndian.Uint32 (drop (Z.to_nat nonceSize) plain).

(** The checksum of the bytes after the crypto header. *)
Definition crc_computed (plain : bytes) : Z :=
  crc32.ChecksumIEEE (drop (Z.to_nat cryptHeaderSize) plain).

(** The datagram [data], once decrypted in place with [blk], does not carry
    the checksum of its payload. *)
Definition crc_mismatch (blk : BlockCrypt) (data : bytes) : Prop :=
  let plain := fst (copy data (Decrypt blk data)) in
  crc_stored plain <> Some (crc_computed plain).

(** Adding to one counter of the registry. *)
Definition count `{X : External} (f : SnmpField) (delta : Z) (g : Glob) : Glob :=
  set_snmp (atomic_AddUint64 f delta (snmp g)) g.

(** ** Concrete inputs *)

(** A cipher for the examples: every byte is xored with 0x5A. *)
Definition demo_xor (b : byte) : byte := byte_of_Z (Z.lxor (byte_to_Z b) 0x5A).

Definition demo_cipher : BlockCrypt := mkBlockCrypt (fmap demo_xor) (fmap demo_xor).

(** The client session [newUDPSession] makes with that cipher, without
    FEC. *)
Definition demo_crypto_client : @UDPSession demo :=
  match @newUDPSession demo 7 0 0 None 1%positive "10.0.0.2" (Some demo_cipher)
          demo_glob with
  | Ok (s, _) => s
  | _ => demo_client
  end.

(** A listener with that cipher, before any datagram. *)
Definition demo_world : @World demo :=
  @mkWorld demo (@ServeConn demo (Some demo_cipher) 0 0 1%positive)
    9%positive "" None ∅ demo_glob.

(** Forty-four zero bytes: decrypted, the stored checksum is 0x5A5A5A5A,
    which is not the checksum of the twenty-four bytes 0x5A after it. *)
Definition demo_corrupt : bytes := replicate 44 x00.

(** ** Reading the trace *)

(** The calls to the KCP core among [evs]. *)
Definition is_kcp_call (e : Event) : bool :=
  match e with
  | KcpNew _ | KcpSetMtu _ | KcpSend _ | KcpInput _ _ _ | KcpFlush _
  | KcpRecv _ => true
  | _ => false
  end.

Definition kcp_calls (evs : list Event) : list Event := filter is_kcp_call evs.

(** The datagrams written to the carrier among [evs]. *)
Definition datagrams (evs : list Event) : list bytes :=
  omap (fun e => if e is ConnWriteTo _ b _ then Some b else None) evs.

(** ** Frames

    [frames R m]: whatever state [m] starts from, the state it ends in, be
    it by returning, by a panic or by not returning, is related to it by
    [R]. *)
Definition frames {S A} (R : S -> S -> Prop) (m : M S A) : Prop :=
  forall st, R st (final (m st)).

(** What the egress pipeline leaves alone: of the session everything but
    [ext], the FEC encoder and the nonce generator; of the process the
    clock and every counter but [OutPkts] and [OutBytes]; and it calls
    nothing of the KCP core. *)
Definition egress `{X : External} (st st' : UDPSession * Glob) : Prop :=
  set_ext (ext st.1) (set_fecEncoder (fecEncoder st.1) (set_nonce (nonce st.1) st'.1))
  = st.1
  /\ len (ext st'.1) = len (ext st.1)
  /\ now st'.2 = now st.2
  /\ (forall f, f <> OutPkts -> f <> OutBytes -> snmp st'.2 f = snmp st.2 f)
  /\ exists evs, trace st'.2 = trace st.2 ++ evs /\ kcp_calls evs = [].

(** ** What [output] is given and what it writes *)

(** The buffer [output] works on after step 0: [buf] behind [headerSize]
    bytes of [s.ext] when there is an additional header, [buf] itself
    otherwise. *)
Definition extended `{X : External} (s : UDPSession) (buf : bytes) : bytes :=
  if bool_decide (headerSize s > 0)
  then take (Z.to_nat (headerSize s)) (ext s) ++ buf
  else buf.

(** The parity shards the FEC encoder returns when [output] is called with
    [buf]; none without an encoder. *)
Definition parity `{X : External} (s : UDPSession) (buf : bytes) : list bytes :=
  match fecEncoder s with
  | Some enc => (fec_encode enc (extended s buf)).2
  | None => []
  end.

(** A client session with FEC whose encoder is about to return one parity
    shard, and which duplicates every data datagram twice. *)
Definition demo_fec_client : @UDPSession demo :=
  match @newUDPSession demo 7 10 3 None 1%positive "10.0.0.2" None demo_glob with
  | Ok (s, _) =>
      @set_dup demo 2 (@set_fecEncoder demo (Some [[replicate 30 xf2]]) s)
  | _ => demo_client
  end.

(** A KCP frame of header size: twenty-four zero bytes. *)
Definition demo_frame : bytes := replicate 24 x00.

(** The calls to the KCP core made up to a state. *)
Definition calls `{X : External} (st : UDPSession * Glob) : list Event :=
  kcp_calls (trace st.2).

(** What a call into the KCP core leaves alone, the egress pipeline it may
    drive included: of the session everything but the core, [ext], the FEC
    encoder and the nonce generator; of the process the clock and every
    counter but [OutPkts] and [OutBytes]. *)
Definition core_frame `{X : External} (st st' : UDPSession * Glob) : Prop :=
  set_kcp (kcp st.1)
    (set_ext (ext st.1)
       (set_fecEncoder (fecEncoder st.1) (set_nonce (nonce st.1) st'.1)))
  = st.1
  /\ now st'.2 = now st.2
  /\ (forall f, f <> OutPkts -> f <> OutBytes -> snmp st'.2 f = snmp st.2 f).

(** ** Recovered shards *)

(** The length a recovered shard carries in its first two bytes, as
    [kcpInput] reads it. *)
Definition shard_size (r : bytes) : option Z := LittleEndian.Uint16 r.

(** The tests of [kcpInput] on a recovered shard. *)
Definition shard_consistent (r : bytes) : bool :=
  match shard_size r with
  | Some sz => bool_decide (2 <= sz <= len r)
  | None => false
  end.

(** The bytes of a shard between the two-byte prefix and the length it
    carries. *)
Definition shard_payload (r : bytes) : bytes :=
  match shard_size r with
  | Some sz => drop 2 (take (Z.to_nat sz) r)
  | None => []
  end.

(** A session with FEC whose decoder is about to return three shards: one
    that carries the length 3 and one payload byte, one whose first two
    bytes read as 768, and one of a single byte. *)
Definition demo_recovered : @FecDec demo :=
  [[[x03; x00; xaa]; [x00; x03; xaa; xbb]; [x05]]].

Definition demo_recovering : @UDPSession demo :=
  @set_fecDecoder demo (Some demo_recovered) demo_fec_client.

(** A data shard as it arrives: FEC sequence number 0, flag [typeData], the
    length 26 of what follows, and a KCP frame. *)
Definition demo_shard : bytes :=
  [x00; x00; x00; x00; xf1; x00; x1a; x00] ++ demo_frame.

(** ** What [Write] hands to the core *)

(** The arguments of the calls to [Send] that the inner loop of [Write]
    makes for [b], in order, following the loop pass by pass. *)
Fixpoint pieces (fuel : nat) (mss : Z) (b : bytes) : list bytes :=
  match fuel with
  | O => []
  | S fuel' =>
      if bool_decide (len b <= mss) then [b]
      else take (Z.to_nat mss) b :: pieces fuel' mss (drop (Z.to_nat mss) b)
  end.

(** The core after [Send] of each of [ps]. *)
Definition send_all {Rest} (k : KCP Rest) (ps : list bytes) : KCP Rest :=
  foldl (fun k p => (kcp_Send k p).1) k ps.

(** Every piece has at most [mss] bytes, and every piece but the last
    exactly [mss]. *)
Definition mss_sized (mss : Z) (ps : list bytes) : Prop :=
  Forall (fun p => len p <= mss) ps
  /\ forall (i : nat) (p : bytes),
       ps !! i = Some p -> (S i < length ps)%nat -> len p = mss.

(** The test of [Write] for flushing at once, on the state the loop
    leaves. *)
Definition flushes_now `{X : External} (s : UDPSession) : bool :=
  bool_decide (kcp_WaitSnd (kcp s) >= snd_wnd (kcp s)) || negb (writeDelay s).

(** Client sessions whose core has an MSS of two bytes: with the default
    send window, with a send window of one segment, and with none. *)
Definition demo_small : @UDPSession demo :=
  @set_kcp demo (@kcp_SetMtu demo (@NewKCP demo 7) 26) demo_client.

Definition demo_narrow : @UDPSession demo :=
  @set_kcp demo (mkKCP 7 2 1 0 [] tt) demo_client.

Definition demo_saturated : @UDPSession demo :=
  @set_kcp demo (mkKCP 7 2 0 0 [] tt) demo_client.


(** Five bytes to write. *)
Definition demo_bytes : bytes := [x41; x42; x43; x44; x45].

(** The result of a call that returned without error. *)
Definition returned {S} (r : Res (Outcome (Z * option error)) S) : option Z :=
  match r with
  | Ok (Return (n, None), _) => Some n
  | _ => None
  end.

(** ** The listener at work *)

(** What may happen to a listener: a pass of the loop of [monitor] or a
    call of [AcceptKCP], however it ends (by returning, in a panic, or
    waiting for ever), or anything else, which leaves the accept queue alone
    ([monitor] is the only sender on [chAccepts] and [AcceptKCP] the only
    receiver). *)
Inductive lstep `{X : External} : World -> World -> Prop :=
| lstep_monitor (i : MonitorIn) (w : World) :
    lstep w (final (monitor i w))
| lstep_accept (a : AcceptWake) (w : World) :
    lstep w (final (AcceptKCP a w))
| lstep_other (w w' : World) :
    chAccepts (listener w') = chAccepts (listener w) -> lstep w w'.

(** The states a listener made by [ServeConn] goes through. *)
Inductive serving `{X : External} : World -> Prop :=
| serving_start (block : option BlockCrypt) (dataShards parityShards : Z)
    (conn : ConnId) (w : World) :
    listener w = ServeConn block dataShards parityShards conn -> serving w
| serving_step (w w' : World) : serving w -> lstep w w' -> serving w'.

(** The accept queue holds at most [acceptBacklog] sessions. *)
Definition accept_ok `{X : External} (l : Listener) : Prop :=
  chan_cap (chAccepts l) = acceptBacklog
  /\ len (chan_buf (chAccepts l)) <= acceptBacklog.

(** The trace only grows. *)
Definition trace_grows `{X : External} (st st' : UDPSession * Glob) : Prop :=
  exists evs, trace st'.2 = trace st.2 ++ evs.

(** A listener with FEC and without cipher, before any datagram, and a
    parity shard as it arrives. *)
Definition demo_listening : @World demo :=
  @mkWorld demo (@ServeConn demo None 10 3 1%positive)
    9%positive "" None ∅ demo_glob.

Definition demo_parity : bytes :=
  [x01; x00; x00; x00; xf2; x00; x1a; x00] ++ demo_frame.

(** ** Deadlines and the MTU *)

Section Configuration.

Context {X : External}.

(** [SetDeadline]: both deadlines are set and both events posted. *)
Definition SetDeadline (t : Time) : SM (option error) :=
  modS (set_rd t) ;;;
  modS (set_wd t) ;;;
  notifyReadEvent ;;;
  notifyWriteEvent ;;;
  ret None.

(** [SetReadDeadline]. *)
Definition SetReadDeadline (t : Time) : SM (option error) :=
  modS (set_rd t) ;;;
  notifyReadEvent ;;;
  ret None.

(** [SetWriteDeadline]. *)
Definition SetWriteDeadline (t : Time) : SM (option error) :=
  modS (set_wd t) ;;;
  notifyWriteEvent ;;;
  ret None.

(** [SetMtu] sets the maximum transmission unit; the core is given what is
    left of it after the additional header. *)
Definition SetMtu (mtu : Z) : SM bool :=
  if bool_decide (mtu > mtuLimit) then ret false
  else
    let* s := getS in
    let m := wrap_int (mtu - headerSize s) in
    emit (KcpSetMtu m) ;;;
    modS (set_kcp (kcp_SetMtu (kcp s) m)) ;;;
    ret true.

End Configuration.

(** What a blocked call sees when another goroutine runs [m] to its end and
    the case [w] of the [select] then fires. *)
Definition meanwhile `{X : External} {A} (m : SM A) (w : Wake) : Tick :=
  mkTick (fun st => final (m st)) w.

(** The message [Read] takes from the core: what the first [size] bytes of
    the buffer handed to [Recv] hold afterwards. *)
Definition received `{X : External} (s : UDPSession) (buffer : bytes) : bytes :=
  let '(_, filled, _) := kcp_Recv (kcp s) buffer in
  fst (copy buffer filled).

(** The window of [recvbuf] that [Read] hands to [Recv] when the caller's
    buffer is too small for a message of [size] bytes. *)
Definition recv_window `{X : External} (s : UDPSession) (size : Z) : bytes :=
  take (Z.to_nat size)
    (if bool_decide (len (recvbuf s) < size)
     then replicate (Z.to_nat size) x00 else recvbuf s).

(** ** What the methods leave alone *)

(** The layout of a datagram, fixed when the session is made: the cipher,
    the size of the additional header and the room of [ext]. *)
Definition layout `{X : External} (st st' : UDPSession * Glob) : Prop :=
  block st'.1 = block st.1
  /\ headerSize st'.1 = headerSize st.1
  /\ len (ext st'.1) = len (ext st.1).

(** What driving the core leaves alone: of the session everything but the
    core, the codecs, the nonce generator, the contents of [ext] and the two
    events; of the process the clock. *)
Definition quiet `{X : External} (st st' : UDPSession * Glob) : Prop :=
  set_kcp (kcp st.1)
    (set_ext (ext st.1)
       (set_fecDecoder (fecDecoder st.1)
          (set_fecEncoder (fecEncoder st.1)
             (set_nonce (nonce st.1)
                (set_chReadEvent (chReadEvent st.1)
                   (set_chWriteEvent (chWriteEvent st.1) st'.1))))))
  = st.1
  /\ len (ext st'.1) = len (ext st.1)
  /\ now st'.2 = now st.2.

(** The session after the notifications that end the locked part of
    [kcpInput] and [update]: the read event is posted when a message is
    ready, the write event when the send queue is shorter than [waitsnd]. *)
Definition notified `{X : External} (waitsnd : Z) (s : UDPSession) : UDPSession :=
  let s1 := if bool_decide (kcp_PeekSize (kcp s) > 0)
            then set_chReadEvent true s else s in
  if bool_decide (kcp_WaitSnd (kcp s1) < waitsnd)
  then set_chWriteEvent true s1 else s1.

(** ** A core that receives

    A second instance for running the ingress side: the core keeps the
    messages it was given, [Input] appends what follows the 24-byte header
    of its datagram, [PeekSize] is the length of the oldest message or -1,
    and [Recv] hands it over when the buffer has room for it. The rest is as
    in [demo]. *)
Definition demo_rx : External := {|
  KcpRest := list bytes;
  FecDec := list (list bytes);
  FecEnc := list (list bytes);
  Entropy := Z;
  Net := Z;
  IKCP_MTU_DEF := 1400;
  kcp_new_mss := 1376;
  kcp_new_snd_wnd := 32;
  kcp_new_rest := fun _ => [];
  kcp_setmtu_rest := fun k _ => kcp_rest k;
  kcp_WaitSnd := fun k => len (snd_queue k);
  kcp_PeekSize := fun k => match kcp_rest k with m :: _ => len m | [] => -1 end;
  kcp_Recv := fun k buffer =>
    match kcp_rest k with
    | m :: q =>
        if bool_decide (len buffer < len m) then (k, [], -2)
        else (mkKCP (conv k) (mss k) (snd_wnd k) (stream k) (snd_queue k) q,
              m, len m)
    | [] => (k, [], -1)
    end;
  kcp_Input := fun k data _ _ =>
    (mkKCP (conv k) (mss k) (snd_wnd k) (stream k) (snd_queue k)
           (kcp_rest k ++ [drop 24 data]), [], 0);
  kcp_flush := fun k _ =>
    (mkKCP (conv k) (mss k) (snd_wnd k) (stream k) [] (kcp_rest k),
     (fun sg => (replicate 24 x00 ++ seg_data sg, 24 + len (seg_data sg)))
       <$> snd_queue k,
     10);
  newFECDecoder := fun _ d p =>
    if bool_decide (0 < d) && bool_decide (0 < p) then Some [] else None;
  newFECEncoder := fun d p _ =>
    if bool_decide (0 < d) && bool_decide (0 < p) then Some [] else None;
  fec_decode := fun d _ => (tail d, default [] (head d));
  fec_encode := fun e b => (tail e, b, default [] (head e));
  nonce_Init := 0;
  nonce_Fill := fun n => (n + 1, replicate 16 (byte_of_Z n));
  conn_WriteTo := fun n _ b _ => (n, len b, None);
  conn_Close := fun n _ =>
    (n, if bool_decide (n = 0) then None else Some (carrier_error n))
|}.

Definition demo_rx_glob : @Glob demo_rx := @mkGlob demo_rx (fun _ => 0) 0 1000 [].

(** A client session of that instance, idle. *)
Definition demo_rx_client : @UDPSession demo_rx :=
  @mkUDPSession demo_rx 1%positive (@NewKCP demo_rx 7) None None
    (replicate 1500 x00) [] [] None None "10.0.0.2" 0 0 0 false false 0
    false false false None 0 false.

(** The same session with the three-byte message ABC ready in the core. *)
Definition demo_inbox : @UDPSession demo_rx :=
  @set_kcp demo_rx (mkKCP 7 1376 32 0 [] [[x41; x42; x43]]) demo_rx_client.

(** A datagram without additional header that carries the two bytes AB
    behind a KCP header. *)
Definition demo_push : bytes := replicate 24 x00 ++ [x41; x42].

(** A client session whose send window of one segment is taken by a segment
    waiting in the send queue. *)
Definition demo_full : @UDPSession demo :=
  @set_kcp demo (mkKCP 7 2 1 0 [mkSegment 0 [x41; x42]] tt) demo_client.

(** A datagram with a FEC header whose flag is 0: neither a data shard nor
    a parity shard. *)
Definition demo_unflagged : bytes :=
  [x01; x00; x00; x00; x00; x00; x1a; x00] ++ demo_frame.

(** ** Sealed datagrams *)

(** What the crypto step of [output] leaves in a buffer [b]: the nonce [r]
    over its first bytes, the checksum of the bytes after the crypto header
    behind the nonce, and the whole encrypted in place. *)
Definition sealed (blk : BlockCrypt) (r b : bytes) : bytes :=
  let head := take (Z.to_nat nonceSize) b in
  let b1 := fst (copy head r) ++ drop (length head) b in
  let checksum := crc32.ChecksumIEEE (drop (Z.to_nat cryptHeaderSize) b1) in
  let b2 := take (Z.to_nat nonceSize) b1
            ++ default [] (LittleEndian.PutUint32 (drop (Z.to_nat nonceSize) b1)
                             checksum) in
  fst (copy b2 (Encrypt blk b2)).

(** A cipher that keeps the length of what it encrypts and decrypts it to
    what it was. *)
Definition cipher_ok (blk : BlockCrypt) : Prop :=
  forall x, length (Encrypt blk x) = length x /\ Decrypt blk (Encrypt blk x) = x.

(** The datagram [output] makes of [buf] on a session without FEC encoder:
    [buf] behind the additional header, sealed when a cipher is
    configured. *)
Definition datagram_of `{X : External} (s : UDPSession) (buf : bytes) : bytes :=
  match block s with
  | Some blk => sealed blk (nonce_Fill (nonce s)).2 (extended s buf)
  | None => extended s buf
  end.

(** ** Carriers *)

(** A carrier that takes every datagram whole, and one that fails every
    write. *)
Definition accepting `{X : External} : Prop :=
  forall net c b a, exists net', conn_WriteTo net c b a = (net', len b, None).

Definition failing `{X : External} : Prop :=
  forall net c b a, exists net' n e, conn_WriteTo net c b a = (net', n, Some e).

(** The instance [demo] with a carrier that is down: every write fails,
    having written nothing. *)
Definition demo_down : External := {|
  KcpRest := unit;
  FecDec := list (list bytes);
  FecEnc := list (list bytes);
  Entropy := Z;
  Net := Z;
  IKCP_MTU_DEF := 1400;
  kcp_new_mss := 1376;
  kcp_new_snd_wnd := 32;
  kcp_new_rest := fun _ => tt;
  kcp_setmtu_rest := fun _ _ => tt;
  kcp_WaitSnd := fun k => len (snd_queue k);
  kcp_PeekSize := fun _ => -1;
  kcp_Recv := fun k _ => (k, [], -1);
  kcp_Input := fun k _ _ _ => (k, [], 0);
  kcp_flush := demo_flush;
  newFECDecoder := fun _ d p =>
    if bool_decide (0 < d) && bool_decide (0 < p) then Some [] else None;
  newFECEncoder := fun d p _ =>
    if bool_decide (0 < d) && bool_decide (0 < p) then Some [] else None;
  fec_decode := fun d _ => (tail d, default [] (head d));
  fec_encode := fun e b => (tail e, b, default [] (head e));
  nonce_Init := 0;
  nonce_Fill := fun n => (n + 1, replicate 16 (byte_of_Z n));
  conn_WriteTo := fun n _ _ _ => (n, 0, Some (carrier_error 101));
  conn_Close := fun n _ => (n, None)
|}.

Definition demo_down_glob : @Glob demo_down :=
  @mkGlob demo_down (fun _ => 0) 0 1000 [].

(** A client session on that carrier, which duplicates every datagram. *)
Definition demo_down_client : @UDPSession demo_down :=
  @mkUDPSession demo_down 1%positive (@NewKCP demo_down 7) None None
    (replicate 1500 x00) [] [] None None "10.0.0.2" 0 0 0 false false 1
    false false false None 0 false.

(** Whether [kcpInput] returns on the session [newUDPSession] makes with
    these arguments, when it is given [payload] right away, as [monitor]
    does with the datagram that opens a session. *)
Definition first_input_returns `{X : External} (conv dataShards parityShards : Z)
    (l : option positive) (c : ConnId) (a : Addr) (blk : option BlockCrypt)
    (payload : bytes) (g : Glob) : bool :=
  match newUDPSession conv dataShards parityShards l c a blk g with
  | Ok (s, g') => is_Ok (kcpInput payload (s, g'))
  | _ => false
  end.

(** A data shard that carries the conversation id 7 behind its FEC
    header. *)
Definition demo_hello : bytes :=
  [x01; x00; x00; x00; xf1; x00; x1a; x00; x07; x00; x00; x00]
  ++ replicate 20 x00.

(** A listener without cipher and without FEC that has accepted one session
    from 10.0.0.9, before and after a second datagram from that address made
    it the cached one. *)
Definition demo_accepted : @UDPSession demo :=
  @mkUDPSession demo 1%positive (@NewKCP demo 7) (Some 9%positive) None
    (replicate 1500 x00) [] [] None None "10.0.0.9" 0 0 0 false false 0
    false false false None 0 false.

Definition demo_serving : @World demo :=
  @mkWorld demo
    (@set_sessions demo (<["10.0.0.9" := 1%positive]> ∅)
       (@ServeConn demo None 0 0 1%positive))
    9%positive "" None (<[1%positive := demo_accepted]> ∅) demo_glob.

Definition demo_cached : @World demo :=
  @set_last demo "10.0.0.9" (Some 1%positive) demo_serving.

(** ** The datagrams of one call of [output] *)

(** The buffer after step 1: the encoder has written its header into it. *)
Definition marked `{X : External} (s : UDPSession) (buf : bytes) : bytes :=
  match fecEncoder s with
  | Some enc =>
      fst (copy (extended s buf) (fec_encode enc (extended s buf)).1.2)
  | None => extended s buf
  end.

(** The data datagram: the buffer after steps 2 and 3, sealed with the next
    nonce when a cipher is configured. *)
Definition data_datagram `{X : External} (s : UDPSession) (buf : bytes) : bytes :=
  match block s with
  | Some blk => sealed blk (nonce_Fill (nonce s)).2 (marked s buf)
  | None => marked s buf
  end.

(** The shards of [ecc] sealed one after the other, each with the next
    nonce of the generator [n]. *)
Fixpoint seal_each `{X : External} (blk : BlockCrypt) (n : Entropy)
    (ecc : list bytes) : list bytes :=
  match ecc with
  | [] => []
  | p :: ecc' =>
      sealed blk (nonce_Fill n).2 p :: seal_each blk (nonce_Fill n).1 ecc'
  end.

(** The parity datagrams: the parity shards of the encoder, in its order,
    sealed after the data datagram when a cipher is configured. *)
Definition parity_datagrams `{X : External} (s : UDPSession) (buf : bytes)
  : list bytes :=
  match block s with
  | Some blk => seal_each blk (nonce_Fill (nonce s)).1 (parity s buf)
  | None => parity s buf
  end.

(** ** A listener whose accept queue is full *)

(** One hundred and twenty-eight peers, and the listener [demo_listening]
    after [monitor] has seen a data shard from each of them and nobody has
    called [AcceptKCP]. *)
Definition demo_peer (n : nat) : Addr :=
  String (Ascii.ascii_of_nat n) EmptyString.

Definition demo_crowded : @World demo :=
  foldl (fun w i => final (@monitor demo i w)) demo_listening
        ((fun n => InPacket (demo_peer n) demo_hello) <$> seq 1 128).

(** * Properties *)

(** Unfolding the monad in a goal. *)
Ltac munfold :=
  unfold atomic_Add, emit, emitGM, atomic_AddG, getS, getG, modS, modG,
         try, when, zoom in *;
  unfold bind, ret, get, gets, modify, panic, stuck in *.

Section Properties.

Context {X : External}.

(** ** Closing *)

Definition broken_pipe : option error := Some (errors_New errBrokenPipe).

Lemma Write_closed (sched : list Tick) (b : bytes) (s : UDPSession) (g : Glob) :
  isClosed s = true ->
  Write sched b (s, g) = Ok (Return (0, broken_pipe), (s, g)).
Proof.
  intros Hc. destruct sched; simpl; unfold Write_iter; munfold; simpl;
    rewrite Hc; reflexivity.
Qed.

Lemma Read_closed_empty (sched : list Tick) (b : bytes) (s : UDPSession)
    (g : Glob) :
  isClosed s = true -> bufptr s = [] ->
  Read sched b (s, g) = Ok (Return (b, 0, broken_pipe), (s, g)).
Proof.
  intros Hc He. destruct sched; simpl; unfold Read_iter; munfold; simpl;
    rewrite He, Hc; reflexivity.
Qed.

Lemma slice_from_copy_count {A} (b src : list A) :
  slice_from src (snd (copy b src))
  = Some (drop (Nat.min (length b) (length src)) src).
Proof.
  unfold slice_from, copy, len; simpl.
  rewrite bool_decide_true by lia. rewrite Nat2Z.id. reflexivity.
Qed.

(** With bytes left in the carry buffer, [Read] returns them, closed or
    not, and reports no error. *)
Lemma Read_carry (sched : list Tick) (b : bytes) (s : UDPSession) (g : Glob) :
  bufptr s <> [] ->
  Read sched b (s, g)
  = Ok (Return (fst (copy b (bufptr s)), snd (copy b (bufptr s)), None),
        (set_bufptr (drop (Nat.min (length b) (length (bufptr s))) (bufptr s)) s,
         g)).
Proof.
  intros Hne.
  assert (Hlen : bool_decide (len (bufptr s) > 0) = true).
  { apply bool_decide_eq_true. unfold len. destruct (bufptr s); simpl; [done|lia]. }
  pose proof (slice_from_copy_count b (bufptr s)) as Hs.
  unfold copy in Hs; simpl in Hs.
  destruct sched; simpl; unfold Read_iter; munfold; simpl; rewrite Hlen;
    simpl; rewrite Hs; reflexivity.
Qed.

Lemma Close_closed (s : UDPSession) (g : Glob) :
  isClosed s = true ->
  exists g', Close (s, g) = Ok (broken_pipe, (s, g')).
Proof.
  intros Hc. unfold Close; munfold; simpl.
  destruct (bool_decide (is_Some (l s))); simpl; rewrite Hc; eauto.
Qed.

(** C1, as amended. The first [Close] of an open session returns nil when
    the session was accepted by a listener and what the carrier's [Close]
    returns when it is a client session, and leaves the session closed. On a
    closed session, in whatever state: [Close] returns the broken-pipe
    error, [Write] returns [(0, broken pipe)], and [Read] returns
    [(0, broken pipe)] once the carry buffer is empty; while the carry buffer
    holds bytes, [Read] returns them with a nil error and the session stays
    closed. *)
Theorem Close_then_broken_pipe (s : UDPSession) (g : Glob) :
  isClosed s = false -> die s = false ->
  exists s1 g1,
    Close (s, g)
    = Ok (if l s is None then snd (conn_Close (net g) (conn s)) else None,
          (s1, g1))
    /\ isClosed s1 = true
    /\ forall (s2 : UDPSession) (g2 : Glob), isClosed s2 = true ->
         (exists g3, Close (s2, g2) = Ok (broken_pipe, (s2, g3)))
         /\ (forall sched b,
               Write sched b (s2, g2) = Ok (Return (0, broken_pipe), (s2, g2)))
         /\ (forall sched b, bufptr s2 = [] ->
               Read sched b (s2, g2) = Ok (Return (b, 0, broken_pipe), (s2, g2)))
         /\ (forall sched b, bufptr s2 <> [] ->
               exists s3,
                 Read sched b (s2, g2)
                 = Ok (Return (fst (copy b (bufptr s2)),
                               Z.of_nat (Nat.min (length b) (length (bufptr s2))),
                               None), (s3, g2))
                 /\ isClosed s3 = true
                 /\ bufptr s3
                    = drop (Nat.min (length b) (length (bufptr s2))) (bufptr s2)).
Proof.
  intros Hopen Hdie.
  assert (Hlater : forall (s2 : UDPSession) (g2 : Glob), isClosed s2 = true ->
    (exists g3, Close (s2, g2) = Ok (broken_pipe, (s2, g3)))
    /\ (forall sched b,
          Write sched b (s2, g2) = Ok (Return (0, broken_pipe), (s2, g2)))
    /\ (forall sched b, bufptr s2 = [] ->
          Read sched b (s2, g2) = Ok (Return (b, 0, broken_pipe), (s2, g2)))
    /\ (forall sched b, bufptr s2 <> [] ->
          exists s3,
            Read sched b (s2, g2)
            = Ok (Return (fst (copy b (bufptr s2)),
                          Z.of_nat (Nat.min (length b) (length (bufptr s2))),
                          None), (s3, g2))
            /\ isClosed s3 = true
            /\ bufptr s3
               = drop (Nat.min (length b) (length (bufptr s2))) (bufptr s2))).
  { intros s2 g2 Hc. repeat split.
    - by apply Close_closed.
    - intros. by apply Write_closed.
    - intros. by apply Read_closed_empty.
    - intros sched b Hne. eexists. rewrite Read_carry by done.
      split; [reflexivity|]. split; [exact Hc | reflexivity]. }
  unfold Close; munfold; simpl.
  destruct (l s) as [lid|] eqn:Hl; simpl.
  - rewrite Hopen, Hdie. simpl.
    do 2 eexists. split; [reflexivity|]. split; [reflexivity | exact Hlater].
  - rewrite Hopen, Hdie. simpl.
    unfold s_conn_Close; munfold; simpl.
    destruct (conn_Close (net g) (conn s)) as [net' err] eqn:Hcc. simpl.
    do 2 eexists. split; [reflexivity|]. split; [reflexivity | exact Hlater].
Qed.

(** ** Slices *)

Lemma length_fst_copy {A} (dst src : list A) :
  length (fst (copy dst src)) = length dst.
Proof.
  unfold copy; simpl. rewrite length_app, length_take, length_drop. lia.
Qed.

Lemma len_fst_copy {A} (dst src : list A) : len (fst (copy dst src)) = len dst.
Proof. unfold len. by rewrite length_fst_copy. Qed.

Lemma slice_from_Some {A} (b : list A) (i : Z) :
  0 <= i <= len b -> slice_from b i = Some (drop (Z.to_nat i) b).
Proof. intros H. unfold slice_from. by rewrite bool_decide_true. Qed.

Lemma slice_to_Some {A} (b : list A) (j : Z) :
  0 <= j <= len b -> slice_to b j = Some (take (Z.to_nat j) b).
Proof. intros H. unfold slice_to. by rewrite bool_decide_true. Qed.

Lemma len_drop {A} (b : list A) (n : nat) :
  len (drop n b) = Z.max 0 (len b - Z.of_nat n).
Proof. unfold len. rewrite length_drop. lia. Qed.

Lemma len_take {A} (b : list A) (n : nat) :
  len (take n b) = Z.min (Z.of_nat n) (len b).
Proof. unfold len. rewrite length_take. lia. Qed.

Lemma Uint32_is_Some (b : bytes) :
  4 <= len b -> is_Some (LittleEndian.Uint32 b).
Proof.
  unfold len. destruct b as [|b0 [|b1 [|b2 [|b3 rest]]]]; simpl; try lia.
  intros _. eauto.
Qed.

Lemma Uint16_is_Some (b : bytes) :
  2 <= len b -> is_Some (LittleEndian.Uint16 b).
Proof.
  unfold len. destruct b as [|b0 [|b1 rest]]; simpl; try lia. intros _. eauto.
Qed.

(** ** Checksum failures *)

Lemma open_datagram_mismatch (blk : BlockCrypt) (data : bytes) (g : Glob) :
  cryptHeaderSize <= len data ->
  crc_mismatch blk data ->
  open_datagram (Some blk) data g
  = Ok ((drop (Z.to_nat nonceSize) (fst (copy data (Decrypt blk data))), false),
        count InCsumErrors 1 g).
Proof.
  intros Hlen Hmis. unfold crc_mismatch in Hmis. cbv zeta in Hmis.
  unfold open_datagram.
  set (plain := fst (copy data (Decrypt blk data))) in *.
  assert (Hpl : len plain = len data) by apply len_fst_copy.
  unfold crc_stored, crc_computed in Hmis.
  unfold cryptHeaderSize, nonceSize, crcSize in *. munfold.
  rewrite (slice_from_Some plain 16) by lia. cbv beta iota.
  rewrite (slice_from_Some (drop (Z.to_nat 16) plain) 4)
    by (rewrite len_drop; lia).
  cbv beta iota.
  destruct (Uint32_is_Some (drop (Z.to_nat 16) plain)) as [stored Hst].
  { rewrite len_drop. lia. }
  rewrite Hst in *. cbv beta iota. rewrite drop_drop.
  replace (Z.to_nat 16 + Z.to_nat 4)%nat with (Z.to_nat (16 + 4)) by lia.
  rewrite bool_decide_false by congruence.
  reflexivity.
Qed.

Lemma wrap_int_id (z : Z) : int_min <= z <= int_max -> wrap_int z = z.
Proof.
  unfold int_min, int_max, wrap_int. intros H.
  rewrite Z.mod_small by lia. lia.
Qed.

Lemma header_size_range (block : option BlockCrypt) (fec : bool) :
  (if block is Some _ then cryptHeaderSize else 0) <= header_size block fec
  /\ header_size block fec <= 28.
Proof.
  unfold header_size, cryptHeaderSize, nonceSize, crcSize, fecHeaderSizePlus2.
  destruct block, fec; lia.
Qed.

Lemma header_size_Some (blk : BlockCrypt) (fec : bool) :
  cryptHeaderSize <= header_size (Some blk) fec.
Proof. apply (header_size_range (Some blk) fec). Qed.

(** A datagram the receiver forwards carries the whole additional header and
    a KCP header after it. *)
Lemma receiver_admits_len (block : option BlockCrypt) (fec : bool) (n : Z) :
  receiver_admits (header_size block fec) n = true ->
  header_size block fec + IKCP_OVERHEAD <= n.
Proof.
  unfold receiver_admits, int_add. intros H%bool_decide_eq_true.
  pose proof (header_size_range block fec) as [H1 H2].
  assert (0 <= header_size block fec).
  { etrans; [|exact H1]. destruct block; unfold cryptHeaderSize, nonceSize, crcSize; lia. }
  rewrite wrap_int_id in H; unfold IKCP_OVERHEAD, int_min, int_max in *; lia.
Qed.

Lemma count_trace (f : SnmpField) (d : Z) (g : Glob) :
  trace (count f d g) = trace g.
Proof. reflexivity. Qed.

Lemma count_snmp_same (f : SnmpField) (d : Z) (g : Glob) :
  snmp (count f d g) f = add_uint64 (snmp g f) d.
Proof. unfold count, atomic_AddUint64; simpl. by rewrite decide_True. Qed.

Lemma count_snmp_other (f f' : SnmpField) (d : Z) (g : Glob) :
  f' <> f -> snmp (count f d g) f' = snmp g f'.
Proof. intros. unfold count, atomic_AddUint64; simpl. by rewrite decide_False. Qed.

(** C2. A datagram that arrives with a cipher configured and whose stored
    CRC32 differs from the CRC32 of the bytes after the CRC field is dropped,
    by the read loop of a client session and by the monitor of a listener
    alike: the pass ends normally, no call is made at all (so none to
    [KCP.Input]), the session, the heap of sessions and the listener are as
    before (so no error is queued for any caller), and of the counters only
    [InCsumErrors] changes, by one in [uint64] arithmetic. *)
Theorem crc_mismatch_dropped (blk : BlockCrypt) (data : bytes) :
  crc_mismatch blk data ->
  (forall (s : UDPSession) (g : Glob),
     block s = Some blk -> session_wf s ->
     receiver_admits (headerSize s) (len data) = true ->
     exists g',
       readLoop_packet data (s, g) = Ok (tt, (s, g'))
       /\ trace g' = trace g
       /\ snmp g' InCsumErrors = add_uint64 (snmp g InCsumErrors) 1
       /\ forall f, f <> InCsumErrors -> snmp g' f = snmp g f)
  /\ (forall (w : World) (from : Addr),
        l_block (listener w) = Some blk -> listener_wf (listener w) ->
        receiver_admits (l_headerSize (listener w)) (len data) = true ->
        exists g',
          monitor_packet from data w = Ok (tt, set_glob g' w)
          /\ trace g' = trace (glob w)
          /\ snmp g' InCsumErrors = add_uint64 (snmp (glob w) InCsumErrors) 1
          /\ forall f, f <> InCsumErrors -> snmp g' f = snmp (glob w) f).
Proof.
  intros Hmis. split.
  - intros s g Hblk [[fec Hhs] _] Hadm.
    rewrite Hhs in Hadm. apply receiver_admits_len in Hadm.
    rewrite Hblk in Hadm.
    pose proof (header_size_Some blk fec) as Hlo.
    assert (Hlen : cryptHeaderSize <= len data)
      by (unfold IKCP_OVERHEAD in Hadm; lia).
    exists (count InCsumErrors 1 g).
    split; [|split; [apply count_trace|split;
      [apply count_snmp_same | intros; by apply count_snmp_other]]].
    unfold readLoop_packet. munfold. cbv beta iota. simpl fst. simpl snd.
    rewrite Hblk, (open_datagram_mismatch blk data g Hlen Hmis).
    reflexivity.
  - intros w from Hblk [[fec Hhs] _] Hadm.
    rewrite Hhs in Hadm. apply receiver_admits_len in Hadm.
    rewrite Hblk in Hadm.
    pose proof (header_size_Some blk fec) as Hlo.
    assert (Hlen : cryptHeaderSize <= len data)
      by (unfold IKCP_OVERHEAD in Hadm; lia).
    exists (count InCsumErrors 1 (glob w)).
    split; [|split; [apply count_trace|split;
      [apply count_snmp_same | intros; by apply count_snmp_other]]].
    unfold monitor_packet. munfold. cbv beta iota.
    rewrite Hblk, (open_datagram_mismatch blk data (glob w) Hlen Hmis).
    reflexivity.
Qed.

(** ** Frame rules *)

Section Frames.

Context {S : Type} (R : S -> S -> Prop) `{!PreOrder R}.

Lemma frames_ret {A} (a : A) : frames R (ret a).
Proof. intros st. simpl. reflexivity. Qed.

Lemma frames_bind {A B} (m : M S A) (f : A -> M S B) :
  frames R m -> (forall a, frames R (f a)) -> frames R (bind m f).
Proof.
  intros Hm Hf st. unfold bind. specialize (Hm st).
  destruct (m st) as [[a st']| |]; simpl in *; try done.
  etrans; [exact Hm | apply Hf].
Qed.

Lemma frames_gets {A} (f : S -> A) : frames R (gets f).
Proof. intros st. simpl. reflexivity. Qed.

Lemma frames_get : frames R get.
Proof. intros st. simpl. reflexivity. Qed.

Lemma frames_panic {A} : frames R (@panic S A).
Proof. intros st. simpl. reflexivity. Qed.

Lemma frames_stuck {A} : frames R (@stuck S A).
Proof. intros st. simpl. reflexivity. Qed.

Lemma frames_try {A} (o : option A) : frames R (try o).
Proof. destruct o; [apply frames_ret | apply frames_panic]. Qed.

Lemma frames_modify (f : S -> S) : (forall st, R st (f st)) -> frames R (modify f).
Proof. intros H st. simpl. apply H. Qed.

Lemma frames_when (c : bool) (m : M S unit) : frames R m -> frames R (when c m).
Proof. destruct c; simpl; [done | intros; apply frames_ret]. Qed.

Lemma frames_for_range {A B} (xs : list A) (acc : B) (body : B -> A -> M S B) :
  (forall acc x, frames R (body acc x)) -> frames R (for_range xs acc body).
Proof.
  intros Hb. revert acc. induction xs as [|x xs IH]; intros acc; simpl.
  - apply frames_ret.
  - apply frames_bind; [apply Hb | intros; apply IH].
Qed.

Lemma frames_for_lt {B} (bound : Z) (acc : B) (body : B -> Z -> M S B) :
  (forall acc i, frames R (body acc i)) -> frames R (for_lt bound acc body).
Proof. intros. by apply frames_for_range. Qed.

End Frames.

(** Reducing a goal [frames R m] along the structure of [m]. *)
Ltac frames_rule lem := apply lem; [typeclasses eauto | ..].

Ltac frames_step :=
  lazymatch goal with
  | |- frames _ (bind _ _) => frames_rule @frames_bind; [ | intros ? ]
  | |- frames _ (ret _) => frames_rule @frames_ret
  | |- frames _ (try _) => frames_rule @frames_try
  | |- frames _ (gets _) => frames_rule @frames_gets
  | |- frames _ getS => frames_rule @frames_gets
  | |- frames _ getG => frames_rule @frames_gets
  | |- frames _ get => frames_rule @frames_get
  | |- frames _ panic => frames_rule @frames_panic
  | |- frames _ stuck => frames_rule @frames_stuck
  | |- frames _ (when _ _) => frames_rule @frames_when
  | |- frames _ (for_range _ _ _) => frames_rule @frames_for_range; intros ? ?
  | |- frames _ (for_lt _ _ _) => frames_rule @frames_for_lt; intros ? ?
  | |- frames _ (if ?c then _ else _) => destruct c
  | |- frames _ (match ?x with _ => _ end) => destruct x
  end.

Ltac frames_auto := repeat (cbv beta iota; frames_step).

(** ** The egress pipeline calls nothing of the core *)

#[local] Instance egress_preorder : PreOrder egress.
Proof.
  split.
  - intros [s g]. unfold egress; simpl. split; [by destruct s|].
    repeat split; try done. exists []. by rewrite app_nil_r.
  - intros [s1 g1] [s2 g2] [s3 g3]. unfold egress; simpl.
    intros (H1 & Hl1 & Hn1 & Hc1 & evs1 & Ht1 & Hk1)
           (H2 & Hl2 & Hn2 & Hc2 & evs2 & Ht2 & Hk2).
    split; [|split; [congruence|split; [congruence|split]]].
    + rewrite <- H1, <- H2. by destruct s1, s2, s3.
    + intros f Hp Hb. rewrite Hc2, Hc1 by done. done.
    + exists (evs1 ++ evs2). rewrite Ht2, Ht1, <- app_assoc. split; [done|].
      unfold kcp_calls in *. rewrite filter_app, Hk1, Hk2. done.
Qed.

Lemma frames_modS_egress (f : UDPSession -> UDPSession) :
  (forall s, set_ext (ext s) (set_fecEncoder (fecEncoder s) (set_nonce (nonce s) (f s))) = s
             /\ len (ext (f s)) = len (ext s)) ->
  frames egress (modS f).
Proof.
  intros H [s g]. unfold egress; simpl. destruct (H s) as [H1 H2].
  repeat split; try done. exists []. by rewrite app_nil_r.
Qed.

Lemma frames_emit_egress (e : Event) :
  is_kcp_call e = false -> frames egress (emit e).
Proof.
  intros H [s g]. unfold egress; simpl. split; [by destruct s|].
  repeat split; try done. exists [e]. split; [done|].
  unfold kcp_calls. rewrite filter_cons_False; [done | rewrite H; exact id].
Qed.

Lemma frames_modG_egress (f : Glob -> Glob) :
  (forall g, now (f g) = now g /\ trace (f g) = trace g
             /\ forall c, c <> OutPkts -> c <> OutBytes -> snmp (f g) c = snmp g c) ->
  frames egress (modG f).
Proof.
  intros H [s g]. unfold egress; simpl. destruct (H g) as (H1 & H2 & H3).
  split; [by destruct s|]. repeat split; try done.
  exists []. by rewrite app_nil_r.
Qed.

Lemma frames_atomic_Add_egress (f : SnmpField) (d : Z) :
  f = OutPkts \/ f = OutBytes -> frames egress (atomic_Add f d).
Proof.
  intros Hf. apply frames_modG_egress. intros g. repeat split.
  intros c H1 H2. unfold atomic_AddUint64; simpl.
  rewrite decide_False; [done | destruct Hf; congruence].
Qed.

(** Closing the goals [frames_auto] leaves about the egress pipeline. *)
Ltac egress_leaf :=
  first
    [ apply frames_emit_egress; reflexivity
    | apply frames_atomic_Add_egress; tauto
    | apply frames_modS_egress; intros []; simpl; split;
      [reflexivity | first [reflexivity | apply len_fst_copy]]
    | apply frames_modG_egress; intros []; simpl; repeat split ].

Lemma s_WriteTo_egress (b : bytes) : frames egress (s_WriteTo b).
Proof. unfold s_WriteTo. frames_auto; egress_leaf. Qed.

Lemma write_counted_egress (pkt : bytes) (acc : Z * Z) :
  frames egress (write_counted pkt acc).
Proof.
  unfold write_counted. destruct acc. frames_auto; try apply s_WriteTo_egress.
Qed.

Lemma seal_egress (blk : BlockCrypt) (b : bytes) : frames egress (seal blk b).
Proof. unfold seal. frames_auto; egress_leaf. Qed.

Lemma output_egress (buf : bytes) : frames egress (output buf).
Proof.
  unfold output.
  frames_auto;
    first [ apply seal_egress | apply write_counted_egress | egress_leaf ].
Qed.

Lemma kcp_output_egress (buf : bytes) (size : Z) :
  frames egress (kcp_output buf size).
Proof. unfold kcp_output. frames_auto. apply output_egress. Qed.

Lemma run_output_egress (outs : list (bytes * Z)) :
  frames egress (run_output outs).
Proof. unfold run_output. frames_auto. apply kcp_output_egress. Qed.

(** ** The egress pipeline, step by step *)

Lemma set_nonce_set_nonce (n n' : Entropy) (s : UDPSession) :
  set_nonce n (set_nonce n' s) = set_nonce n s.
Proof. by destruct s. Qed.

Lemma PutUint32_len (b : bytes) (v : Z) :
  4 <= len b ->
  exists b', LittleEndian.PutUint32 b v = Some b' /\ len b' = len b.
Proof.
  unfold len. destruct b as [|b0 [|b1 [|b2 [|b3 rest]]]]; simpl; try lia.
  intros _. eexists. split; [reflexivity|]. simpl. lia.
Qed.

(** Sealing a buffer that has room for the crypto header returns, advances
    the nonce generator and touches nothing else; the buffer keeps its
    length. *)
Lemma seal_Ok (blk : BlockCrypt) (b : bytes) (s : UDPSession) (g : Glob) :
  cryptHeaderSize <= len b ->
  exists b', seal blk b (s, g) = Ok (b', (set_nonce (nonce_Fill (nonce s)).1 s, g))
             /\ len b' = len b.
Proof.
  unfold cryptHeaderSize, nonceSize, crcSize. intros Hlen.
  unfold seal, cryptHeaderSize, nonceSize, crcSize. munfold.
  rewrite (slice_to_Some b 16) by lia. cbn [fst snd].
  destruct (nonce_Fill (nonce s)) as [e' r] eqn:Hfill. cbn [fst snd].
  set (b1 := (copy (take (Z.to_nat 16) b) r).1 ++ drop (length (take (Z.to_nat 16) b)) b).
  assert (Hb1 : len b1 = len b).
  { unfold b1, len. rewrite length_app, length_fst_copy, length_drop.
    rewrite length_take. unfold len in Hlen. lia. }
  rewrite (slice_from_Some b1 (16 + 4)) by lia. cbn [fst snd].
  rewrite (slice_from_Some b1 16) by lia. cbn [fst snd].
  destruct (PutUint32_len (drop (Z.to_nat 16) b1)
              (crc32.ChecksumIEEE (drop (Z.to_nat (16 + 4)) b1)))
    as (field' & Hput & Hfl).
  { rewrite len_drop. lia. }
  rewrite Hput. cbn [fst snd].
  eexists. split; [reflexivity|].
  rewrite len_fst_copy. unfold len in *.
  rewrite length_app, length_take. rewrite length_drop in Hfl. lia.
Qed.

Lemma seal_all_Ok (blk : BlockCrypt) (ecc : list bytes) :
  Forall (fun p => cryptHeaderSize <= len p) ecc ->
  forall (done : list bytes) (s : UDPSession) (g : Glob),
  exists out n',
    for_range ecc done
      (fun done shard => let* sh := seal blk shard in ret (done ++ [sh])) (s, g)
    = Ok (done ++ out, (if ecc is [] then s else set_nonce n' s, g))
    /\ length out = length ecc.
Proof.
  induction 1 as [|p ecc Hp _ IH]; intros done s g.
  - exists [], (nonce s). simpl. unfold ret. by rewrite app_nil_r.
  - simpl. unfold bind at 1 2.
    destruct (seal_Ok blk p s g Hp) as (b' & -> & _). cbv beta iota.
    unfold ret at 1.
    destruct (IH (done ++ [b']) (set_nonce (nonce_Fill (nonce s)).1 s) g)
      as (out & n' & -> & Hlen).
    exists (b' :: out).
    destruct ecc.
    + exists (nonce_Fill (nonce s)).1. rewrite <- app_assoc. simpl in *.
      split; [reflexivity | lia].
    + exists n'. rewrite <- app_assoc, set_nonce_set_nonce. simpl in *.
      split; [reflexivity | lia].
Qed.

(** A write loop of [output] returns; it writes its packets in order, to
    the session's carrier and peer, and changes nothing but the carrier and
    the trace. *)
Lemma write_loop_Ok {A} (f : A -> bytes) (xs : list A) :
  forall (acc : Z * Z) (s : UDPSession) (g : Glob),
  exists acc' g',
    for_range xs acc (fun acc x => write_counted (f x) acc) (s, g)
    = Ok (acc', (s, g'))
    /\ trace g'
       = trace g ++ ((fun x => ConnWriteTo (conn s) (f x) (remote s)) <$> xs)
    /\ snmp g' = snmp g /\ now g' = now g.
Proof.
  induction xs as [|x xs IH]; intros acc s g.
  - exists acc, g. simpl. unfold ret. by rewrite app_nil_r.
  - simpl. unfold bind at 1. unfold write_counted at 1. destruct acc as [nbytes npkts].
    unfold s_WriteTo. munfold. cbn [fst snd].
    destruct (conn_WriteTo (net g) (conn s) (f x) (remote s)) as [[net' n] err].
    cbn [fst snd].
    match goal with
    | |- context [for_range xs ?a _ (s, ?g1)] =>
        destruct (IH a s g1) as (acc' & g' & -> & Ht & Hs & Hn)
    end.
    exists acc', g'. split; [reflexivity|].
    rewrite Ht, Hs, Hn. simpl. rewrite <- app_assoc. done.
Qed.

(** ** Running a computation step by step *)

Lemma is_Ok_inv {A S} (r : Res A S) :
  is_Ok r = true -> exists a st, r = Ok (a, st).
Proof. destruct r as [[a st]| |]; [eauto | done | done]. Qed.

Lemma bind_Ok {S A B} (m : M S A) (f : A -> M S B) (st st' : S) (a : A) :
  m st = Ok (a, st') -> bind m f st = f a st'.
Proof. intros H. unfold bind. by rewrite H. Qed.

Lemma bind_Panic {S A B} (m : M S A) (f : A -> M S B) (st st' : S) :
  m st = Panic st' -> bind m f st = Panic st'.
Proof. intros H. unfold bind. by rewrite H. Qed.

Lemma bind_Stuck {S A B} (m : M S A) (f : A -> M S B) (st st' : S) :
  m st = Stuck st' -> bind m f st = Stuck st'.
Proof. intros H. unfold bind. by rewrite H. Qed.

Lemma bind_assoc {S A B C} (m : M S A) (f : A -> M S B) (h : B -> M S C) (st : S) :
  bind (bind m f) h st = bind m (fun a => bind (f a) h) st.
Proof. unfold bind. by destruct (m st) as [[a st']| |]. Qed.

Lemma bind_Ok_inv {S A B} (m : M S A) (f : A -> M S B) (st : S) (r : B * S) :
  bind m f st = Ok r -> exists a st1, m st = Ok (a, st1) /\ f a st1 = Ok r.
Proof.
  unfold bind. destruct (m st) as [[a st1]| |]; [eauto | done | done].
Qed.

(** The first statement returns as [H] says, resp. as it computes. *)
Ltac step_with H := erewrite bind_Ok by exact H; cbn [fst snd].
Ltac step := erewrite bind_Ok by reflexivity; cbn [fst snd].
Ltac step_in H :=
  rewrite ?bind_assoc in H; erewrite bind_Ok in H by reflexivity;
  cbn [fst snd] in H.

Lemma session_wf_range (s : UDPSession) :
  session_wf s ->
  (if block s is Some _ then cryptHeaderSize else 0) <= headerSize s <= 28.
Proof. intros [[fec ->] _]. apply header_size_range. Qed.

Lemma session_wf_nonneg (s : UDPSession) : session_wf s -> 0 <= headerSize s.
Proof.
  intros H%session_wf_range. destruct (block s);
    unfold cryptHeaderSize, nonceSize, crcSize in H; lia.
Qed.

Lemma copy_same_length {A} (dst src : list A) :
  length dst = length src -> (copy dst src).1 = src.
Proof.
  intros H. unfold copy; simpl. rewrite H, Nat.min_id.
  rewrite take_ge, drop_ge by lia. by rewrite app_nil_r.
Qed.

(** Step 0 of [output]. *)
Lemma output_extend (s : UDPSession) (g : Glob) (buf : bytes) :
  session_wf s ->
  headerSize s + len buf <= mtuLimit ->
  (if bool_decide (headerSize s > 0) then
     let* e := try (slice_to (ext s) (int_add (headerSize s) (len buf))) in
     let* tail := try (slice_from e (headerSize s)) in
     ret (take (Z.to_nat (headerSize s)) e ++ fst (copy tail buf))
   else ret buf) (s, g)
  = Ok (extended s buf, (s, g))
  /\ len (extended s buf) = headerSize s + len buf.
Proof.
  intros Hwf Hfit. pose proof (session_wf_nonneg s Hwf) as H0.
  destruct Hwf as [_ Hext]. unfold extended.
  case_bool_decide as Hpos.
  - specialize (Hext ltac:(lia)). unfold mtuLimit in *.
    assert (Hlb : 0 <= len buf) by (unfold len; lia).
    unfold int_add. rewrite wrap_int_id by (unfold int_min, int_max; lia).
    rewrite slice_to_Some by lia.
    set (e := take (Z.to_nat (headerSize s + len buf)) (ext s)).
    assert (He : len e = headerSize s + len buf).
    { unfold e. rewrite len_take. lia. }
    unfold try at 1. step.
    rewrite slice_from_Some by lia.
    unfold try at 1. step. unfold ret.
    rewrite copy_same_length.
    2:{ rewrite length_drop. unfold len in *. lia. }
    unfold e. rewrite take_take.
    replace (Z.to_nat (headerSize s) `min` Z.to_nat (headerSize s + len buf))%nat
      with (Z.to_nat (headerSize s)) by lia.
    split; [reflexivity|].
    unfold len in *. rewrite length_app, length_take. lia.
  - split; [reflexivity|]. lia.
Qed.

Lemma fmap_const_length {A B} (xs : list A) (y : B) :
  (fun _ => y) <$> xs = replicate (length xs) y.
Proof. induction xs as [|x xs IH]; [done|]. simpl. by rewrite <- IH. Qed.

Lemma datagrams_app (evs1 evs2 : list Event) :
  datagrams (evs1 ++ evs2) = datagrams evs1 ++ datagrams evs2.
Proof. unfold datagrams. apply omap_app. Qed.

Lemma datagrams_writes (c : ConnId) (a : Addr) (pkts : list bytes) :
  datagrams ((fun b => ConnWriteTo c b a) <$> pkts) = pkts.
Proof.
  induction pkts as [|p pkts IH]; [done|].
  rewrite fmap_cons. unfold datagrams in *.
  change (p :: omap (fun e => if e is ConnWriteTo _ b _ then Some b else None)
                    ((fun b => ConnWriteTo c b a) <$> pkts) = p :: pkts).
  by rewrite IH.
Qed.

(** ** The output callback *)

(** C8. The callback the session gives the core runs the egress pipeline,
    on the first [size] bytes of the buffer, only when [size] is at least
    the KCP overhead of 24 bytes; with a smaller [size] it returns at once
    and leaves the session and the process as they were: nothing is encoded,
    encrypted, counted or written to the carrier. *)
Theorem short_output_discarded (buf : bytes) (size : Z) (st : UDPSession * Glob) :
  (size < IKCP_OVERHEAD ->
   kcp_output buf size st = Ok (tt, st)
   /\ datagrams (trace (final (kcp_output buf size st)).2) = datagrams (trace st.2))
  /\ (IKCP_OVERHEAD <= size -> size <= len buf ->
      kcp_output buf size st = output (take (Z.to_nat size) buf) st).
Proof.
  unfold kcp_output, IKCP_OVERHEAD. split.
  - intros Hlt. rewrite bool_decide_false by lia. split; reflexivity.
  - intros Hge Hle. rewrite bool_decide_true by lia.
    rewrite slice_to_Some by lia. unfold try. by erewrite bind_Ok by reflexivity.
Qed.

(** ** Calls into the core *)

Lemma final_bind_ret {S A B} (m : M S A) (b : B) (st : S) :
  final (bind m (fun _ => ret b) st) = final (m st).
Proof. unfold bind. by destruct (m st) as [[a st']| |]. Qed.

#[local] Instance core_frame_preorder : PreOrder core_frame.
Proof.
  split.
  - intros [s g]. unfold core_frame; simpl. split; [by destruct s | done].
  - intros [s1 g1] [s2 g2] [s3 g3]. unfold core_frame; simpl.
    intros (H1 & Hn1 & Hc1) (H2 & Hn2 & Hc2).
    split; [|split; [congruence|]].
    + rewrite <- H1, <- H2. by destruct s1, s2, s3.
    + intros f Hp Hb. rewrite Hc2, Hc1 by done. done.
Qed.

Lemma egress_core_frame (st st' : UDPSession * Glob) :
  egress st st' -> core_frame st st' /\ calls st' = calls st.
Proof.
  destruct st as [s g], st' as [s' g']. unfold egress, core_frame, calls; simpl.
  intros (H1 & _ & Hn & Hc & evs & Ht & Hk). split; [split; [|done]|].
  - rewrite <- H1. by destruct s, s'.
  - rewrite Ht. unfold kcp_calls in *. rewrite filter_app, Hk. apply app_nil_r.
Qed.

Lemma calls_emit (e : Event) (s s' : UDPSession) (g : Glob) :
  calls (s', emitG e g) = calls (s, g) ++ (if is_kcp_call e then [e] else []).
Proof.
  unfold calls, kcp_calls; simpl. rewrite filter_app. f_equal.
  destruct (is_kcp_call e) eqn:He.
  - rewrite filter_cons_True; [done | by rewrite He].
  - rewrite filter_cons_False; [done | rewrite He; exact id].
Qed.

(** [s.kcp.Input]: one call to the core, whatever the callback goes on to
    do. *)
Lemma s_kcp_Input_frame (d : bytes) (r a : bool) (st : UDPSession * Glob) :
  core_frame st (final (s_kcp_Input d r a st))
  /\ calls (final (s_kcp_Input d r a st)) = calls st ++ [KcpInput d r a].
Proof.
  destruct st as [s g]. unfold s_kcp_Input. step.
  destruct (kcp_Input (kcp s) d r a) as [[k' outs] rv]. step. step.
  rewrite final_bind_ret.
  destruct (egress_core_frame _ _
              (run_output_egress outs (set_kcp k' s, emitG (KcpInput d r a) g)))
    as [Hf Hc].
  split.
  - etrans; [|exact Hf]. unfold core_frame; simpl. split; [by destruct s | done].
  - rewrite Hc. apply (calls_emit (KcpInput d r a)).
Qed.

(** [s.kcp.flush]. *)
Lemma s_kcp_flush_frame (ackOnly : bool) (st : UDPSession * Glob) :
  core_frame st (final (s_kcp_flush ackOnly st))
  /\ calls (final (s_kcp_flush ackOnly st)) = calls st ++ [KcpFlush ackOnly].
Proof.
  destruct st as [s g]. unfold s_kcp_flush. step.
  destruct (kcp_flush (kcp s) ackOnly) as [[k' outs] rv]. step. step.
  rewrite final_bind_ret.
  destruct (egress_core_frame _ _
              (run_output_egress outs (set_kcp k' s, emitG (KcpFlush ackOnly) g)))
    as [Hf Hc].
  split.
  - etrans; [|exact Hf]. unfold core_frame; simpl. split; [by destruct s | done].
  - rewrite Hc. apply (calls_emit (KcpFlush ackOnly)).
Qed.

(** [s.kcp.Send] returns, and changes the core only. *)
Lemma s_kcp_Send_Ok (b : bytes) (s : UDPSession) (g : Glob) :
  s_kcp_Send b (s, g)
  = Ok ((kcp_Send (kcp s) b).2,
        (set_kcp (kcp_Send (kcp s) b).1 s, emitG (KcpSend b) g)).
Proof.
  unfold s_kcp_Send. step. destruct (kcp_Send (kcp s) b) as [k' n].
  step. step. reflexivity.
Qed.

Lemma core_frame_fields (st st' : UDPSession * Glob) :
  core_frame st st' ->
  ackNoDelay st'.1 = ackNoDelay st.1 /\ writeDelay st'.1 = writeDelay st.1
  /\ isClosed st'.1 = isClosed st.1 /\ fecDecoder st'.1 = fecDecoder st.1
  /\ chErrorEvent st'.1 = chErrorEvent st.1.
Proof.
  destruct st as [s g], st' as [s' g']. intros [H _]. simpl in *.
  rewrite <- H. by destruct s'.
Qed.

(** ** Recovered shards *)

Lemma shard_consistent_true (r : bytes) :
  shard_consistent r = true ->
  exists sz, LittleEndian.Uint16 r = Some sz /\ 2 <= sz <= len r
             /\ shard_payload r = drop 2 (take (Z.to_nat sz) r).
Proof.
  unfold shard_consistent, shard_payload, shard_size.
  destruct (LittleEndian.Uint16 r) as [sz|]; [|done].
  intros H%bool_decide_eq_true. eauto.
Qed.

Lemma shard_consistent_false (r : bytes) :
  shard_consistent r = false <->
  len r < 2 \/ exists sz, LittleEndian.Uint16 r = Some sz /\ (sz < 2 \/ len r < sz).
Proof.
  unfold shard_consistent, shard_size. split.
  - destruct (LittleEndian.Uint16 r) as [sz|] eqn:Hsz.
    + intros H%bool_decide_eq_false. right. exists sz. split; [done|lia].
    + intros _. left. destruct (decide (len r < 2)) as [|Hge]; [done|].
      destruct (Uint16_is_Some r) as [? ?]; [lia | congruence].
  - intros [Hlt | (sz & -> & Hbad)].
    + destruct r as [|b0 [|b1 rest]]; simpl; try done. unfold len in Hlt.
      simpl in Hlt. lia.
    + apply bool_decide_eq_false. lia.
Qed.

(** A shard that fails the tests is counted and nothing else happens. *)
Lemma kcpInput_recovered_bad (r : bytes) (acc : Z * Z * Z)
    (st : UDPSession * Glob) :
  shard_consistent r = false ->
  kcpInput_recovered acc r st = Ok ((acc.1.1, add_uint64 acc.1.2 1, acc.2), st).
Proof.
  intros Hbad. destruct acc as [[kie fe] fr]. unfold kcpInput_recovered.
  case_bool_decide as Hlen; [|reflexivity].
  destruct (Uint16_is_Some r ltac:(lia)) as [sz Hsz].
  unfold shard_consistent, shard_size in Hbad. rewrite Hsz in *.
  unfold try at 1. step.
  apply bool_decide_eq_false in Hbad.
  destruct (bool_decide (sz <= len r)) eqn:H1;
    destruct (bool_decide (sz >= 2)) eqn:H2; simpl; try reflexivity.
  apply bool_decide_eq_true in H1, H2. lia.
Qed.

(** A shard that passes them is handed to the core, without its prefix and
    up to the length it carries, as a recovered packet. *)
Lemma kcpInput_recovered_good (r : bytes) (acc : Z * Z * Z)
    (st : UDPSession * Glob) :
  shard_consistent r = true ->
  core_frame st (final (kcpInput_recovered acc r st))
  /\ calls (final (kcpInput_recovered acc r st))
     = calls st ++ [KcpInput (shard_payload r) false (ackNoDelay st.1)]
  /\ forall acc' st', kcpInput_recovered acc r st = Ok (acc', st') ->
       acc'.1.2 = acc.1.2.
Proof.
  intros (sz & Hsz & Hrange & Hpay)%shard_consistent_true.
  destruct acc as [[kie fe] fr], st as [s g].
  assert (Heq : kcpInput_recovered (kie, fe, fr) r (s, g)
                = (let* rv := s_kcp_Input (shard_payload r) false (ackNoDelay s) in
                   if bool_decide (rv = 0)
                   then ret (kie, fe, add_uint64 fr 1)
                   else ret (add_uint64 kie 1, fe, fr)) (s, g)).
  { unfold kcpInput_recovered.
    rewrite bool_decide_true by lia. rewrite Hsz. unfold try at 1. step.
    rewrite !bool_decide_true by lia. cbn [andb].
    unfold slice. rewrite bool_decide_true by lia. unfold try at 1. step. step.
    rewrite Hpay. reflexivity. }
  rewrite Heq. clear Heq.
  destruct (s_kcp_Input_frame (shard_payload r) false (ackNoDelay s) (s, g))
    as [Hf Hc].
  unfold bind.
  destruct (s_kcp_Input (shard_payload r) false (ackNoDelay s) (s, g))
    as [[rv st1]| |]; cbn [final snd fst] in *.
  - destruct (bool_decide (rv = 0)); cbn [final snd ret];
      (split; [done | split; [done | intros ? ? [= <- _]; reflexivity]]).
  - split; [done | split; [done | discriminate]].
  - split; [done | split; [done | discriminate]].
Qed.

Lemma core_frame_calls_refl (st : UDPSession * Glob) :
  calls st = calls st ++ [].
Proof. by rewrite app_nil_r. Qed.

(** The loop over the recovered shards, when it runs to its end. *)
Lemma recovered_loop_Ok (recovers : list bytes) :
  forall (acc acc' : Z * Z * Z) (st st' : UDPSession * Glob),
    for_range recovers acc kcpInput_recovered st = Ok (acc', st') ->
    core_frame st st'
    /\ calls st'
       = calls st ++ ((fun r => KcpInput (shard_payload r) false (ackNoDelay st.1))
                        <$> filter shard_consistent recovers)
    /\ acc'.1.2
       = Nat.iter (length (filter (fun r => negb (shard_consistent r)) recovers))
                  (fun x => add_uint64 x 1) acc.1.2.
Proof.
  induction recovers as [|r recovers IH]; intros acc acc' st st' Hrun.
  - simpl in Hrun. injection Hrun as <- <-.
    split; [reflexivity | split; [apply core_frame_calls_refl | reflexivity]].
  - simpl in Hrun. apply bind_Ok_inv in Hrun as (acc1 & st1 & Hbody & Hrest).
    apply IH in Hrest as (Hf2 & Hc2 & Hfe2).
    destruct (shard_consistent r) eqn:Hr.
    + destruct (kcpInput_recovered_good r acc st Hr) as (Hf1 & Hc1 & Hfe1).
      rewrite Hbody in Hf1, Hc1. cbn [final snd] in Hf1, Hc1.
      specialize (Hfe1 _ _ Hbody).
      destruct (core_frame_fields _ _ Hf1) as (Ha & _).
      split; [by etrans|].
      rewrite filter_cons_True by (by rewrite Hr).
      rewrite filter_cons_False by (rewrite Hr; simpl; tauto).
      rewrite fmap_cons, Hc2, Hc1, Ha, <- app_assoc, Hfe2, Hfe1. done.
    + rewrite (kcpInput_recovered_bad r acc st Hr) in Hbody.
      injection Hbody as <- <-.
      split; [done|].
      rewrite filter_cons_False by (rewrite Hr; exact id).
      rewrite filter_cons_True by (by rewrite Hr).
      split; [done|]. rewrite Hfe2. cbn [length fst snd].
      by rewrite Nat.iter_succ_r.
Qed.

Lemma iter_add_uint64 (n : nat) (a : Z) :
  0 <= a < 2 ^ 64 ->
  Nat.iter n (fun x => add_uint64 x 1) a = (a + Z.of_nat n) mod 2 ^ 64.
Proof.
  intros Ha. induction n as [|n IH].
  - simpl. rewrite Z.add_0_r, Z.mod_small; lia.
  - rewrite Nat.iter_succ, IH. unfold add_uint64.
    rewrite Zplus_mod_idemp_l. f_equal. lia.
Qed.

(** [kcpInput] on a datagram with a FEC header, when it returns: the calls
    it made to the core, and the counter of FEC errors. *)
Lemma kcpInput_fec_Ok (s s' : UDPSession) (g g' : Glob) (data : bytes)
    (dec : FecDec) (f : fecPacket) :
  fecDecoder s = Some dec ->
  fecHeaderSize < len data ->
  decodeBytes data = Some f ->
  fec_flag f = typeData \/ fec_flag f = typeFEC ->
  kcpInput data (s, g) = Ok (tt, (s', g')) ->
  calls (s', g')
  = calls (s, g)
    ++ (if bool_decide (fec_flag f = typeData)
        then [KcpInput (drop (Z.to_nat fecHeaderSizePlus2) data) true (ackNoDelay s)]
        else [])
    ++ ((fun r => KcpInput (shard_payload r) false (ackNoDelay s))
          <$> filter shard_consistent (fec_decode dec f).2)
  /\ exists fecErrs,
       fecErrs
       = Nat.iter (length (filter (fun r => negb (shard_consistent r))
                                  (fec_decode dec f).2))
                  (fun x => add_uint64 x 1) 0
       /\ snmp g' FECErrs
          = if bool_decide (fecErrs > 0)
            then add_uint64 (snmp g FECErrs) fecErrs else snmp g FECErrs.
Proof.
  intros Hdec Hlen Hf Hflag Hrun.
  unfold kcpInput in Hrun. step_in Hrun.
  rewrite Hdec in Hrun. rewrite bool_decide_true in Hrun by lia.
  rewrite Hf in Hrun. unfold try at 1 in Hrun. step_in Hrun.
  assert (Hor : bool_decide (fec_flag f = typeData)
                || bool_decide (fec_flag f = typeFEC) = true).
  { destruct Hflag as [-> | ->]; [reflexivity|].
    rewrite (bool_decide_true (typeFEC = typeFEC)) by done. apply orb_true_r. }
  rewrite Hor in Hrun.
  destruct (fec_decode dec f) as [dec' recovers] eqn:Hfd. cbn [snd].
  do 3 step_in Hrun.
  cbn [ackNoDelay set_fecDecoder] in Hrun.
  set (s1 := set_fecDecoder (Some dec') s) in *.
  set (g1 := emitG (FecDecode (fec_seqid f) (fec_flag f) (fec_data f)) g) in *.
  assert (Hc01 : calls (s1, g1) = calls (s, g)).
  { unfold g1. rewrite (calls_emit _ s). apply app_nil_r. }
  (* the datagram itself *)
  rewrite !bind_assoc in Hrun.
  apply bind_Ok_inv in Hrun as (kie0 & st2 & Hdata & Hrun).
  assert (Hst2 : core_frame (s1, g1) st2
                 /\ calls st2
                    = calls (s1, g1)
                      ++ (if bool_decide (fec_flag f = typeData)
                          then [KcpInput (drop (Z.to_nat fecHeaderSizePlus2) data)
                                  true (ackNoDelay s)]
                          else [])).
  { destruct (bool_decide (fec_flag f = typeData)).
    - unfold slice_from in Hdata.
      destruct (bool_decide (0 <= fecHeaderSizePlus2 <= len data));
        [|discriminate Hdata].
      unfold try at 1 in Hdata. step_in Hdata.
      apply bind_Ok_inv in Hdata as (rv & st2' & Hin & Hret).
      injection Hret as _ <-.
      destruct (s_kcp_Input_frame (drop (Z.to_nat fecHeaderSizePlus2) data) true
                  (ackNoDelay s) (s1, g1)) as [Hfr Hcl].
      rewrite Hin in Hfr, Hcl. done.
    - injection Hdata as _ <-. split; [reflexivity | by rewrite app_nil_r]. }
  destruct Hst2 as [Hf12 Hc12].
  (* the recovered shards *)
  rewrite !bind_assoc in Hrun.
  apply bind_Ok_inv in Hrun as ([[kie fe] fr] & st3 & Hloop & Hrun).
  apply recovered_loop_Ok in Hloop as (Hf23 & Hc23 & Hfe).
  cbn [fst snd] in Hfe.
  destruct (core_frame_fields _ _ Hf12) as (Ha12 & _).
  cbn [fst] in Ha12. change (ackNoDelay s1) with (ackNoDelay s) in Ha12.
  rewrite Ha12 in Hc23.
  assert (Hf03 : forall c, c <> OutPkts -> c <> OutBytes -> snmp st3.2 c = snmp g c).
  { intros c H1 H2. destruct Hf23 as (_ & _ & ->); [|done|done].
    destruct Hf12 as (_ & _ & ->); done. }
  (* the notifications and the counters *)
  destruct st3 as [s3 g3]. cbn [fst snd] in *.
  unfold notifyReadEvent, notifyWriteEvent in Hrun. munfold. cbn [fst snd] in Hrun.
  split.
  - transitivity (calls (s3, g3)).
    + destruct (bool_decide (kcp_PeekSize (kcp s3) > 0)),
        (bool_decide (kcp_WaitSnd (kcp s3) < kcp_WaitSnd (kcp s1))),
        (bool_decide ((if bool_decide (fec_flag f = typeFEC) then 1 else 0) > 0)),
        (bool_decide (kie > 0)), (bool_decide (fe > 0)), (bool_decide (fr > 0));
        cbn [fst snd] in Hrun; injection Hrun as _ <-; reflexivity.
    + rewrite Hc23, Hc12, Hc01, <- app_assoc. done.
  - exists fe. split; [exact Hfe|].
    rewrite <- (Hf03 FECErrs) by done.
    destruct (bool_decide (kcp_PeekSize (kcp s3) > 0)),
      (bool_decide (kcp_WaitSnd (kcp s3) < kcp_WaitSnd (kcp s1))),
      (bool_decide ((if bool_decide (fec_flag f = typeFEC) then 1 else 0) > 0)),
      (bool_decide (kie > 0)), (bool_decide (fe > 0)), (bool_decide (fr > 0));
      cbn [fst snd] in Hrun; injection Hrun as _ <-; reflexivity.
Qed.

(** C4, as amended. The first two bytes of a recovered shard are read as a
    little-endian length [sz]; when [2 <= sz <= len(r)] the session calls
    [KCP.Input] on the bytes [r[2:sz]] with [regular=false]. Over a whole
    datagram, when [kcpInput] returns, the calls it made to the core are the
    one for the datagram itself, if it is a data shard, followed by one such
    call for each recovered shard that passes the test, in order. *)
Theorem recovered_shard_input (s s' : UDPSession) (g g' : Glob) (data : bytes)
    (dec : FecDec) (f : fecPacket) :
  fecDecoder s = Some dec ->
  fecHeaderSize < len data ->
  decodeBytes data = Some f ->
  fec_flag f = typeData \/ fec_flag f = typeFEC ->
  kcpInput data (s, g) = Ok (tt, (s', g')) ->
  (forall (r : bytes) (sz : Z) (acc : Z * Z * Z) (st : UDPSession * Glob),
     LittleEndian.Uint16 r = Some sz -> 2 <= sz <= len r ->
     calls (final (kcpInput_recovered acc r st))
     = calls st ++ [KcpInput (drop 2 (take (Z.to_nat sz) r)) false
                             (ackNoDelay st.1)])
  /\ calls (s', g')
     = calls (s, g)
       ++ (if bool_decide (fec_flag f = typeData)
           then [KcpInput (drop (Z.to_nat fecHeaderSizePlus2) data) true
                          (ackNoDelay s)]
           else [])
       ++ ((fun r => KcpInput (shard_payload r) false (ackNoDelay s))
             <$> filter shard_consistent (fec_decode dec f).2).
Proof.
  intros Hdec Hlen Hf Hflag Hrun. split.
  - intros r sz acc st Hsz Hrange.
    assert (Hr : shard_consistent r = true).
    { unfold shard_consistent, shard_size. rewrite Hsz.
      by apply bool_decide_eq_true. }
    destruct (kcpInput_recovered_good r acc st Hr) as (_ & -> & _).
    unfold shard_payload, shard_size. by rewrite Hsz.
  - by destruct (kcpInput_fec_Ok s s' g g' data dec f) as [-> _].
Qed.

(** C5. A recovered shard shorter than two bytes, or whose embedded length
    is below 2 or above the length of the shard, is counted and not handed
    to the core: the pass of the loop over it returns with its local
    [fecErrs] advanced by one and nothing else changed. When [kcpInput]
    returns, [FECErrs] has advanced by the number of such shards (in
    [uint64] arithmetic) and the calls to [KCP.Input] with [regular=false]
    are those for the other shards. *)
Theorem inconsistent_shards_counted (s s' : UDPSession) (g g' : Glob)
    (data : bytes) (dec : FecDec) (f : fecPacket) :
  fecDecoder s = Some dec ->
  fecHeaderSize < len data ->
  decodeBytes data = Some f ->
  fec_flag f = typeData \/ fec_flag f = typeFEC ->
  0 <= snmp g FECErrs < 2 ^ 64 ->
  kcpInput data (s, g) = Ok (tt, (s', g')) ->
  (forall (r : bytes) (acc : Z * Z * Z) (st : UDPSession * Glob),
     len r < 2
     \/ (exists sz, LittleEndian.Uint16 r = Some sz /\ (sz < 2 \/ len r < sz)) ->
     shard_consistent r = false
     /\ kcpInput_recovered acc r st
        = Ok ((acc.1.1, add_uint64 acc.1.2 1, acc.2), st))
  /\ snmp g' FECErrs
     = (snmp g FECErrs
        + Z.of_nat (length (filter (fun r => negb (shard_consistent r))
                                   (fec_decode dec f).2))) mod 2 ^ 64
  /\ calls (s', g')
     = calls (s, g)
       ++ (if bool_decide (fec_flag f = typeData)
           then [KcpInput (drop (Z.to_nat fecHeaderSizePlus2) data) true
                          (ackNoDelay s)]
           else [])
       ++ ((fun r => KcpInput (shard_payload r) false (ackNoDelay s))
             <$> filter shard_consistent (fec_decode dec f).2).
Proof.
  intros Hdec Hlen Hf Hflag Hcnt Hrun. split; [|].
  - intros r acc st Hbad%shard_consistent_false.
    split; [done | by apply kcpInput_recovered_bad].
  - destruct (kcpInput_fec_Ok s s' g g' data dec f)
      as (Hcalls & fe & Hfe & Hsnmp); try done.
    split; [|done].
    set (n := length _) in *.
    rewrite iter_add_uint64 in Hfe by lia. rewrite Z.add_0_l in Hfe.
    rewrite Hsnmp. case_bool_decide as Hpos.
    + subst fe. unfold add_uint64. by rewrite Zplus_mod_idemp_r.
    + assert (Hz : fe = 0).
      { pose proof (Z.mod_pos_bound (Z.of_nat n) (2 ^ 64) ltac:(lia)). lia. }
      rewrite <- (Zplus_mod_idemp_r (Z.of_nat n)), <- Hfe, Hz, Z.add_0_r.
      rewrite Z.mod_small; lia.
Qed.

(** ** Write *)

Lemma kcp_Send_fields {Rest} (k : KCP Rest) (b : bytes) :
  mss (kcp_Send k b).1 = mss k /\ snd_wnd (kcp_Send k b).1 = snd_wnd k
  /\ stream (kcp_Send k b).1 = stream k /\ conv (kcp_Send k b).1 = conv k
  /\ kcp_rest (kcp_Send k b).1 = kcp_rest k.
Proof.
  unfold kcp_Send.
  destruct (if bool_decide (stream k = 0) then (snd_queue k, b)
            else pack_tail (mss k) (snd_queue k) b) as [q rest].
  by repeat split.
Qed.

Lemma set_kcp_set_kcp (k k' : KCP KcpRest) (s : UDPSession) :
  set_kcp k (set_kcp k' s) = set_kcp k s.
Proof. by destruct s. Qed.

(** The inner loop, when it runs to its end: it called [Send] with the
    pieces of [b], which make up [b], and did nothing else. *)
Lemma Write_fragment_Ok (fuel : nat) :
  forall (b : bytes) (s : UDPSession) (g : Glob) (st' : UDPSession * Glob),
    Write_fragment fuel b (s, g) = Ok (tt, st') ->
    st' = (set_kcp (send_all (kcp s) (pieces fuel (mss (kcp s)) b)) s,
           set_trace (trace g ++ (KcpSend <$> pieces fuel (mss (kcp s)) b)) g)
    /\ concat (pieces fuel (mss (kcp s)) b) = b.
Proof.
  induction fuel as [|fuel IH]; intros b s g st' Hrun; [discriminate Hrun|].
  cbn [Write_fragment pieces] in *. step_in Hrun.
  case_bool_decide as Hle.
  - erewrite bind_Ok in Hrun by apply s_kcp_Send_Ok.
    injection Hrun as <-. split; [reflexivity | apply app_nil_r].
  - unfold slice_to in Hrun.
    destruct (bool_decide (0 <= mss (kcp s) <= len b)) eqn:Hr;
      [|discriminate Hrun].
    unfold try at 1 in Hrun. step_in Hrun.
    erewrite bind_Ok in Hrun by apply s_kcp_Send_Ok.
    step_in Hrun. cbn [kcp set_kcp] in Hrun.
    destruct (kcp_Send_fields (kcp s) (take (Z.to_nat (mss (kcp s))) b))
      as (Hm & _).
    rewrite Hm in Hrun. unfold slice_from in Hrun. rewrite Hr in Hrun.
    unfold try at 1 in Hrun. step_in Hrun.
    apply IH in Hrun as [-> Hcat]. cbn [kcp set_kcp] in *.
    rewrite Hm in *. rewrite set_kcp_set_kcp.
    split.
    + unfold emitG. cbn [trace set_trace fmap list_fmap send_all foldl].
      rewrite <- app_assoc. reflexivity.
    + cbn [concat]. rewrite Hcat. apply take_drop.
Qed.

(** With a positive MSS the loop runs to its end, in pieces of MSS size. *)
Lemma Write_fragment_total (fuel : nat) :
  forall (b : bytes) (s : UDPSession) (g : Glob),
    0 < mss (kcp s) -> (length b < fuel)%nat ->
    is_Ok (Write_fragment fuel b (s, g)) = true
    /\ mss_sized (mss (kcp s)) (pieces fuel (mss (kcp s)) b)
    /\ pieces fuel (mss (kcp s)) b <> [].
Proof.
  induction fuel as [|fuel IH]; intros b s g Hmss Hfuel; [lia|].
  cbn [Write_fragment pieces]. step.
  case_bool_decide as Hle.
  - erewrite bind_Ok by apply s_kcp_Send_Ok. split; [reflexivity|].
    split; [|done]. split.
    + by apply Forall_singleton.
    + intros i p _ Hi. simpl in Hi. lia.
  - assert (Hlb : 0 <= len b) by (unfold len; lia).
    rewrite slice_to_Some by lia. unfold try at 1. step.
    erewrite bind_Ok by apply s_kcp_Send_Ok. step.
    cbn [kcp set_kcp].
    destruct (kcp_Send_fields (kcp s) (take (Z.to_nat (mss (kcp s))) b))
      as (Hm & _).
    rewrite Hm. rewrite slice_from_Some by lia. unfold try at 1. step.
    set (s1 := set_kcp _ s). set (g1 := emitG _ g).
    destruct (IH (drop (Z.to_nat (mss (kcp s))) b) s1 g1) as (Hok & Hsz & Hne).
    { unfold s1. cbn [kcp set_kcp]. by rewrite Hm. }
    { rewrite length_drop. unfold len in *. lia. }
    unfold s1 in Hsz, Hne. cbn [kcp set_kcp] in Hsz, Hne. rewrite Hm in Hsz, Hne.
    split; [exact Hok|]. split; [|done].
    destruct Hsz as [Hall Hbut]. split.
    + apply Forall_cons. split; [|done]. rewrite len_take. lia.
    + intros [|i] p Hp Hi; cbn in Hp.
      * injection Hp as <-. rewrite len_take. lia.
      * apply (Hbut i p Hp). simpl in Hi. lia.
Qed.



Lemma Write_unblocked (sched : list Tick) (b : bytes) (st : UDPSession * Glob) :
  (forall t st', Write_iter b st <> Ok (Blocked t, st')) ->
  Write sched b st = Write_iter b st.
Proof.
  intros Hnb.
  assert (bind (Write_iter b) (fun o => match o with
                                        | Return r => ret (Return r)
                                        | Blocked t => ret (Blocked t)
                                        end) st = Write_iter b st) as Hsame.
  { unfold bind. destruct (Write_iter b st) as [[[r|t] st']| |]; done. }
  destruct sched as [|tk sched]; cbn [Write]; [exact Hsame|].
  unfold bind at 1. destruct (Write_iter b st) as [[[r|t] st']| |] eqn:Hit;
    try done. by destruct (Hnb t st').
Qed.

(** A pass of [Write] on an open session whose window has room. *)
Lemma Write_iter_admitted (b : bytes) (s : UDPSession) (g : Glob) :
  isClosed s = false ->
  kcp_WaitSnd (kcp s) < snd_wnd (kcp s) ->
  Write_iter b (s, g)
  = (Write_fragment (S (length b)) b ;;;
     let* s := getS in
     when (flushes_now s) (s_kcp_flush false ;;; ret tt) ;;;
     atomic_Add BytesSent (to_uint64 (len b)) ;;;
     ret (Return (len b, None))) (s, g).
Proof.
  intros Hopen Hroom. unfold Write_iter. step.
  rewrite Hopen. by rewrite bool_decide_true.
Qed.

(** A pass of [Write] on an open session whose window is saturated. *)
Lemma Write_iter_saturated (b : bytes) (s : UDPSession) (g : Glob) :
  isClosed s = false ->
  kcp_WaitSnd (kcp s) >= snd_wnd (kcp s) ->
  Write_iter b (s, g)
  = Ok (if negb (Time_IsZero (wd s)) then
          if Time_After (now g) (wd s) then Return (0, Some errTimeout)
          else Blocked (Some (Time_Sub (wd s) (now g)))
        else Blocked None, (s, g)).
Proof.
  intros Hopen Hsat. unfold Write_iter. step.
  rewrite Hopen. rewrite bool_decide_false by lia. step.
  destruct (negb (Time_IsZero (wd s))); [|reflexivity].
  by destruct (Time_After (now g) (wd s)).
Qed.

(** The calls a pass on an open session with room makes, however it
    ends. *)
Lemma Write_iter_calls (b : bytes) (s : UDPSession) (g : Glob) :
  isClosed s = false ->
  kcp_WaitSnd (kcp s) < snd_wnd (kcp s) ->
  forall st1, Write_fragment (S (length b)) b (s, g) = Ok (tt, st1) ->
    calls (final (Write_iter b (s, g)))
    = calls st1 ++ (if flushes_now st1.1 then [KcpFlush false] else [])
    /\ forall r st', Write_iter b (s, g) = Ok (r, st') ->
         r = Return (len b, None).
Proof.
  intros Hopen Hroom st1 Hfrag.
  rewrite (Write_iter_admitted b s g Hopen Hroom).
  step_with Hfrag. destruct st1 as [s1 g1]. step.
  destruct (flushes_now s1).
  - cbn [when]. rewrite bind_assoc.
    destruct (s_kcp_flush_frame false (s1, g1)) as [_ Hc].
    destruct (s_kcp_flush false (s1, g1)) as [[i [s2 g2]]| |] eqn:Hfl;
      cbn [final snd] in Hc.
    + step_with Hfl. step. step. split; [exact Hc|]. by intros r st' [= <- _].
    + erewrite bind_Panic by exact Hfl. split; [exact Hc | discriminate].
    + erewrite bind_Stuck by exact Hfl. split; [exact Hc | discriminate].
  - cbn [when]. step. step. split.
    + cbn [final snd]. by rewrite app_nil_r.
    + by intros r st' [= <- _].
Qed.

Lemma kcp_calls_sends (ps : list bytes) : kcp_calls (KcpSend <$> ps) = KcpSend <$> ps.
Proof.
  induction ps as [|p ps IH]; [done|]. unfold kcp_calls in *.
  rewrite fmap_cons, filter_cons_True by done. by rewrite IH.
Qed.

(** With an MSS of 0 the inner loop of [Write] does not finish a buffer that
    is not empty: however many passes it is given, it is still calling
    [Send] on an empty piece. *)
Lemma Write_fragment_zero_mss (fuel : nat) :
  forall (b : bytes) (s : UDPSession) (g : Glob),
    mss (kcp s) = 0 -> 0 < len b ->
    exists st',
      Write_fragment fuel b (s, g) = Stuck st'
      /\ exists n, calls st' = calls (s, g) ++ replicate n (KcpSend []).
Proof.
  induction fuel as [|fuel IH]; intros b s g Hmss Hb.
  - exists (s, g). split; [reflexivity|]. exists 0%nat. by rewrite app_nil_r.
  - cbn [Write_fragment]. step. rewrite Hmss.
    rewrite bool_decide_false by lia.
    rewrite slice_to_Some by lia. unfold try at 1. step.
    erewrite bind_Ok by apply s_kcp_Send_Ok. step. cbn [kcp set_kcp].
    destruct (kcp_Send_fields (kcp s) (take (Z.to_nat 0) b)) as (Hm & _).
    rewrite Hm, Hmss. rewrite slice_from_Some by lia. unfold try at 1. step.
    change (drop (Z.to_nat 0) b) with b.
    change (take (Z.to_nat 0) b) with (@nil Byte.byte) in *.
    destruct (IH b (set_kcp (kcp_Send (kcp s) []).1 s) (emitG (KcpSend []) g))
      as (st' & Hrun & n & Hcalls).
    { cbn [kcp set_kcp]. by rewrite Hm. }
    { exact Hb. }
    exists st'. split; [exact Hrun|]. exists (S n). rewrite Hcalls.
    unfold calls, emitG, kcp_calls. cbn [fst snd trace set_trace].
    rewrite filter_app, <- app_assoc. reflexivity.
Qed.

(** C6, as amended. On an open session, a pass of [Write] made while the
    send window is saturated calls nothing and changes nothing: without a
    write deadline it waits in the [select]; with a write deadline that has
    passed it returns [(0, timeout)]; with one that has not, it waits in the
    [select] with a timer for what is left of it; and a call that waits goes
    on from whatever state it is woken in. A pass made while the window has
    room, on a core with a positive MSS, calls [Send] on the pieces of [b],
    each of at most MSS bytes and all but the last of exactly MSS bytes, and
    then calls [flush(false)] if and only if the window is saturated after
    the calls to [Send] or [writeDelay] is false. *)
Theorem Write_admission (s : UDPSession) (g : Glob) (b : bytes) :
  isClosed s = false ->
  (kcp_WaitSnd (kcp s) >= snd_wnd (kcp s) ->
   exists o,
     Write_iter b (s, g) = Ok (o, (s, g))
     /\ o = (if Time_IsZero (wd s) then Blocked None
             else if Time_After (now g) (wd s)
                  then Return (0, Some errTimeout)
                  else Blocked (Some (Time_Sub (wd s) (now g))))
     /\ Write [] b (s, g) = Ok (o, (s, g))
     /\ forall timer tk sched, o = Blocked timer ->
          Write (tk :: sched) b (s, g)
          = (modify (tick_env tk) ;;;
             Write_select timer (tick_wake tk) ;;;
             Write sched b) (s, g))
  /\ (kcp_WaitSnd (kcp s) < snd_wnd (kcp s) -> 0 < mss (kcp s) ->
      exists ps,
        Write_fragment (S (length b)) b (s, g)
        = Ok (tt, (set_kcp (send_all (kcp s) ps) s,
                   set_trace (trace g ++ (KcpSend <$> ps)) g))
        /\ concat ps = b /\ mss_sized (mss (kcp s)) ps /\ ps <> []
        /\ forall sched,
             calls (final (Write sched b (s, g)))
             = calls (s, g) ++ (KcpSend <$> ps)
               ++ (if bool_decide (kcp_WaitSnd (send_all (kcp s) ps)
                                   >= snd_wnd (send_all (kcp s) ps))
                      || negb (writeDelay s)
                   then [KcpFlush false] else [])).
Proof.
  intros Hopen. split.
  - intros Hsat. eexists. split; [by apply Write_iter_saturated|].
    split; [|split].
    + by destruct (Time_IsZero (wd s)).
    + cbn [Write]. erewrite bind_Ok by (by apply Write_iter_saturated).
      destruct (negb (Time_IsZero (wd s))); [|done].
      by destruct (Time_After (now g) (wd s)).
    + intros timer tk sched Ho. cbn [Write].
      erewrite bind_Ok by (by apply Write_iter_saturated). by rewrite Ho.
  - intros Hroom Hmss.
    destruct (Write_fragment_total (S (length b)) b s g Hmss ltac:(lia))
      as (Hok & Hsz & Hne).
    apply is_Ok_inv in Hok as ([] & st1 & Hfrag).
    destruct (Write_fragment_Ok _ _ _ _ _ Hfrag) as [Hst1 Hcat].
    exists (pieces (S (length b)) (mss (kcp s)) b).
    rewrite <- Hst1. split; [exact Hfrag|]. do 3 (split; [done|]).
    intros sched.
    destruct (Write_iter_calls b s g Hopen Hroom st1 Hfrag) as [Hcalls Hret].
    rewrite Write_unblocked.
    2:{ intros t st' Hb. by specialize (Hret _ _ Hb). }
    rewrite Hcalls, Hst1. unfold flushes_now, calls. cbn [fst snd trace set_trace
      kcp set_kcp writeDelay].
    unfold kcp_calls at 1. rewrite filter_app. fold (kcp_calls (trace g)).
    fold (kcp_calls (KcpSend <$> pieces (S (length b)) (mss (kcp s)) b)).
    rewrite kcp_calls_sends, <- app_assoc. done.
Qed.

(** A pass of [Write] that returns a nil error was made on an open session
    with room in the window, and sent all of [b]. *)
Lemma Write_iter_nil_error (b : bytes) (s : UDPSession) (g : Glob) (n : Z)
    (st' : UDPSession * Glob) :
  Write_iter b (s, g) = Ok (Return (n, None), st') ->
  isClosed s = false
  /\ kcp_WaitSnd (kcp s) < snd_wnd (kcp s)
  /\ n = len b
  /\ exists ps,
       concat ps = b
       /\ Write_fragment (S (length b)) b (s, g)
          = Ok (tt, (set_kcp (send_all (kcp s) ps) s,
                     set_trace (trace g ++ (KcpSend <$> ps)) g))
       /\ calls st'
          = calls (s, g) ++ (KcpSend <$> ps)
            ++ (if bool_decide (kcp_WaitSnd (send_all (kcp s) ps)
                                >= snd_wnd (send_all (kcp s) ps))
                   || negb (writeDelay s)
                then [KcpFlush false] else []).
Proof.
  intros Hrun.
  destruct (isClosed s) eqn:Hopen.
  { unfold Write_iter in Hrun. step_in Hrun. rewrite Hopen in Hrun.
    discriminate Hrun. }
  destruct (decide (kcp_WaitSnd (kcp s) < snd_wnd (kcp s))) as [Hroom|Hsat].
  2:{ rewrite Write_iter_saturated in Hrun by (done || lia).
      destruct (negb (Time_IsZero (wd s))); [|discriminate Hrun].
      destruct (Time_After (now g) (wd s)); discriminate Hrun. }
  split; [done|]. split; [done|].
  pose proof Hrun as Hrun'.
  rewrite (Write_iter_admitted b s g Hopen Hroom) in Hrun'.
  apply bind_Ok_inv in Hrun' as ([] & st1 & Hfrag & _).
  destruct (Write_iter_calls b s g Hopen Hroom st1 Hfrag) as [Hcalls Hret].
  specialize (Hret _ _ Hrun). injection Hret as ->.
  split; [done|].
  destruct (Write_fragment_Ok _ _ _ _ _ Hfrag) as [Hst1 Hcat].
  exists (pieces (S (length b)) (mss (kcp s)) b).
  rewrite <- Hst1. split; [done|]. split; [done|].
  rewrite Hrun in Hcalls. cbn [final snd] in Hcalls.
  rewrite Hcalls, Hst1. unfold flushes_now, calls. cbn [fst snd trace set_trace
    kcp set_kcp writeDelay].
  unfold kcp_calls at 1. rewrite filter_app. fold (kcp_calls (trace g)).
  fold (kcp_calls (KcpSend <$> pieces (S (length b)) (mss (kcp s)) b)).
  rewrite kcp_calls_sends, <- app_assoc. done.
Qed.

(** C10. Whenever [Write(b)] returns a nil error it returns [len(b)], and
    the pass that returned began on an open session with room in the send
    window and called [Send] on pieces that make up all of [b]; when the
    window has room as [Write] is entered, that pass is the first. The
    window is tested before the first [Send] only: the calls are the same
    however little room there was. *)
Theorem Write_never_partial (sched : list Tick) (b : bytes) :
  forall (s : UDPSession) (g : Glob) (n : Z) (st' : UDPSession * Glob),
    Write sched b (s, g) = Ok (Return (n, None), st') ->
    n = len b
    /\ exists (st0 : UDPSession * Glob) (ps : list bytes),
         isClosed st0.1 = false
         /\ kcp_WaitSnd (kcp st0.1) < snd_wnd (kcp st0.1)
         /\ (kcp_WaitSnd (kcp s) < snd_wnd (kcp s) -> st0 = (s, g))
         /\ concat ps = b
         /\ Write_fragment (S (length b)) b st0
            = Ok (tt, (set_kcp (send_all (kcp st0.1) ps) st0.1,
                       set_trace (trace st0.2 ++ (KcpSend <$> ps)) st0.2))
         /\ calls st'
            = calls st0 ++ (KcpSend <$> ps)
              ++ (if bool_decide (kcp_WaitSnd (send_all (kcp st0.1) ps)
                                  >= snd_wnd (send_all (kcp st0.1) ps))
                     || negb (writeDelay st0.1)
                  then [KcpFlush false] else []).
Proof.
  induction sched as [|tk sched IH]; intros s g n st' Hrun.
  - cbn [Write] in Hrun.
    apply bind_Ok_inv in Hrun as ([r|t] & st1 & Hit & Hret);
      [|discriminate Hret].
    injection Hret as -> ->.
    destruct (Write_iter_nil_error _ _ _ _ _ Hit)
      as (Hopen & Hroom & -> & ps & Hcat & Hfrag & Hcalls).
    split; [done|]. exists (s, g), ps. by repeat split.
  - cbn [Write] in Hrun.
    apply bind_Ok_inv in Hrun as ([r|t] & st1 & Hit & Hret).
    + injection Hret as -> ->.
      destruct (Write_iter_nil_error _ _ _ _ _ Hit)
        as (Hopen & Hroom & -> & ps & Hcat & Hfrag & Hcalls).
      split; [done|]. exists (s, g), ps. by repeat split.
    + apply bind_Ok_inv in Hret as ([] & st2 & _ & Hret).
      apply bind_Ok_inv in Hret as ([] & [s3 g3] & _ & Hret).
      apply IH in Hret as (-> & st0 & ps & Hopen & Hroom & _ & Hrest).
      split; [done|]. exists st0, ps. split; [done|]. split; [done|].
      split; [|exact Hrest].
      intros Hroom0. exfalso.
      destruct (isClosed s) eqn:Hc.
      * unfold Write_iter in Hit. step_in Hit. rewrite Hc in Hit.
        discriminate Hit.
      * rewrite (Write_iter_admitted b s g Hc Hroom0) in Hit.
        apply bind_Ok_inv in Hit as ([] & st1' & Hfrag & Hit').
        destruct (Write_iter_calls b s g Hc Hroom0 st1' Hfrag) as [_ Hr].
        rewrite (Write_iter_admitted b s g Hc Hroom0) in Hr.
        erewrite bind_Ok in Hr by exact Hfrag.
        specialize (Hr _ _ Hit'). discriminate Hr.
Qed.



(** ** The trace only grows *)

Lemma frames_weaken {S A} (R R' : S -> S -> Prop) (m : M S A) :
  (forall a b, R a b -> R' a b) -> frames R m -> frames R' m.
Proof. intros HR Hm st. apply HR, Hm. Qed.

#[local] Instance trace_grows_preorder : PreOrder trace_grows.
Proof.
  split.
  - intros st. exists []. by rewrite app_nil_r.
  - intros st1 st2 st3 [e1 H1] [e2 H2]. exists (e1 ++ e2).
    by rewrite H2, H1, app_assoc.
Qed.

Lemma frames_modS_grows (f : UDPSession -> UDPSession) :
  frames trace_grows (modS f).
Proof. intros [s g]. exists []. simpl. by rewrite app_nil_r. Qed.

Lemma frames_emit_grows (e : Event) : frames trace_grows (emit e).
Proof. intros [s g]. by exists [e]. Qed.

Lemma frames_atomic_Add_grows (f : SnmpField) (d : Z) :
  frames trace_grows (atomic_Add f d).
Proof. intros [s g]. exists []. simpl. by rewrite app_nil_r. Qed.

Lemma run_output_grows (outs : list (bytes * Z)) :
  frames trace_grows (run_output outs).
Proof.
  apply (frames_weaken egress); [|apply run_output_egress].
  intros st st' (_ & _ & _ & _ & evs & Ht & _). by exists evs.
Qed.

Ltac grows_leaf :=
  first [ apply frames_modS_grows | apply frames_emit_grows
        | apply frames_atomic_Add_grows | apply run_output_grows ].

Lemma s_kcp_Input_grows (d : bytes) (r a : bool) :
  frames trace_grows (s_kcp_Input d r a).
Proof. unfold s_kcp_Input. frames_auto; grows_leaf. Qed.

Lemma kcpInput_recovered_grows (acc : Z * Z * Z) (r : bytes) :
  frames trace_grows (kcpInput_recovered acc r).
Proof.
  unfold kcpInput_recovered. destruct acc as [[kie fe] fr].
  frames_auto; apply s_kcp_Input_grows.
Qed.

Lemma kcpInput_grows (data : bytes) : frames trace_grows (kcpInput data).
Proof.
  unfold kcpInput, notifyReadEvent, notifyWriteEvent.
  frames_auto;
    first [ apply s_kcp_Input_grows | apply kcpInput_recovered_grows
          | grows_leaf ].
Qed.

(** ** Sessions and listeners as they are made *)

Lemma newUDPSession_Ok (conv dataShards parityShards : Z) (l : option positive)
    (conn : ConnId) (remote : Addr) (blk : option BlockCrypt) (g : Glob) :
  exists (s : UDPSession) (g' : Glob),
    newUDPSession conv dataShards parityShards l conn remote blk g = Ok (s, g')
    /\ (exists mtu,
          trace g' = trace g ++ KcpNew conv :: KcpSetMtu mtu :: UpdaterAdd
                              :: (if l is None then [GoReadLoop] else []))
    /\ session_wf s /\ isClosed s = false /\ die s = false.
Proof.
  unfold newUDPSession.
  set (enc := if blk is Some _
              then newFECEncoder dataShards parityShards cryptHeaderSize
              else newFECEncoder dataShards parityShards 0).
  set (hs := (if blk is Some _ then cryptHeaderSize else 0)
             + (if enc is Some _ then fecHeaderSizePlus2 else 0)).
  assert (Hrange : exists fec, hs = header_size blk fec).
  { exists (bool_decide (is_Some enc)). unfold hs, header_size.
    destruct enc; [by rewrite bool_decide_true by eauto|].
    rewrite bool_decide_false; [done | by intros [? ?]]. }
  assert (Hext : 0 < hs ->
                 len (if bool_decide (hs > 0)
                      then replicate (Z.to_nat mtuLimit) x00 else []) = mtuLimit).
  { intros Hpos. rewrite bool_decide_true by lia.
    unfold len. rewrite length_replicate. unfold mtuLimit. lia. }
  clearbody hs enc.
  munfold. destruct l as [lid|]; cbn [fst snd];
    match goal with
    | |- context [bool_decide (?a > ?b)] => destruct (bool_decide (a > b))
    end;
    (eexists _, _; split; [reflexivity|]; cbn [trace set_snmp set_trace emitG];
     split; [eexists; by rewrite <- !app_assoc|]; split; [|done];
     split; cbn [headerSize block ext]; done).
Qed.

(** ** The monitor, pass by pass *)

Lemma zoom_Ok_inv {S T A} (proj : S -> T) (inj : T -> S -> S) (m : M T A)
    (s : S) (r : A * S) :
  zoom proj inj m s = Ok r ->
  exists a t', m (proj s) = Ok (a, t') /\ r = (a, inj t' s).
Proof.
  unfold zoom. destruct (m (proj s)) as [[a t']| |]; [|done|done].
  intros [= <-]. eauto.
Qed.

Lemma on_session_Ok_inv {A} (p : option positive) (m : SM A) (w w' : World)
    (a : A) :
  on_session p m w = Ok (a, w') ->
  exists sid s s' g',
    p = Some sid /\ heap w !! sid = Some s
    /\ m (s, glob w) = Ok (a, (s', g'))
    /\ w' = set_heap (<[sid := s']> (heap w)) (set_glob g' w).
Proof.
  unfold on_session. destruct p as [sid|]; cbn [mbind option_bind]; [|done].
  destruct (heap w !! sid) as [s|] eqn:Hs; [|done].
  destruct (m (s, glob w)) as [[a' [s' g']]| |] eqn:Hm; [|done|done].
  intros [= <- <-]. by exists sid, s, s', g'.
Qed.

Lemma open_datagram_trace (blk : option BlockCrypt) (data : bytes) (g g1 : Glob)
    (r : bytes * bool) :
  open_datagram blk data g = Ok (r, g1) -> trace g1 = trace g.
Proof.
  unfold open_datagram. destruct blk as [blk|]; [|by intros [= _ <-]].
  intros H. apply bind_Ok_inv in H as (d1 & g2 & H1 & H).
  apply bind_Ok_inv in H as (d2 & g3 & H2 & H).
  apply bind_Ok_inv in H as (d3 & g4 & H3 & H).
  assert (g4 = g) as ->.
  { destruct (slice_from _ nonceSize); [|done]. injection H1 as _ <-.
    destruct (slice_from _ crcSize); [|done]. injection H2 as _ <-.
    destruct (LittleEndian.Uint32 d1); [|done]. by injection H3 as _ <-. }
  destruct (bool_decide _); [by injection H as _ <-|].
  munfold. cbn in H. by injection H as _ <-.
Qed.

(** What a pass of [monitor] over a datagram leaves behind when it returns:
    either the listener and the set of sessions are as before, or a session
    was created, and then under the conditions and with the effects
    listed. *)
Lemma monitor_packet_Ok (from : Addr) (data : bytes) (w w' : World) :
  monitor_packet from data w = Ok (tt, w') ->
  exists (payload : bytes) (valid : bool) (g1 : Glob),
    open_datagram (l_block (listener w)) data (glob w) = Ok ((payload, valid), g1)
    /\ ((listener w' = listener w /\ dom (heap w') = dom (heap w))
        \/ (valid = true /\ from <> lastAddr w
            /\ sessions (listener w) !! from = None
            /\ len (chan_buf (chAccepts (listener w)))
               < chan_cap (chAccepts (listener w))
            /\ exists (conv : Z) (sid : positive) (evs : list Event),
                 (l_fecDecoder (listener w) = None
                  /\ LittleEndian.Uint32 payload = Some conv
                  \/ is_Some (l_fecDecoder (listener w))
                     /\ LittleEndian.Uint16 (drop 4 payload) = Some typeData
                     /\ LittleEndian.Uint32
                          (drop (Z.to_nat fecHeaderSizePlus2) payload)
                        = Some conv)
                 /\ heap w !! sid = None
                 /\ dom (heap w') = {[sid]} ∪ dom (heap w)
                 /\ listener w'
                    = set_chAccepts
                        (mkChan (chan_buf (chAccepts (listener w)) ++ [sid])
                                (chan_cap (chAccepts (listener w))))
                        (set_sessions (<[from := sid]> (sessions (listener w)))
                                      (listener w))
                 /\ trace (glob w') = trace (glob w) ++ KcpNew conv :: evs)).
Proof.
  intros Hrun. unfold monitor_packet in Hrun. step_in Hrun.
  apply bind_Ok_inv in Hrun as ([payload valid] & w1 & Hopen & Hrun).
  apply zoom_Ok_inv in Hopen as (r & g1 & Hopen & [= <- ->]).
  exists payload, valid, g1. split; [exact Hopen|].
  apply open_datagram_trace in Hopen as Htr1.
  destruct valid; [|left; by injection Hrun as <-].
  cbn [when] in Hrun.
  apply bind_Ok_inv in Hrun as ([s ok] & w2 & Hlook & Hrun).
  cbn [lastAddr lastSession set_glob listener] in Hlook.
  assert (Hcached : ok = true ->
            listener w2 = listener w /\ heap w2 = heap w /\ glob w2 = g1).
  { intros ->. destruct (bool_decide (from = lastAddr w)).
    - by injection Hlook as _ <-.
    - destruct (sessions (listener w) !! from); [|discriminate Hlook].
      step_in Hlook. by injection Hlook as _ <-. }
  destruct ok; cbn [negb] in Hrun.
  { (* an existing session *)
    left. destruct (Hcached eq_refl) as (Hl & Hh & Hg).
    apply on_session_Ok_inv in Hrun as (sid & s0 & s' & g' & _ & Hs & _ & ->).
    cbn [listener heap set_heap set_glob]. split; [done|].
    rewrite dom_insert_lookup_L by eauto. by rewrite Hh. }
  (* no session for this address *)
  assert (Hnew : from <> lastAddr w /\ sessions (listener w) !! from = None
                 /\ w2 = set_glob g1 w).
  { destruct (bool_decide (from = lastAddr w)) eqn:Hla; [discriminate Hlook|].
    apply bool_decide_eq_false in Hla.
    destruct (sessions (listener w) !! from); [|by injection Hlook as _ <-].
    step_in Hlook. discriminate Hlook. }
  destruct Hnew as (Hnl & Hns & ->). clear Hlook Hcached.
  destruct (bool_decide (len (chan_buf (chAccepts (listener w)))
                         < chan_cap (chAccepts (listener w)))) eqn:Hroom;
    [|left; by injection Hrun as <-].
  apply bool_decide_eq_true in Hroom.
  cbn [when] in Hrun.
  apply bind_Ok_inv in Hrun as (conv & w3 & Hconv & Hrun).
  assert (Hc : w3 = set_glob g1 w
               /\ match conv with
                  | Some c =>
                      l_fecDecoder (listener w) = None
                      /\ LittleEndian.Uint32 payload = Some c
                      \/ is_Some (l_fecDecoder (listener w))
                         /\ LittleEndian.Uint16 (drop 4 payload) = Some typeData
                         /\ LittleEndian.Uint32
                              (drop (Z.to_nat fecHeaderSizePlus2) payload)
                            = Some c
                  | None => True
                  end).
  { destruct (l_fecDecoder (listener w)) as [dec|].
    - unfold slice_from in Hconv.
      destruct (bool_decide (0 <= 4 <= len payload)); [|discriminate Hconv].
      cbn [mbind option_bind] in Hconv.
      destruct (LittleEndian.Uint16 (drop (Z.to_nat 4) payload)) as [isfec|] eqn:Hfl;
        [|discriminate Hconv].
      unfold try at 1 in Hconv. step_in Hconv.
      destruct (bool_decide (isfec = typeData)) eqn:Hisfec;
        [|by injection Hconv as <- <-].
      apply bool_decide_eq_true in Hisfec.
      destruct (bool_decide (0 <= fecHeaderSizePlus2 <= len payload));
        [|discriminate Hconv].
      cbn [mbind option_bind] in Hconv.
      destruct (LittleEndian.Uint32 (drop (Z.to_nat fecHeaderSizePlus2) payload))
        as [c|] eqn:Hcv; [|discriminate Hconv].
      unfold try at 1 in Hconv. step_in Hconv. injection Hconv as <- <-.
      split; [done|]. right. subst isfec. eauto.
    - destruct (LittleEndian.Uint32 payload) as [c|] eqn:Hcv;
        [|discriminate Hconv].
      unfold try at 1 in Hconv. step_in Hconv. injection Hconv as <- <-.
      split; [done|]. by left. }
  destruct Hc as [-> Hc].
  destruct conv as [conv|]; [|left; by injection Hrun as <-].
  right. do 4 (split; [done|]).
  (* the new session *)
  apply bind_Ok_inv in Hrun as (s_new & w4 & Hmk & Hrun).
  apply zoom_Ok_inv in Hmk as (s_new' & g2 & Hmk & [= <- ->]).
  destruct (newUDPSession_Ok conv (l_dataShards (listener w))
              (l_parityShards (listener w)) (Some (self w))
              (l_conn (listener w)) from (l_block (listener w)) g1)
    as (s_new' & g2' & Hmk' & [mtu Htr2] & _).
  cbn [set_glob glob self listener] in Hmk. rewrite Hmk' in Hmk.
  injection Hmk as <- <-.
  unfold alloc in Hrun. step_in Hrun.
  cbn [heap set_heap set_glob] in Hrun.
  set (sid := fresh (dom (heap w))) in *.
  assert (Hfresh : heap w !! sid = None).
  { apply not_elem_of_dom. apply is_fresh. }
  apply bind_Ok_inv in Hrun as ([] & w5 & Hin & Hrun).
  apply on_session_Ok_inv in Hin as (sid' & s0 & s' & g3 & [= <-] & Hs0 & Hin & ->).
  cbn [heap set_heap set_glob glob] in Hin, Hrun.
  destruct (kcpInput_grows payload (s0, g2')) as [evs Htr3].
  rewrite Hin in Htr3. cbn [final snd] in Htr3.
  step_in Hrun. unfold send_chAccepts in Hrun. step_in Hrun.
  cbn [listener set_listener chAccepts set_sessions set_heap set_glob] in Hrun.
  rewrite bool_decide_true in Hrun by done.
  injection Hrun as <-.
  exists conv, sid, (KcpSetMtu mtu :: UpdaterAdd :: evs).
  split; [done|]. split; [done|].
  cbn [heap listener glob set_heap set_glob set_listener].
  split; [|split; [reflexivity|]].
  - by rewrite insert_insert_eq, dom_insert_L.
  - rewrite Htr3, Htr2, Htr1, <- app_assoc. reflexivity.
Qed.

(** ** The accept queue *)

Lemma ServeConn_accept_ok (blk : option BlockCrypt) (dataShards parityShards : Z)
    (c : ConnId) :
  accept_ok (ServeConn blk dataShards parityShards c).
Proof. split; [reflexivity | unfold acceptBacklog, len; simpl; lia]. Qed.

(** * Further properties of the session layer *)

(** ** Reading a message *)

Lemma Read_returns (sched : list Tick) (b : bytes) (st st' : UDPSession * Glob)
    (r : bytes * Z * option error) :
  Read_iter b st = Ok (Return r, st') -> Read sched b st = Ok (Return r, st').
Proof. intros H. destruct sched; simpl; by erewrite bind_Ok by exact H. Qed.

Lemma length_received (s : UDPSession) (buffer : bytes) :
  length (received s buffer) = length buffer.
Proof.
  unfold received. destruct (kcp_Recv (kcp s) buffer) as [[k' filled] n].
  apply length_fst_copy.
Qed.

Lemma length_recv_window (s : UDPSession) (size : Z) :
  0 <= size -> length (recv_window s size) = Z.to_nat size.
Proof.
  intros Hs. unfold recv_window. rewrite length_take.
  case_bool_decide as Hcap.
  - rewrite length_replicate. lia.
  - unfold len in Hcap. lia.
Qed.

Lemma s_kcp_Recv_Ok (buffer : bytes) (s : UDPSession) (g : Glob) :
  s_kcp_Recv buffer (s, g)
  = Ok (received s buffer,
        (set_kcp (kcp_Recv (kcp s) buffer).1.1 s,
         emitG (KcpRecv (kcp_Recv (kcp s) buffer).2) g)).
Proof.
  unfold s_kcp_Recv, received. step.
  destruct (kcp_Recv (kcp s) buffer) as [[k' filled] n]. step. step.
  reflexivity.
Qed.

Lemma Read_iter_short (b : bytes) (s : UDPSession) (g : Glob) :
  bufptr s = [] -> isClosed s = false ->
  len b < kcp_PeekSize (kcp s) ->
  exists s1 g1,
    Read_iter b (s, g)
    = Ok (Return (take (length b)
                    (received s (recv_window s (kcp_PeekSize (kcp s)))),
                  len b, None), (s1, g1))
    /\ bufptr s1
       = drop (length b) (received s (recv_window s (kcp_PeekSize (kcp s))))
    /\ isClosed s1 = false
    /\ snmp g1 BytesReceived
       = add_uint64 (snmp g BytesReceived) (to_uint64 (kcp_PeekSize (kcp s)))
    /\ kcp_calls (trace g1)
       = kcp_calls (trace g)
         ++ [KcpRecv (kcp_Recv (kcp s)
                        (recv_window s (kcp_PeekSize (kcp s)))).2].
Proof.
  intros Hcarry Hopen Hlen.
  assert (Hb : 0 <= len b) by (unfold len; lia).
  unfold Read_iter. step. rewrite Hcarry, Hopen.
  rewrite bool_decide_false by (unfold len; simpl; lia).
  set (size := kcp_PeekSize (kcp s)) in *.
  rewrite bool_decide_true by lia.
  unfold atomic_Add, modG at 1. step.
  rewrite bool_decide_false by lia.
  assert (Hwin : slice_to (if bool_decide (len (recvbuf s) < size)
                           then replicate (Z.to_nat size) x00 else recvbuf s) size
                 = Some (recv_window s size)).
  { unfold recv_window. apply slice_to_Some. case_bool_decide as Hcap.
    - unfold len. rewrite length_replicate. lia.
    - lia. }
  rewrite Hwin. unfold try at 1. step.
  pose proof (length_received s (recv_window s size)) as Hmsg.
  rewrite length_recv_window in Hmsg by lia.
  erewrite bind_Ok by apply s_kcp_Recv_Ok. cbn [fst snd].
  set (msg := received s (recv_window s size)) in *.
  step.
  assert (Hcopy : copy b msg = (take (length b) msg, len b)).
  { unfold copy, len in *.
    replace (length b `min` length msg)%nat with (length b) by lia.
    by rewrite drop_all, app_nil_r. }
  rewrite Hcopy.
  rewrite slice_from_Some by (unfold len in *; lia).
  unfold try at 1. step. step. unfold ret.
  do 2 eexists. split; [reflexivity|].
  cbn [bufptr set_bufptr isClosed set_recvbuf set_kcp snmp set_snmp trace
       emitG set_trace].
  unfold len. rewrite Nat2Z.id.
  split; [done|]. split; [done|]. split.
  - unfold atomic_AddUint64. by rewrite decide_True.
  - unfold kcp_calls. rewrite filter_app. f_equal.
Qed.

(** A message larger than the caller's buffer is not lost: [Read] takes it
    from the core in one [Recv], returns as much of it as the buffer holds
    and keeps the rest, which the next [Read] returns without calling the
    core or counting anything; read one after the other, the two results are
    the message. *)
Theorem Read_short_buffer (sched sched' : list Tick) (b b' : bytes)
    (s : UDPSession) (g : Glob) :
  bufptr s = [] -> isClosed s = false ->
  len b < kcp_PeekSize (kcp s) ->
  kcp_PeekSize (kcp s) - len b <= len b' ->
  let size := kcp_PeekSize (kcp s) in
  let msg := received s (recv_window s size) in
  exists s1 g1 s2,
    Read sched b (s, g)
    = Ok (Return (take (length b) msg, len b, None), (s1, g1))
    /\ Read sched' b' (s1, g1)
       = Ok (Return (drop (length b) msg ++ drop (length msg - length b) b',
                     size - len b, None), (s2, g1))
    /\ bufptr s2 = []
    /\ length msg = Z.to_nat size
    /\ snmp g1 BytesReceived
       = add_uint64 (snmp g BytesReceived) (to_uint64 size)
    /\ kcp_calls (trace g1)
       = kcp_calls (trace g) ++ [KcpRecv (kcp_Recv (kcp s) (recv_window s size)).2].
Proof.
  intros Hcarry Hopen Hlen Hfit size msg.
  assert (Hb : 0 <= len b) by (unfold len; lia).
  destruct (Read_iter_short b s g Hcarry Hopen Hlen)
    as (s1 & g1 & Hrun & Hrest & _ & Hcount & Hcalls).
  fold size in Hrun, Hrest, Hcount, Hcalls. fold msg in Hrun, Hrest.
  assert (Hmsg : length msg = Z.to_nat size).
  { unfold msg. rewrite length_received. apply length_recv_window. lia. }
  assert (Hne : bufptr s1 <> []).
  { rewrite Hrest. intros Hnil%(f_equal length). rewrite length_drop in Hnil.
    unfold len in *. simpl in Hnil. lia. }
  exists s1, g1. eexists. split; [by apply Read_returns|].
  rewrite (Read_carry sched' b' s1 g1 Hne).
  rewrite Hrest. unfold copy. cbn [fst snd].
  rewrite length_drop.
  replace (length b' `min` (length msg - length b))%nat
    with (length msg - length b)%nat by (unfold len in *; lia).
  rewrite take_ge by (rewrite length_drop; lia).
  rewrite (drop_ge (drop _ _)) by (rewrite length_drop; lia).
  replace (Z.of_nat (length msg - length b)) with (size - len b)
    by (unfold len in *; lia).
  split; [reflexivity|]. done.
Qed.

(** ** Deadlines *)

Lemma SetDeadline_Ok (t : Time) (s : UDPSession) (g : Glob) :
  SetDeadline t (s, g)
  = Ok (None, (set_chWriteEvent true (set_chReadEvent true (set_wd t (set_rd t s))),
               g)).
Proof. reflexivity. Qed.

Lemma Write_returns (sched : list Tick) (b : bytes) (st st' : UDPSession * Glob)
    (r : Z * option error) :
  Write_iter b st = Ok (Return r, st') -> Write sched b st = Ok (Return r, st').
Proof. intros H. destruct sched; simpl; by erewrite bind_Ok by exact H. Qed.

(** A blocked [Read] goes through the [select] and round the loop. *)
Lemma Read_blocked (tk : Tick) (sched : list Tick) (b : bytes)
    (st st1 : UDPSession * Glob) (timer : option Z) :
  Read_iter b st = Ok (Blocked timer, st1) ->
  Read (tk :: sched) b st
  = (let* r := Read_select timer (tick_wake tk) in
     match r with
     | Some (n, err) => ret (Return (b, n, err))
     | None => Read sched b
     end) (tick_env tk st1).
Proof. intros H. cbn [Read]. step_with H. unfold modify at 1. by step. Qed.

Lemma Write_blocked (tk : Tick) (sched : list Tick) (b : bytes)
    (st st1 : UDPSession * Glob) (timer : option Z) :
  Write_iter b st = Ok (Blocked timer, st1) ->
  Write (tk :: sched) b st
  = (Write_select timer (tick_wake tk) ;;; Write sched b) (tick_env tk st1).
Proof. intros H. cbn [Write]. step_with H. unfold modify at 1. by step. Qed.

Lemma Read_iter_idle (b : bytes) (s : UDPSession) (g : Glob) :
  bufptr s = [] -> isClosed s = false -> kcp_PeekSize (kcp s) <= 0 ->
  Read_iter b (s, g)
  = Ok (if negb (Time_IsZero (rd s)) then
          if Time_After (now g) (rd s) then Return (b, 0, Some errTimeout)
          else Blocked (Some (Time_Sub (rd s) (now g)))
        else Blocked None, (s, g)).
Proof.
  intros Hcarry Hopen Hpeek. unfold Read_iter. step. rewrite Hcarry, Hopen.
  rewrite bool_decide_false by (unfold len; simpl; lia).
  rewrite bool_decide_false by lia. step.
  by destruct (negb (Time_IsZero (rd s))), (Time_After (now g) (rd s)).
Qed.

Lemma Write_iter_full (b : bytes) (s : UDPSession) (g : Glob) :
  isClosed s = false -> snd_wnd (kcp s) <= kcp_WaitSnd (kcp s) ->
  Write_iter b (s, g)
  = Ok (if negb (Time_IsZero (wd s)) then
          if Time_After (now g) (wd s) then Return (0, Some errTimeout)
          else Blocked (Some (Time_Sub (wd s) (now g)))
        else Blocked None, (s, g)).
Proof.
  intros Hopen Hsat. unfold Write_iter. step. rewrite Hopen.
  rewrite bool_decide_false by lia. step.
  by destruct (negb (Time_IsZero (wd s))), (Time_After (now g) (wd s)).
Qed.

(** A [Read] waiting for data and a [Write] waiting for room in the send
    window, both without deadline, are woken by a [SetDeadline] made
    meanwhile; when the deadline set is already in the past, both return the
    timeout error, having made no call and counted nothing. *)
Theorem SetDeadline_expired_wakes (sched : list Tick) (b : bytes) (t : Time)
    (s : UDPSession) (g : Glob) :
  isClosed s = false -> t <> 0 -> t < now g ->
  (bufptr s = [] -> kcp_PeekSize (kcp s) <= 0 -> rd s = 0 ->
   exists s',
     Read (meanwhile (SetDeadline t) WakeEvent :: sched) b (s, g)
     = Ok (Return (b, 0, Some errTimeout), (s', g))
     /\ rd s' = t /\ wd s' = t)
  /\ (snd_wnd (kcp s) <= kcp_WaitSnd (kcp s) -> wd s = 0 ->
      exists s',
        Write (meanwhile (SetDeadline t) WakeEvent :: sched) b (s, g)
        = Ok (Return (0, Some errTimeout), (s', g))
        /\ rd s' = t /\ wd s' = t).
Proof.
  intros Hopen Ht Hpast.
  assert (Hz : Time_IsZero t = false) by (by apply bool_decide_eq_false).
  assert (Ha : Time_After (now g) t = true) by (by apply bool_decide_eq_true).
  split.
  - intros Hcarry Hpeek Hrd.
    pose proof (Read_iter_idle b s g Hcarry Hopen Hpeek) as Hit.
    rewrite Hrd in Hit. change (Time_IsZero 0) with true in Hit.
    cbn [negb] in Hit.
    rewrite (Read_blocked _ _ _ _ _ _ Hit).
    unfold meanwhile. cbn [tick_env tick_wake].
    rewrite SetDeadline_Ok. cbn [final snd].
    unfold Read_select. step.
    match goal with
    | |- context [Read sched b (?s2, g)] =>
        exists s2;
        rewrite (Read_returns sched b (s2, g) (s2, g) (b, 0, Some errTimeout));
        [split; [reflexivity|split; reflexivity]|]
    end.
    rewrite Read_iter_idle by done.
    cbn [rd set_rd set_wd set_chReadEvent set_chWriteEvent].
    by rewrite Hz, Ha.
  - intros Hsat Hwd.
    pose proof (Write_iter_full b s g Hopen Hsat) as Hit.
    rewrite Hwd in Hit. change (Time_IsZero 0) with true in Hit.
    cbn [negb] in Hit.
    rewrite (Write_blocked _ _ _ _ _ _ Hit).
    unfold meanwhile. cbn [tick_env tick_wake].
    rewrite SetDeadline_Ok. cbn [final snd].
    unfold Write_select. step.
    match goal with
    | |- context [Write sched b (?s2, g)] =>
        exists s2;
        rewrite (Write_returns sched b (s2, g) (s2, g) (0, Some errTimeout));
        [split; [reflexivity|split; reflexivity]|]
    end.
    rewrite Write_iter_full by done.
    cbn [wd set_rd set_wd set_chReadEvent set_chWriteEvent].
    by rewrite Hz, Ha.
Qed.

(** ** What driving the core leaves alone *)

#[local] Instance quiet_preorder : PreOrder quiet.
Proof.
  split.
  - intros [s g]. unfold quiet; simpl. split; [by destruct s | done].
  - intros [s1 g1] [s2 g2] [s3 g3]. unfold quiet.
    destruct s1, s2, s3; cbn.
    intros (H1 & Hl1 & Hn1) (H2 & Hl2 & Hn2).
    split; [|split; congruence].
    injection H1 as -> -> -> -> -> -> -> -> -> -> -> -> -> -> ->.
    injection H2 as -> -> -> -> -> -> -> -> -> -> -> -> -> -> ->.
    reflexivity.
Qed.

#[local] Instance layout_preorder : PreOrder layout.
Proof.
  split.
  - by intros [s g].
  - intros [s1 g1] [s2 g2] [s3 g3]. unfold layout; simpl.
    intros (H1 & H2 & H3) (H4 & H5 & H6). repeat split; congruence.
Qed.

Lemma egress_quiet (st st' : UDPSession * Glob) : egress st st' -> quiet st st'.
Proof.
  destruct st as [s g], st' as [s' g']. unfold egress, quiet; simpl.
  intros (H1 & Hl & Hn & _). split; [|done].
  rewrite <- H1. by destruct s'.
Qed.

Lemma quiet_layout (st st' : UDPSession * Glob) : quiet st st' -> layout st st'.
Proof.
  destruct st as [s g], st' as [s' g']. unfold quiet, layout; simpl.
  intros (H1 & Hl & _). rewrite <- H1. by destruct s'.
Qed.

Lemma quiet_fields (st st' : UDPSession * Glob) :
  quiet st st' ->
  isClosed st'.1 = isClosed st.1 /\ bufptr st'.1 = bufptr st.1
  /\ recvbuf st'.1 = recvbuf st.1 /\ rd st'.1 = rd st.1 /\ wd st'.1 = wd st.1
  /\ die st'.1 = die st.1 /\ chErrorEvent st'.1 = chErrorEvent st.1
  /\ remote st'.1 = remote st.1 /\ l st'.1 = l st.1 /\ conn st'.1 = conn st.1
  /\ dup st'.1 = dup st.1 /\ writeDelay st'.1 = writeDelay st.1
  /\ ackNoDelay st'.1 = ackNoDelay st.1.
Proof.
  destruct st as [s g], st' as [s' g']. intros [H _]. simpl in *.
  rewrite <- H. by destruct s'.
Qed.

Lemma frames_modG_quiet (f : Glob -> Glob) :
  (forall g, now (f g) = now g) -> frames quiet (modG f).
Proof.
  intros H [s g]. unfold quiet; simpl. split; [by destruct s | by split].
Qed.

Lemma run_output_quiet (outs : list (bytes * Z)) : frames quiet (run_output outs).
Proof. apply (frames_weaken egress); [apply egress_quiet | apply run_output_egress]. Qed.

Lemma frames_emit_quiet (e : Event) : frames quiet (emit e).
Proof. apply frames_modG_quiet. by intros []. Qed.

Lemma frames_atomic_Add_quiet (f : SnmpField) (d : Z) :
  frames quiet (atomic_Add f d).
Proof. apply frames_modG_quiet. by intros []. Qed.

(** Closing the goals [frames_auto] leaves about driving the core; the
    lemmas proved so far are tried by the head of the computation. *)
Ltac quiet_modS :=
  intros [[] ?]; unfold quiet; simpl; split; [reflexivity | by split].

Lemma s_kcp_Input_quiet (d : bytes) (r a : bool) : frames quiet (s_kcp_Input d r a).
Proof.
  unfold s_kcp_Input. frames_auto;
    lazymatch goal with
    | |- frames _ (emit _) => apply frames_emit_quiet
    | |- frames _ (run_output _) => apply run_output_quiet
    | |- frames _ (modS _) => quiet_modS
    end.
Qed.

Lemma s_kcp_flush_quiet (ackOnly : bool) : frames quiet (s_kcp_flush ackOnly).
Proof.
  unfold s_kcp_flush. frames_auto;
    lazymatch goal with
    | |- frames _ (emit _) => apply frames_emit_quiet
    | |- frames _ (run_output _) => apply run_output_quiet
    | |- frames _ (modS _) => quiet_modS
    end.
Qed.

Lemma s_kcp_Send_quiet (b : bytes) : frames quiet (s_kcp_Send b).
Proof.
  unfold s_kcp_Send. frames_auto;
    lazymatch goal with
    | |- frames _ (emit _) => apply frames_emit_quiet
    | |- frames _ (modS _) => quiet_modS
    end.
Qed.

Ltac quiet_leaf :=
  lazymatch goal with
  | |- frames _ (emit _) => apply frames_emit_quiet
  | |- frames _ (atomic_Add _ _) => apply frames_atomic_Add_quiet
  | |- frames _ (run_output _) => apply run_output_quiet
  | |- frames _ (s_kcp_Input _ _ _) => apply s_kcp_Input_quiet
  | |- frames _ (s_kcp_flush _) => apply s_kcp_flush_quiet
  | |- frames _ (s_kcp_Send _) => apply s_kcp_Send_quiet
  | |- frames _ (modS _) => quiet_modS
  | |- frames _ notifyReadEvent => unfold notifyReadEvent; quiet_modS
  | |- frames _ notifyWriteEvent => unfold notifyWriteEvent; quiet_modS
  end.

Lemma kcpInput_recovered_quiet (acc : Z * Z * Z) (r : bytes) :
  frames quiet (kcpInput_recovered acc r).
Proof.
  unfold kcpInput_recovered. destruct acc as [[kie fe] fr].
  frames_auto; quiet_leaf.
Qed.

Lemma kcpInput_quiet (data : bytes) : frames quiet (kcpInput data).
Proof.
  unfold kcpInput.
  frames_auto;
    lazymatch goal with
    | |- frames _ (kcpInput_recovered _ _) => apply kcpInput_recovered_quiet
    | |- _ => quiet_leaf
    end.
Qed.

Lemma update_quiet : frames quiet update.
Proof. unfold update. frames_auto; quiet_leaf. Qed.

Lemma Write_fragment_quiet (fuel : nat) (b : bytes) :
  frames quiet (Write_fragment fuel b).
Proof.
  revert b. induction fuel as [|fuel IH]; intros b; cbn [Write_fragment].
  - apply frames_stuck. typeclasses eauto.
  - frames_auto;
      lazymatch goal with
      | |- frames _ (Write_fragment _ _) => apply IH
      | |- _ => quiet_leaf
      end.
Qed.

Lemma Write_iter_quiet (b : bytes) : frames quiet (Write_iter b).
Proof.
  unfold Write_iter.
  frames_auto;
    lazymatch goal with
    | |- frames _ (Write_fragment _ _) => apply Write_fragment_quiet
    | |- _ => quiet_leaf
    end.
Qed.

(** ** The events [kcpInput] posts *)

Lemma core_frame_events (st st' : UDPSession * Glob) :
  core_frame st st' ->
  chReadEvent st'.1 = chReadEvent st.1 /\ chWriteEvent st'.1 = chWriteEvent st.1.
Proof.
  destruct st as [s g], st' as [s' g']. intros [H _]. simpl in *.
  rewrite <- H. by destruct s'.
Qed.

Lemma notify_Ok {A} (waitsnd : Z) (res : A) (s : UDPSession) (g : Glob) :
  (let* s := getS in
   when (bool_decide (kcp_PeekSize (kcp s) > 0)) notifyReadEvent ;;;
   when (bool_decide (kcp_WaitSnd (kcp s) < waitsnd)) notifyWriteEvent ;;;
   ret res) (s, g)
  = Ok (res, (notified waitsnd s, g)).
Proof.
  unfold notified. step.
  destruct (bool_decide (kcp_PeekSize (kcp s) > 0)); cbn [when kcp set_chReadEvent];
    destruct (bool_decide (kcp_WaitSnd (kcp s) < waitsnd)); reflexivity.
Qed.

Lemma notified_fields (waitsnd : Z) (s : UDPSession) :
  kcp (notified waitsnd s) = kcp s
  /\ chReadEvent (notified waitsnd s)
     = chReadEvent s || bool_decide (kcp_PeekSize (kcp s) > 0)
  /\ chWriteEvent (notified waitsnd s)
     = chWriteEvent s || bool_decide (kcp_WaitSnd (kcp s) < waitsnd).
Proof.
  unfold notified.
  destruct (bool_decide (kcp_PeekSize (kcp s) > 0)); cbn [kcp set_chReadEvent];
    destruct (bool_decide (kcp_WaitSnd (kcp s) < waitsnd));
    cbn [kcp chReadEvent chWriteEvent set_chReadEvent set_chWriteEvent];
    rewrite ?orb_true_r, ?orb_false_r; done.
Qed.

(** The counters at the end of [kcpInput] change the registry only. *)
Lemma kcpInput_counters (n : Z) (k fe fr ps : Z) (s : UDPSession) (g : Glob) :
  exists g',
    (atomic_Add InPkts 1 ;;;
     atomic_Add InBytes n ;;;
     when (bool_decide (ps > 0)) (atomic_Add FECParityShards ps) ;;;
     when (bool_decide (k > 0)) (atomic_Add KCPInErrors k) ;;;
     when (bool_decide (fe > 0)) (atomic_Add FECErrs fe) ;;;
     when (bool_decide (fr > 0)) (atomic_Add FECRecovered fr)) (s, g)
    = Ok (tt, (s, g'))
    /\ trace g' = trace g /\ now g' = now g
    /\ snmp g' InPkts = add_uint64 (snmp g InPkts) 1
    /\ snmp g' InBytes = add_uint64 (snmp g InBytes) n
    /\ snmp g' InErrs = snmp g InErrs.
Proof.
  munfold. cbn [fst snd].
  destruct (bool_decide (ps > 0)), (bool_decide (k > 0)), (bool_decide (fe > 0)),
    (bool_decide (fr > 0)); cbn [when fst snd];
    (eexists; split; [reflexivity|]; cbn [trace now snmp set_snmp];
     unfold atomic_AddUint64;
     repeat (first [rewrite decide_True by done | rewrite decide_False by done]);
     done).
Qed.


Lemma kcpInput_events (data : bytes) (s s1 : UDPSession) (g g1 : Glob) :
  kcpInput data (s, g) = Ok (tt, (s1, g1)) ->
  (s1 = s /\ trace g1 = trace g /\ is_Some (fecDecoder s)
   /\ snmp g1 InErrs = add_uint64 (snmp g InErrs) 1)
  \/ (chReadEvent s1 = chReadEvent s || bool_decide (kcp_PeekSize (kcp s1) > 0)
      /\ chWriteEvent s1
         = chWriteEvent s
           || bool_decide (kcp_WaitSnd (kcp s1) < kcp_WaitSnd (kcp s))).
Proof.
  intros Hrun. unfold kcpInput in Hrun. step_in Hrun.
  apply bind_Ok_inv in Hrun as ([[[k fe] fr] ps] & [s2 g2] & Hbody & Hcnt).
  destruct (kcpInput_counters (to_uint64 (len data)) k fe fr ps s2 g2)
    as (g' & Hc & Htr & _ & _ & _ & Hie).
  rewrite Hc in Hcnt. injection Hcnt as <- <-. clear Hc.
  assert (Hrefused : (atomic_Add InErrs 1 ;;; ret (0, 0, 0, 0)) (s, g)
                     = Ok (k, fe, fr, ps, (s2, g2)) ->
                     s2 = s /\ trace g' = trace g
                     /\ snmp g' InErrs = add_uint64 (snmp g InErrs) 1).
  { intros H. step_in H. injection H as _ _ _ _ <- <-.
    split; [done|]. split; [done|]. rewrite Hie. cbn [snmp set_snmp].
    unfold atomic_AddUint64. by rewrite decide_True. }
  destruct (fecDecoder s) as [dec|] eqn:Hdec.
  - destruct (bool_decide (len data > fecHeaderSize));
      [|left; destruct (Hrefused Hbody) as (? & ? & ?); eauto].
    apply bind_Ok_inv in Hbody as (f & st0 & Hf & Hbody).
    destruct (decodeBytes data) as [f0|]; [|discriminate Hf].
    injection Hf as <- <-.
    destruct (bool_decide (fec_flag f0 = typeData)
              || bool_decide (fec_flag f0 = typeFEC));
      [|left; destruct (Hrefused Hbody) as (? & ? & ?); eauto].
    clear Hrefused. right.
    destruct (fec_decode dec f0) as [dec' recovers].
    do 3 step_in Hbody.
    set (s1 := set_fecDecoder (Some dec') s) in *.
    set (g1 := emitG (FecDecode (fec_seqid f0) (fec_flag f0) (fec_data f0)) g) in *.
    apply bind_Ok_inv in Hbody as (kie0 & st2 & Hdata & Hbody).
    assert (Hf12 : core_frame (s1, g1) st2).
    { destruct (bool_decide (fec_flag f0 = typeData)).
      - apply bind_Ok_inv in Hdata as (payload & st1 & Hp & Hdata).
        destruct (slice_from data fecHeaderSizePlus2) as [pl|]; [|discriminate Hp].
        injection Hp as <- <-.
        apply bind_Ok_inv in Hdata as (rv & st2' & Hin & Hret).
        injection Hret as _ <-.
        destruct (s_kcp_Input_frame pl true (ackNoDelay s1) (s1, g1)) as [Hfr _].
        by rewrite Hin in Hfr.
      - injection Hdata as _ <-. reflexivity. }
    apply bind_Ok_inv in Hbody as ([[kie fe'] fr'] & [s3 g3] & Hloop & Hbody).
    apply recovered_loop_Ok in Hloop as (Hf23 & _).
    rewrite notify_Ok in Hbody. injection Hbody as _ _ _ _ <- _.
    destruct (core_frame_events _ _ (transitivity Hf12 Hf23)) as [Hr Hw].
    cbn [fst] in Hr, Hw.
    match goal with
    | |- context [notified ?w s3] =>
        destruct (notified_fields w s3) as (Hk & -> & ->)
    end.
    rewrite Hk, Hr, Hw. done.
  - clear Hrefused. right.
    apply bind_Ok_inv in Hbody as (rv & [s3 g3] & Hin & Hbody).
    rewrite notify_Ok in Hbody. injection Hbody as _ _ _ _ <- _.
    destruct (s_kcp_Input_frame data true (ackNoDelay s) (s, g)) as [Hfr _].
    rewrite Hin in Hfr.
    destruct (core_frame_events _ _ Hfr) as [Hr Hw]. cbn [fst final snd] in Hr, Hw.
    match goal with
    | |- context [notified ?w s3] =>
        destruct (notified_fields w s3) as (Hk & -> & ->)
    end.
    rewrite Hk, Hr, Hw. done.
Qed.

Lemma Read_select_event (timer : option Z) (s : UDPSession) (g : Glob) :
  chReadEvent s = true ->
  Read_select timer WakeEvent (s, g) = Ok (None, (set_chReadEvent false s, g)).
Proof. intros H. unfold Read_select. step. by rewrite H. Qed.

Lemma Write_select_event (timer : option Z) (s : UDPSession) (g : Glob) :
  chWriteEvent s = true ->
  Write_select timer WakeEvent (s, g) = Ok (tt, (set_chWriteEvent false s, g)).
Proof. intros H. unfold Write_select. step. by rewrite H. Qed.

(** A pass of [Read] on an open session with an empty carry buffer, when
    the message ready in the core fits the caller's buffer. *)
Lemma Read_iter_direct (b : bytes) (s : UDPSession) (g : Glob) :
  bufptr s = [] -> isClosed s = false ->
  0 < kcp_PeekSize (kcp s) <= len b ->
  Read_iter b (s, g)
  = Ok (Return (received s b, kcp_PeekSize (kcp s), None),
        (set_kcp (kcp_Recv (kcp s) b).1.1 s,
         emitG (KcpRecv (kcp_Recv (kcp s) b).2)
           (count BytesReceived (to_uint64 (kcp_PeekSize (kcp s))) g))).
Proof.
  intros Hcarry Hopen Hsize. unfold Read_iter. step. rewrite Hcarry, Hopen.
  rewrite bool_decide_false by (unfold len; simpl; lia).
  rewrite bool_decide_true by lia.
  unfold atomic_Add, modG at 1. step.
  rewrite bool_decide_true by lia.
  erewrite bind_Ok by apply s_kcp_Recv_Ok. reflexivity.
Qed.

(** The read event is posted by [kcpInput] exactly when a message is ready
    once the datagram has gone through the core, and the write event exactly
    when the send queue got shorter. *)
Theorem kcpInput_posts_events (data : bytes) (s s1 : UDPSession) (g g1 : Glob) :
  kcpInput data (s, g) = Ok (tt, (s1, g1)) ->
  chReadEvent s = false -> chWriteEvent s = false ->
  kcp_PeekSize (kcp s) <= 0 ->
  (chReadEvent s1 = true <-> 0 < kcp_PeekSize (kcp s1))
  /\ (chWriteEvent s1 = true <-> kcp_WaitSnd (kcp s1) < kcp_WaitSnd (kcp s)).
Proof.
  intros Hrun Hr Hw Hidle.
  destruct (kcpInput_events data s s1 g g1 Hrun) as [(-> & _) | [Hre Hwe]].
  - rewrite Hr, Hw. split; split; (discriminate || lia).
  - rewrite Hre, Hwe, Hr, Hw. cbn [orb].
    split; (split; [intros H%bool_decide_eq_true; lia
                   | intros H; apply bool_decide_eq_true; lia]).
Qed.

(** A [Read] waiting for data on an open session returns the message that a
    datagram handed to [kcpInput] meanwhile makes ready, when the caller's
    buffer has room for it: the read event posted by [kcpInput] wakes it,
    and it takes the message from the core with one [Recv]. *)
Theorem kcpInput_wakes_Read (sched : list Tick) (data b : bytes)
    (s s1 : UDPSession) (g g1 : Glob) :
  isClosed s = false -> bufptr s = [] -> rd s = 0 ->
  kcp_PeekSize (kcp s) <= 0 ->
  kcpInput data (s, g) = Ok (tt, (s1, g1)) ->
  0 < kcp_PeekSize (kcp s1) <= len b ->
  exists s2 g2,
    Read (meanwhile (kcpInput data) WakeEvent :: sched) b (s, g)
    = Ok (Return (received s1 b, kcp_PeekSize (kcp s1), None), (s2, g2))
    /\ kcp s2 = (kcp_Recv (kcp s1) b).1.1
    /\ bufptr s2 = []
    /\ trace g2 = trace g1 ++ [KcpRecv (kcp_Recv (kcp s1) b).2].
Proof.
  intros Hopen Hcarry Hrd Hidle Hrun Hready.
  pose proof (Read_iter_idle b s g Hcarry Hopen Hidle) as Hit.
  rewrite Hrd in Hit. change (Time_IsZero 0) with true in Hit.
  cbn [negb] in Hit.
  rewrite (Read_blocked _ _ _ _ _ _ Hit).
  unfold meanwhile. cbn [tick_env tick_wake]. rewrite Hrun. cbn [final snd].
  assert (Hev : chReadEvent s1 = true).
  { destruct (kcpInput_events data s s1 g g1 Hrun) as [(-> & _) | [-> _]];
      [lia|].
    rewrite (bool_decide_true (kcp_PeekSize (kcp s1) > 0)) by lia.
    apply orb_true_r. }
  pose proof (kcpInput_quiet data (s, g)) as Hq. rewrite Hrun in Hq.
  destruct (quiet_fields _ _ Hq) as (Hc1 & Hb1 & _). cbn [final fst snd] in Hc1, Hb1.
  erewrite bind_Ok by (by apply Read_select_event). cbn [fst snd].
  erewrite Read_returns.
  2:{ apply Read_iter_direct; cbn [bufptr isClosed kcp set_chReadEvent];
        [congruence | congruence | done]. }
  do 2 eexists. split; [reflexivity|].
  cbn [kcp bufptr set_kcp set_chReadEvent trace emitG set_trace count set_snmp].
  split; [done|]. split; [congruence | done].
Qed.

(** ** The events [update] posts *)

Lemma update_events (s s1 : UDPSession) (g g1 : Glob) (interval : Z) :
  update (s, g) = Ok (interval, (s1, g1)) ->
  chReadEvent s1 = chReadEvent s
  /\ chWriteEvent s1
     = chWriteEvent s || bool_decide (kcp_WaitSnd (kcp s1) < kcp_WaitSnd (kcp s)).
Proof.
  intros Hrun. unfold update in Hrun. step_in Hrun.
  apply bind_Ok_inv in Hrun as (iv & [s2 g2] & Hfl & Hrun).
  destruct (s_kcp_flush_frame false (s, g)) as [Hfr _]. rewrite Hfl in Hfr.
  destruct (core_frame_events _ _ Hfr) as [Hr Hw]. cbn [fst final snd] in Hr, Hw.
  step_in Hrun. unfold notifyWriteEvent in Hrun.
  destruct (bool_decide (kcp_WaitSnd (kcp s2) < kcp_WaitSnd (kcp s))) eqn:Hlt;
    cbn [when] in Hrun; step_in Hrun; injection Hrun as _ <- _;
    cbn [kcp chReadEvent chWriteEvent set_chWriteEvent];
    rewrite ?Hlt, ?orb_true_r, ?orb_false_r; done.
Qed.

(** An admitted pass of [Write] does not end waiting. *)
Lemma Write_iter_admitted_returns (b : bytes) (s : UDPSession) (g : Glob)
    (o : Outcome (Z * option error)) (st' : UDPSession * Glob) :
  isClosed s = false ->
  kcp_WaitSnd (kcp s) < snd_wnd (kcp s) ->
  Write_iter b (s, g) = Ok (o, st') -> o = Return (len b, None).
Proof.
  intros Hopen Hroom Hrun. unfold Write_iter in Hrun. step_in Hrun.
  rewrite Hopen in Hrun. rewrite bool_decide_true in Hrun by done.
  apply bind_Ok_inv in Hrun as ([] & st1 & _ & Hrun).
  apply bind_Ok_inv in Hrun as (s1 & st2 & _ & Hrun).
  apply bind_Ok_inv in Hrun as ([] & st3 & _ & Hrun).
  apply bind_Ok_inv in Hrun as ([] & st4 & _ & Hrun).
  by injection Hrun as <- _.
Qed.

(** A [Write] waiting for room in the send window goes on when an [update]
    made meanwhile shortens the send queue: [update] posts the write event,
    and, the queue now being below the window, the call makes one admitted
    pass from the state [update] left and returns [len(b)] if it returns. An
    [update] that does not shorten the queue posts no event. *)
Theorem update_wakes_Write (sched : list Tick) (b : bytes) (s s1 : UDPSession)
    (g g1 : Glob) (interval : Z) :
  isClosed s = false -> wd s = 0 -> chWriteEvent s = false ->
  snd_wnd (kcp s) <= kcp_WaitSnd (kcp s) ->
  update (s, g) = Ok (interval, (s1, g1)) ->
  (kcp_WaitSnd (kcp s) <= kcp_WaitSnd (kcp s1) -> chWriteEvent s1 = false)
  /\ (kcp_WaitSnd (kcp s1) < kcp_WaitSnd (kcp s) ->
      kcp_WaitSnd (kcp s1) < snd_wnd (kcp s1) ->
      Write (meanwhile update WakeEvent :: sched) b (s, g)
      = Write_iter b (set_chWriteEvent false s1, g1)
      /\ forall o st',
           Write (meanwhile update WakeEvent :: sched) b (s, g) = Ok (o, st') ->
           o = Return (len b, None)).
Proof.
  intros Hopen Hwd Hev Hsat Hrun.
  destruct (update_events s s1 g g1 interval Hrun) as [_ Hw].
  rewrite Hev in Hw. cbn [orb] in Hw.
  split.
  - intros Hge. rewrite Hw. by apply bool_decide_eq_false; lia.
  - intros Hshort Hroom.
    pose proof (update_quiet (s, g)) as Hq. rewrite Hrun in Hq.
    destruct (quiet_fields _ _ Hq) as (Hc1 & _). cbn [final fst snd] in Hc1.
    pose proof (Write_iter_full b s g Hopen Hsat) as Hit.
    rewrite Hwd in Hit. change (Time_IsZero 0) with true in Hit.
    cbn [negb] in Hit.
    assert (Heq : Write (meanwhile update WakeEvent :: sched) b (s, g)
                  = Write_iter b (set_chWriteEvent false s1, g1)).
    { rewrite (Write_blocked _ _ _ _ _ _ Hit).
      unfold meanwhile. cbn [tick_env tick_wake]. rewrite Hrun. cbn [final snd].
      erewrite bind_Ok.
      2:{ apply Write_select_event. rewrite Hw. by apply bool_decide_eq_true. }
      cbn [fst snd]. apply Write_unblocked. intros t st' Hb.
      apply Write_iter_admitted_returns in Hb; [discriminate Hb| |];
        cbn [isClosed kcp set_chWriteEvent]; [congruence | done]. }
    split; [exact Heq|]. intros o st'. rewrite Heq.
    apply Write_iter_admitted_returns;
      cbn [isClosed kcp set_chWriteEvent]; [congruence | done].
Qed.

(** ** Datagrams [kcpInput] refuses *)

(** On a session with FEC, a datagram no longer than the FEC header, or
    whose flag is neither [typeData] nor [typeFEC], reaches neither the
    decoder nor the core: [kcpInput] returns with the session as it was and
    no call made; the datagram is counted in [InErrs], and in [InPkts] and
    [InBytes] like every other. *)
Theorem kcpInput_refused (data : bytes) (s : UDPSession) (g : Glob) (dec : FecDec) :
  fecDecoder s = Some dec ->
  len data <= fecHeaderSize
  \/ (exists f, decodeBytes data = Some f
                /\ fec_flag f <> typeData /\ fec_flag f <> typeFEC) ->
  exists g',
    kcpInput data (s, g) = Ok (tt, (s, g'))
    /\ trace g' = trace g
    /\ snmp g' InErrs = add_uint64 (snmp g InErrs) 1
    /\ snmp g' InPkts = add_uint64 (snmp g InPkts) 1
    /\ snmp g' InBytes = add_uint64 (snmp g InBytes) (to_uint64 (len data)).
Proof.
  intros Hdec Hbad.
  destruct (kcpInput_counters (to_uint64 (len data)) 0 0 0 0 s (count InErrs 1 g))
    as (g' & Hc & Htr & _ & Hip & Hib & Hie).
  exists g'. split.
  - unfold kcpInput. step. rewrite Hdec.
    destruct Hbad as [Hshort | (f & Hf & Hd & Hp)].
    + rewrite bool_decide_false by lia. step. step. exact Hc.
    + destruct (bool_decide (len data > fecHeaderSize)); [|step; step; exact Hc].
      rewrite Hf. unfold try at 1. rewrite bind_assoc. step.
      rewrite !bool_decide_false by done. cbn [orb]. step. step. exact Hc.
  - rewrite Htr, Hie, Hip, Hib. cbn [trace count set_snmp snmp].
    unfold atomic_AddUint64.
    rewrite decide_True by done. rewrite !decide_False by done. done.
Qed.

(** ** Bytes, little-endian words and checksums *)

Lemma byte_to_Z_range (b : byte) : 0 <= byte_to_Z b < 256.
Proof.
  unfold byte_to_Z. pose proof (Byte.to_N_bounded b). lia.
Qed.

Lemma byte_to_of_Z (z : Z) : byte_to_Z (byte_of_Z z) = z mod 256.
Proof.
  unfold byte_to_Z, byte_of_Z.
  pose proof (Z.mod_pos_bound z 256 ltac:(lia)) as Hm.
  destruct (Byte.of_N (Z.to_N (z mod 256))) as [y|] eqn:Hy.
  - apply Byte.to_of_N in Hy. simpl. rewrite Hy. lia.
  - apply Byte.of_N_None_iff in Hy. lia.
Qed.

Lemma lxor_range (n a b : Z) :
  0 <= n -> 0 <= a < 2 ^ n -> 0 <= b < 2 ^ n -> 0 <= Z.lxor a b < 2 ^ n.
Proof.
  intros Hn Ha Hb.
  assert (Hnn : 0 <= Z.lxor a b) by (apply Z.lxor_nonneg; lia).
  split; [done|].
  destruct (decide (Z.lxor a b = 0)) as [->|Hne]; [lia|].
  assert (Hlog : forall c, 0 <= c < 2 ^ n -> 0 < n -> Z.log2 c < n).
  { intros c Hc Hpos. destruct (decide (c = 0)) as [->|]; [done|].
    apply Z.log2_lt_pow2; lia. }
  assert (Hpos : 0 < n).
  { destruct (decide (n = 0)) as [->|]; [|lia].
    assert (a = 0) as -> by lia. assert (b = 0) as -> by lia. done. }
  apply Z.log2_lt_pow2; [lia|].
  pose proof (Z.log2_lxor a b ltac:(lia) ltac:(lia)).
  pose proof (Hlog a Ha Hpos). pose proof (Hlog b Hb Hpos). lia.
Qed.

Lemma crc32_step_range (crc : Z) :
  0 <= crc < 2 ^ 32 -> 0 <= crc32.step crc < 2 ^ 32.
Proof.
  intros Hc. unfold crc32.step.
  assert (Hs : 0 <= Z.shiftr crc 1 < 2 ^ 31).
  { rewrite Z.shiftr_div_pow2 by lia. change (2 ^ 1) with 2.
    split; [apply Z.div_pos; lia|]. apply Z.div_lt_upper_bound; lia. }
  destruct (Z.testbit crc 0); [|lia].
  apply lxor_range; [lia | lia | by unfold crc32.IEEE].
Qed.

Lemma crc32_update_byte_range (crc : Z) (b : byte) :
  0 <= crc < 2 ^ 32 -> 0 <= crc32.update_byte crc b < 2 ^ 32.
Proof.
  intros Hc. unfold crc32.update_byte.
  assert (H0 : 0 <= Z.lxor crc (byte_to_Z b) < 2 ^ 32).
  { apply lxor_range; [lia | done |]. pose proof (byte_to_Z_range b). lia. }
  generalize dependent (Z.lxor crc (byte_to_Z b)). intros c Hc0.
  cbn [Nat.iter nat_rect]. by do 8 apply crc32_step_range.
Qed.

(** The checksum is a 32-bit word. *)
Lemma ChecksumIEEE_range (data : bytes) :
  0 <= crc32.ChecksumIEEE data < 2 ^ 32.
Proof.
  unfold crc32.ChecksumIEEE.
  assert (H : forall acc, 0 <= acc < 2 ^ 32 ->
                0 <= foldl crc32.update_byte acc data < 2 ^ 32).
  { induction data as [|b data IH]; intros acc Hacc; [done|].
    cbn [foldl]. by apply IH, crc32_update_byte_range. }
  apply lxor_range; [lia | by apply H | done].
Qed.

(** Reading back a word written little-endian. *)
Lemma Uint32_PutUint32 (b b' : bytes) (v : Z) :
  LittleEndian.PutUint32 b v = Some b' ->
  LittleEndian.Uint32 b' = Some (v mod 2 ^ 32)
  /\ drop 4 b' = drop 4 b /\ length b' = length b.
Proof.
  destruct b as [|b0 [|b1 [|b2 [|b3 rest]]]]; try discriminate.
  intros [= <-]. split; [|done]. cbn [LittleEndian.Uint32].
  rewrite !byte_to_of_Z. f_equal. change 256 with (2 ^ 8).
  apply Z.bits_inj'. intros n Hn.
  rewrite !Z.lor_spec, !Z.shiftl_spec by lia.
  destruct (decide (n < 8)); [|destruct (decide (n < 16));
    [|destruct (decide (n < 24)); [|destruct (decide (n < 32))]]];
    repeat match goal with
    | |- context [Z.testbit (?a mod 2 ^ ?k) ?m] =>
        first [ rewrite (Z.mod_pow2_bits_low a k m) by lia
              | rewrite (Z.mod_pow2_bits_high a k m) by lia
              | rewrite (Z.testbit_neg_r (a mod 2 ^ k) m) by lia ]
    end;
    repeat match goal with
    | |- context [Z.testbit ?a ?m] => rewrite (Z.testbit_neg_r a m) by lia
    end;
    rewrite ?Z.shiftr_spec by lia;
    rewrite ?orb_false_r, ?orb_false_l;
    first [ reflexivity | f_equal; lia ].
Qed.

(** ** Sealing and opening *)

Lemma seal_sealed (blk : BlockCrypt) (b : bytes) (s : UDPSession) (g : Glob) :
  cryptHeaderSize <= len b ->
  seal blk b (s, g)
  = Ok (sealed blk (nonce_Fill (nonce s)).2 b,
        (set_nonce (nonce_Fill (nonce s)).1 s, g)).
Proof.
  unfold cryptHeaderSize, nonceSize, crcSize. intros Hlen.
  unfold seal, sealed, cryptHeaderSize, nonceSize, crcSize. munfold.
  rewrite (slice_to_Some b 16) by lia. cbn [fst snd].
  destruct (nonce_Fill (nonce s)) as [e' r] eqn:Hfill. cbn [fst snd].
  set (b1 := (copy (take (Z.to_nat 16) b) r).1 ++ drop (length (take (Z.to_nat 16) b)) b).
  assert (Hb1 : len b1 = len b).
  { unfold b1, len. rewrite length_app, length_fst_copy, length_drop.
    rewrite length_take. unfold len in Hlen. lia. }
  rewrite (slice_from_Some b1 (16 + 4)) by lia. cbn [fst snd].
  rewrite (slice_from_Some b1 16) by lia. cbn [fst snd].
  destruct (PutUint32_len (drop (Z.to_nat 16) b1)
              (crc32.ChecksumIEEE (drop (Z.to_nat (16 + 4)) b1)))
    as (field' & Hput & Hfl).
  { rewrite len_drop. lia. }
  rewrite Hput. reflexivity.
Qed.

(** A sealed buffer, handed to the receiving side with the same cipher,
    passes the checksum test and yields the bytes that followed the crypto
    header. *)
Lemma open_sealed (blk : BlockCrypt) (r b : bytes) (g0 : Glob) :
  cipher_ok blk -> cryptHeaderSize <= len b ->
  open_datagram (Some blk) (sealed blk r b) g0
  = Ok ((drop (Z.to_nat cryptHeaderSize) b, true), g0).
Proof.
  unfold cryptHeaderSize, nonceSize, crcSize. intros Hblk Hlen.
  unfold sealed, open_datagram, cryptHeaderSize, nonceSize, crcSize.
  change (Z.to_nat (16 + 4)) with 20%nat. change (Z.to_nat 16) with 16%nat.
  set (head := take 16 b).
  assert (Hh : length head = 16%nat).
  { unfold head. rewrite length_take. unfold len in Hlen. lia. }
  rewrite Hh.
  set (b1 := (copy head r).1 ++ drop 16 b).
  assert (Hl1 : length b1 = length b).
  { unfold b1. rewrite length_app, length_fst_copy, length_drop, Hh.
    unfold len in Hlen. lia. }
  assert (Hd1 : drop 20 b1 = drop 20 b).
  { unfold b1. rewrite drop_app_ge by (rewrite length_fst_copy; lia).
    rewrite length_fst_copy, Hh, drop_drop. done. }
  set (crc := crc32.ChecksumIEEE (drop 20 b1)).
  destruct (PutUint32_len (drop 16 b1) crc) as (fld & Hput & _).
  { rewrite len_drop. unfold len in *. lia. }
  rewrite Hput. cbn [default from_option id].
  destruct (Uint32_PutUint32 _ _ _ Hput) as (Hrd & Hdf & Hlf).
  rewrite drop_drop in Hdf. change (16 + 4)%nat with 20%nat in Hdf.
  rewrite length_drop in Hlf.
  set (b2 := take 16 b1 ++ fld).
  assert (Hl2 : length b2 = length b).
  { unfold b2. rewrite length_app, length_take. unfold len in Hlen. lia. }
  destruct (Hblk b2) as [Hle Hde].
  rewrite (copy_same_length b2 (Encrypt blk b2)) by done.
  rewrite (copy_same_length (Encrypt blk b2)) by (by rewrite Hde, Hle).
  rewrite Hde.
  assert (H16 : drop 16 b2 = fld).
  { unfold b2. rewrite drop_app_length'; [done|].
    rewrite length_take. unfold len in Hlen. lia. }
  rewrite slice_from_Some by (unfold len in *; lia).
  unfold try at 1. step. change (Z.to_nat 16) with 16%nat. rewrite H16.
  rewrite slice_from_Some by (unfold len in *; lia).
  unfold try at 1. step. change (Z.to_nat 4) with 4%nat.
  rewrite Hrd. unfold try at 1. step.
  rewrite Hdf, Hd1.
  rewrite Z.mod_small by apply ChecksumIEEE_range.
  unfold crc. rewrite Hd1.
  by rewrite bool_decide_true.
Qed.

(** ** [output] on a session without FEC encoder *)

(** Up to its write loop, [output] changes the nonce generator and [ext]
    only, and makes the one datagram [datagram_of s buf]. *)
Lemma output_no_fec (s : UDPSession) (g : Glob) (buf : bytes) :
  session_wf s -> fecEncoder s = None ->
  headerSize s + len buf <= mtuLimit ->
  0 <= dup s < int_max ->
  exists s3,
    output buf (s, g)
    = (let* '(nbytes, npkts) :=
         for_range (seqZ 0 (dup s + 1)) (0, 0)
           (fun acc _ => write_counted (datagram_of s buf) acc) in
       atomic_Add OutPkts (to_uint64 npkts) ;;;
       atomic_Add OutBytes (to_uint64 nbytes)) (s3, g)
    /\ conn s3 = conn s /\ remote s3 = remote s /\ kcp s3 = kcp s
    /\ len (datagram_of s buf) = headerSize s + len buf.
Proof.
  intros Hwf Hnofec Hfit Hdup.
  destruct (output_extend s g buf Hwf Hfit) as [Hext Hlen0].
  pose proof (session_wf_range s Hwf) as Hrange.
  unfold output, datagram_of. step. step_with Hext. rewrite Hnofec. step.
  set (ext0 := extended s buf) in *.
  assert (Hdone : forall (ext2 : bytes) (s2 : UDPSession),
    conn s2 = conn s -> remote s2 = remote s -> kcp s2 = kcp s ->
    dup s2 = dup s -> len ext2 = headerSize s + len buf ->
    exists s3,
      (when (bool_decide (headerSize s > 0))
            (modS (fun s => set_ext (fst (copy (ext s) ext2)) s)) ;;;
       let* acc := for_lt (int_add (dup s) 1) (0, 0)
                     (fun acc _ => write_counted ext2 acc) in
       let* '(nbytes, npkts) := for_range [] acc
                                  (fun acc shard => write_counted shard acc) in
       atomic_Add OutPkts (to_uint64 npkts) ;;;
       atomic_Add OutBytes (to_uint64 nbytes)) (s2, g)
      = (let* '(nbytes, npkts) :=
           for_range (seqZ 0 (dup s + 1)) (0, 0)
             (fun acc _ => write_counted ext2 acc) in
         atomic_Add OutPkts (to_uint64 npkts) ;;;
         atomic_Add OutBytes (to_uint64 nbytes)) (s3, g)
      /\ conn s3 = conn s /\ remote s3 = remote s /\ kcp s3 = kcp s
      /\ len ext2 = headerSize s + len buf).
  { intros ext2 s2 Hc Hr Hk Hd Hl.
    exists (if bool_decide (headerSize s > 0)
            then set_ext (fst (copy (ext s2) ext2)) s2 else s2).
    unfold int_add at 1.
    rewrite wrap_int_id by (unfold int_min, int_max in *; lia).
    unfold for_lt.
    split.
    - destruct (bool_decide (headerSize s > 0)); cbn [when]; step;
        unfold bind; cbn [for_range];
        match goal with
        | |- context [for_range ?xs ?a ?f ?st] => destruct (for_range xs a f st)
            as [[[nb np] st1]| |]
        end; reflexivity.
    - destruct (bool_decide (headerSize s > 0)); cbn [conn remote kcp set_ext];
        done. }
  destruct (block s) as [blk|] eqn:Hblk.
  - assert (Hl : cryptHeaderSize <= len ext0).
    { rewrite Hlen0. assert (0 <= len buf) by (unfold len; lia). lia. }
    destruct (Hdone (sealed blk (nonce_Fill (nonce s)).2 ext0)
                (set_nonce (nonce_Fill (nonce s)).1 s))
      as (s3 & Heq & Hrest); cbn [conn remote kcp dup set_nonce]; try done.
    { destruct (seal_Ok blk ext0 s g Hl) as (b' & Hs & Hlb).
      rewrite seal_sealed in Hs by done. injection Hs as <-. lia. }
    exists s3. split; [|exact Hrest]. rewrite <- Heq.
    rewrite !bind_assoc. erewrite bind_Ok by (by apply seal_sealed).
    cbn [fst snd for_range]. by step.
  - destruct (Hdone ext0 s) as (s3 & Heq & Hrest); try done.
    exists s3. split; [|exact Hrest]. rewrite <- Heq. by step.
Qed.

(** What [output] writes comes back: on a session without FEC whose
    additional header is the crypto header alone, with a cipher that
    decrypts what it encrypts, every datagram [output] hands to the carrier
    for [buf] passes the checksum test of the receiving side and opens to
    [buf]; the data datagram is written [dup+1] times and nothing else
    is. *)
Theorem output_opens (s : UDPSession) (g : Glob) (buf : bytes) :
  session_wf s -> fecEncoder s = None ->
  headerSize s = header_size (block s) false ->
  headerSize s + len buf <= mtuLimit ->
  0 <= dup s < int_max ->
  (forall blk, block s = Some blk -> cipher_ok blk) ->
  exists (st' : UDPSession * Glob) (pkt : bytes),
    output buf (s, g) = Ok (tt, st')
    /\ trace st'.2
       = trace g ++ replicate (Z.to_nat (dup s + 1))
                      (ConnWriteTo (conn s) pkt (remote s))
    /\ forall g0, open_datagram (block s) pkt g0 = Ok ((buf, true), g0).
Proof.
  intros Hwf Hnofec Hhs Hfit Hdup Hcipher.
  destruct (output_no_fec s g buf Hwf Hnofec Hfit Hdup)
    as (s3 & Hrun & Hc & Hr & _ & Hlen).
  destruct (write_loop_Ok (fun _ : Z => datagram_of s buf) (seqZ 0 (dup s + 1))
              (0, 0) s3 g) as ([nbytes npkts] & g2 & Hw & Ht & _ & _).
  rewrite Hrun. step_with Hw. step.
  eexists _, (datagram_of s buf). split; [reflexivity|].
  cbn [snd trace set_snmp]. split.
  - rewrite Ht, Hc, Hr, fmap_const_length, length_seqZ. done.
  - intros g0. unfold datagram_of, extended, header_size in *.
    destruct (block s) as [blk|] eqn:Hblk.
    + rewrite Z.add_0_r in Hhs. rewrite Hhs in *.
      rewrite bool_decide_true by done.
      destruct Hwf as [_ Hext]. rewrite Hhs in Hext.
      specialize (Hext ltac:(done)).
      rewrite open_sealed.
      * rewrite drop_app_length'; [done|]. rewrite length_take.
        unfold len, mtuLimit, cryptHeaderSize, nonceSize, crcSize in *. lia.
      * by apply Hcipher.
      * unfold len in *. rewrite length_app, length_take.
        unfold mtuLimit, cryptHeaderSize, nonceSize, crcSize in *. lia.
    + rewrite Hhs. by rewrite bool_decide_false by lia.
Qed.

(** ** What [output] counts *)

Lemma write_loop_accepting {A} (pkt : bytes) (xs : list A) :
  accepting ->
  forall (nbytes npkts : Z) (s : UDPSession) (g : Glob),
    0 <= nbytes -> 0 <= npkts ->
    nbytes + len xs * len pkt <= int_max -> npkts + len xs <= int_max ->
    exists g',
      for_range xs (nbytes, npkts) (fun acc _ => write_counted pkt acc) (s, g)
      = Ok ((nbytes + len xs * len pkt, npkts + len xs), (s, g'))
      /\ snmp g' = snmp g.
Proof.
  intros Hacc. induction xs as [|x xs IH]; intros nbytes npkts s g Hb Hp Hbm Hpm.
  - exists g. unfold len; simpl. rewrite !Z.add_0_r. done.
  - assert (Hl : 0 <= len pkt) by (unfold len; lia).
    assert (Hx : len (x :: xs) = len xs + 1) by (unfold len; simpl; lia).
    assert (Hxs : 0 <= len xs) by (unfold len; lia).
    rewrite Hx in *.
    cbn [for_range]. unfold write_counted at 1, s_WriteTo. munfold. cbn [fst snd].
    destruct (Hacc (net g) (conn s) pkt (remote s)) as [net' ->]. cbn [fst snd].
    unfold int_add.
    rewrite !wrap_int_id by (unfold int_min, int_max in *; nia).
    match goal with
    | |- context [for_range xs _ _ (s, ?g1)] =>
        destruct (IH (nbytes + len pkt) (npkts + 1) s g1) as (g' & -> & Hs);
          [nia | lia | nia | lia |]
    end.
    exists g'. split; [|by rewrite Hs].
    do 3 f_equal; lia.
Qed.

Lemma write_loop_failing {A} (pkt : bytes) (xs : list A) :
  failing ->
  forall (acc : Z * Z) (s : UDPSession) (g : Glob),
    exists g',
      for_range xs acc (fun acc _ => write_counted pkt acc) (s, g)
      = Ok (acc, (s, g'))
      /\ snmp g' = snmp g
      /\ trace g'
         = trace g ++ replicate (length xs) (ConnWriteTo (conn s) pkt (remote s)).
Proof.
  intros Hfail. induction xs as [|x xs IH]; intros [nbytes npkts] s g.
  - exists g. simpl. by rewrite app_nil_r.
  - cbn [for_range]. unfold write_counted at 1, s_WriteTo. munfold. cbn [fst snd].
    destruct (Hfail (net g) (conn s) pkt (remote s)) as (net' & n & e & ->).
    cbn [fst snd].
    match goal with
    | |- context [for_range xs ?a _ (s, ?g1)] =>
        destruct (IH a s g1) as (g' & -> & Hs & Ht)
    end.
    exists g'. split; [done|]. split; [by rewrite Hs|].
    rewrite Ht. cbn [trace emitG set_trace set_net length replicate].
    by rewrite <- app_assoc.
Qed.

Lemma add_to_uint64 (a n : Z) : add_uint64 a (to_uint64 n) = add_uint64 a n.
Proof. unfold add_uint64, to_uint64. by rewrite Zplus_mod_idemp_r. Qed.

(** On a carrier that takes every datagram whole, a call of [output] on a
    session without FEC adds the [dup+1] datagrams it wrote to [OutPkts] and
    their bytes to [OutBytes], in 64-bit unsigned arithmetic, and changes no
    other counter. *)
Theorem output_counts (s : UDPSession) (g : Glob) (buf : bytes) :
  accepting ->
  session_wf s -> fecEncoder s = None ->
  headerSize s + len buf <= mtuLimit ->
  0 <= dup s < int_max ->
  (dup s + 1) * (headerSize s + len buf) <= int_max ->
  exists st' : UDPSession * Glob,
    output buf (s, g) = Ok (tt, st')
    /\ snmp st'.2 OutPkts = add_uint64 (snmp g OutPkts) (dup s + 1)
    /\ snmp st'.2 OutBytes
       = add_uint64 (snmp g OutBytes) ((dup s + 1) * (headerSize s + len buf))
    /\ forall f, f <> OutPkts -> f <> OutBytes -> snmp st'.2 f = snmp g f.
Proof.
  intros Hacc Hwf Hnofec Hfit Hdup Hsum.
  destruct (output_no_fec s g buf Hwf Hnofec Hfit Hdup)
    as (s3 & Hrun & _ & _ & _ & Hlen).
  assert (Hn : len (seqZ 0 (dup s + 1)) = dup s + 1).
  { unfold len. rewrite length_seqZ. lia. }
  destruct (write_loop_accepting (datagram_of s buf) (seqZ 0 (dup s + 1)) Hacc
              0 0 s3 g) as (g' & Hw & Hs); [lia | lia | | |].
  { rewrite Hn, Hlen. lia. }
  { rewrite Hn. lia. }
  rewrite Hn, Hlen, !Z.add_0_l in Hw.
  rewrite Hrun. step_with Hw. step.
  eexists. split; [reflexivity|].
  cbn [snd snmp set_snmp]. rewrite Hs. unfold atomic_AddUint64.
  split; [|split].
  - rewrite decide_False by done. rewrite decide_True by done.
    apply add_to_uint64.
  - rewrite decide_True by done. apply add_to_uint64.
  - intros f H1 H2. by rewrite !decide_False by done.
Qed.

(** [output] does not stop at a failed write and reports none: on a carrier
    that fails every write, a session without FEC encoder, given a buffer
    that fits, still returns, having attempted each of the [dup+1] writes,
    and [OutPkts] and [OutBytes] advance by zero. *)
Theorem output_swallows_errors (s : UDPSession) (g : Glob) (buf : bytes) :
  failing ->
  session_wf s -> fecEncoder s = None ->
  headerSize s + len buf <= mtuLimit ->
  0 <= dup s < int_max ->
  exists (st' : UDPSession * Glob) (pkt : bytes),
    output buf (s, g) = Ok (tt, st')
    /\ trace st'.2
       = trace g ++ replicate (Z.to_nat (dup s + 1))
                      (ConnWriteTo (conn s) pkt (remote s))
    /\ snmp st'.2 OutPkts = add_uint64 (snmp g OutPkts) 0
    /\ snmp st'.2 OutBytes = add_uint64 (snmp g OutBytes) 0.
Proof.
  intros Hfail Hwf Hnofec Hfit Hdup.
  destruct (output_no_fec s g buf Hwf Hnofec Hfit Hdup)
    as (s3 & Hrun & Hc & Hr & _ & _).
  destruct (write_loop_failing (datagram_of s buf) (seqZ 0 (dup s + 1)) Hfail
              (0, 0) s3 g) as (g' & Hw & Hs & Ht).
  rewrite Hrun. step_with Hw. step.
  eexists _, (datagram_of s buf). split; [reflexivity|].
  cbn [snd snmp trace set_snmp]. rewrite Hs, Ht, Hc, Hr, length_seqZ.
  unfold atomic_AddUint64.
  split; [done|]. split.
  - rewrite decide_False by done. by rewrite decide_True by done.
  - by rewrite decide_True by done.
Qed.

(** ** The bound on what [output] is given *)

(** With an additional header, [output] works in [ext], which has room for
    [mtuLimit] bytes: a buffer that does not fit behind the header makes the
    slice expression panic, before anything is encoded, counted or
    written. *)
Theorem output_too_long (s : UDPSession) (g : Glob) (buf : bytes) :
  session_wf s -> 0 < headerSize s -> len buf <= int_max ->
  mtuLimit < headerSize s + len buf ->
  output buf (s, g) = Panic (s, g).
Proof.
  intros Hwf Hpos Hint Hlong.
  pose proof (session_wf_range s Hwf) as [_ Hhi].
  destruct Hwf as [_ Hext]. specialize (Hext Hpos).
  unfold output. step. rewrite bool_decide_true by lia.
  assert (Hnone : slice_to (ext s) (int_add (headerSize s) (len buf)) = None).
  { unfold slice_to. rewrite bool_decide_false; [done|].
    rewrite Hext. unfold int_add, wrap_int, int_max, mtuLimit in *.
    destruct (decide (headerSize s + len buf < 2 ^ 63)) as [Hsmall|Hbig].
    - rewrite Z.mod_small by lia. lia.
    - replace (headerSize s + len buf + 2 ^ 63)
        with (headerSize s + len buf - 2 ^ 63 + 1 * 2 ^ 64) by lia.
      rewrite Z.mod_add by lia. rewrite Z.mod_small by lia. lia. }
  rewrite Hnone. reflexivity.
Qed.

(** [SetMtu] refuses an MTU above [mtuLimit] and then touches nothing;
    otherwise it gives the core the MTU less the additional header, so that
    whatever the core hands to [output] within that MTU has room in [ext]:
    on a session without FEC, [output] then returns for every such
    buffer. *)
Theorem SetMtu_keeps_room (mtu : Z) (s : UDPSession) (g : Glob) :
  session_wf s -> 0 <= mtu ->
  (mtuLimit < mtu -> SetMtu mtu (s, g) = Ok (false, (s, g)))
  /\ (mtu <= mtuLimit ->
      exists s',
        SetMtu mtu (s, g)
        = Ok (true, (s', emitG (KcpSetMtu (mtu - headerSize s)) g))
        /\ session_wf s'
        /\ forall (buf : bytes) (g' : Glob),
             len buf <= mtu - headerSize s ->
             fecEncoder s = None -> 0 <= dup s < int_max ->
             is_Ok (output buf (s', g')) = true).
Proof.
  intros Hwf Hmin. pose proof (session_wf_range s Hwf) as [_ Hhi].
  pose proof (session_wf_nonneg s Hwf) as Hlo.
  split.
  - intros Hbig. unfold SetMtu. by rewrite bool_decide_true by lia.
  - intros Hsmall.
    exists (set_kcp (kcp_SetMtu (kcp s) (mtu - headerSize s)) s).
    split.
    { unfold SetMtu. rewrite bool_decide_false by lia. step. cbv zeta.
      rewrite wrap_int_id by (unfold int_min, int_max, mtuLimit in *; lia).
      by step. }
    assert (Hwf' : session_wf (set_kcp (kcp_SetMtu (kcp s) (mtu - headerSize s)) s)).
    { destruct Hwf as [Hh He]. split; cbn [headerSize block ext set_kcp]; done. }
    split; [exact Hwf'|].
    intros buf g' Hfit Hnofec Hdup.
    destruct (output_no_fec _ g' buf Hwf') as (s3 & Hrun & _);
      cbn [headerSize fecEncoder dup set_kcp]; try done; [lia|].
    rewrite Hrun.
    match goal with
    | |- context [for_range ?xs ?a (fun acc _ => write_counted ?p acc)] =>
        destruct (write_loop_Ok (fun _ : Z => p) xs a s3 g')
          as ([nb np] & g2 & Hw & _)
    end.
    step_with Hw. by step.
Qed.

(** ** The connection counters *)

(** A call of [newUDPSession] during which no other goroutine writes to the
    registry adds one to [CurrEstab] (modulo 2^64) and to one of
    [ActiveOpens] (client) and [PassiveOpens] (accepted), leaves the other as
    it was, and leaves in [MaxConn] the larger of what it held and the new
    [CurrEstab]: the compare-and-swap finds the value that was loaded. *)
Theorem newUDPSession_counts (conv dataShards parityShards : Z)
    (l : option positive) (conn : ConnId) (remote : Addr)
    (blk : option BlockCrypt) (g : Glob) :
  exists (s : UDPSession) (g' : Glob),
    newUDPSession conv dataShards parityShards l conn remote blk g = Ok (s, g')
    /\ snmp g' CurrEstab = add_uint64 (snmp g CurrEstab) 1
    /\ snmp g' MaxConn = Z.max (snmp g MaxConn) (snmp g' CurrEstab)
    /\ snmp g' ActiveOpens
       = (if l is None then add_uint64 (snmp g ActiveOpens) 1
          else snmp g ActiveOpens)
    /\ snmp g' PassiveOpens
       = (if l is None then snmp g PassiveOpens
          else add_uint64 (snmp g PassiveOpens) 1).
Proof.
  unfold newUDPSession. munfold.
  destruct l as [lid|]; cbn [fst snd snmp set_snmp emitG set_trace];
    unfold atomic_AddUint64;
    repeat (first [ rewrite decide_True by done
                  | rewrite decide_False by done ]);
    match goal with
    | |- context [bool_decide (?a > ?b)] =>
        destruct (bool_decide (a > b)) eqn:Hgt;
          [apply bool_decide_eq_true in Hgt | apply bool_decide_eq_false in Hgt]
    end;
    cbn [when fst snd];
    (eexists _, _; split; [reflexivity|]);
    cbn [snmp set_snmp];
    unfold atomic_CompareAndSwapUint64, atomic_StoreUint64, atomic_AddUint64;
    repeat (first [ rewrite decide_True by done
                  | rewrite decide_False by done ]);
    repeat split; lia.
Qed.

Lemma newUDPSession_fields (conv dataShards parityShards : Z)
    (l0 : option positive) (c : ConnId) (a : Addr) (blk : option BlockCrypt)
    (g : Glob) :
  exists (s : UDPSession) (g' : Glob) (mtu : Z),
    newUDPSession conv dataShards parityShards l0 c a blk g = Ok (s, g')
    /\ conn s = c /\ l s = l0 /\ remote s = a /\ block s = blk
    /\ isClosed s = false /\ die s = false /\ bufptr s = []
    /\ snmp g' CurrEstab = add_uint64 (snmp g CurrEstab) 1
    /\ net g' = net g
    /\ trace g'
       = trace g ++ [KcpNew conv; KcpSetMtu mtu; UpdaterAdd]
         ++ (if l0 is None then [GoReadLoop] else []).
Proof.
  unfold newUDPSession. munfold.
  destruct l0 as [lid|]; cbn [fst snd snmp set_snmp emitG set_trace];
    match goal with
    | |- context [bool_decide (?x > ?y)] => destruct (bool_decide (x > y))
    end;
    cbn [when fst snd];
    (eexists _, _, _; split; [reflexivity|]);
    cbn [conn l remote block isClosed die bufptr snmp net trace set_snmp emitG
         set_trace];
    unfold atomic_CompareAndSwapUint64, atomic_StoreUint64, atomic_AddUint64;
    repeat (first [ rewrite decide_True by done
                  | rewrite decide_False by done ]);
    rewrite <- ?app_assoc; repeat split; reflexivity.
Qed.

(** A session that is made and then closed leaves [CurrEstab] as it was:
    [Close] takes back the one [newUDPSession] added. The session is
    registered with the updater when made and removed from it when closed;
    closing a client session closes its carrier, closing an accepted one
    notifies its listener and leaves the carrier, which is the listener's,
    open. *)
Theorem session_made_and_closed (conv dataShards parityShards : Z)
    (l0 : option positive) (c : ConnId) (a : Addr) (blk : option BlockCrypt)
    (g : Glob) :
  0 <= snmp g CurrEstab < 2 ^ 64 ->
  exists (s s2 : UDPSession) (g1 g2 : Glob) (mtu : Z),
    newUDPSession conv dataShards parityShards l0 c a blk g = Ok (s, g1)
    /\ Close (s, g1)
       = Ok (if l0 is None then (conn_Close (net g) c).2 else None, (s2, g2))
    /\ isClosed s2 = true
    /\ snmp g2 CurrEstab = snmp g CurrEstab
    /\ trace g2
       = trace g ++ [KcpNew conv; KcpSetMtu mtu; UpdaterAdd]
         ++ (if l0 is None then [GoReadLoop; UpdaterRemove; ConnClose c]
             else [UpdaterRemove; ListenerCloseSession a]).
Proof.
  intros Hc.
  destruct (newUDPSession_fields conv dataShards parityShards l0 c a blk g)
    as (s & g1 & mtu & Hnew & Hconn & Hl & Hrem & _ & Hopen & Hdie & _ & Hce
        & Hnet & Htr).
  assert (Hback : add_uint64 (add_uint64 (snmp g CurrEstab) 1) uint64_all_ones
                  = snmp g CurrEstab).
  { unfold add_uint64, uint64_all_ones. rewrite Zplus_mod_idemp_l.
    replace (snmp g CurrEstab + 1 + (2 ^ 64 - 1))
      with (snmp g CurrEstab + 1 * 2 ^ 64) by lia.
    rewrite Z.mod_add by lia. apply Z.mod_small. lia. }
  cut (exists (s2 : UDPSession) (g2 : Glob),
         Close (s, g1)
         = Ok (if l0 is None then (conn_Close (net g) c).2 else None, (s2, g2))
         /\ isClosed s2 = true
         /\ snmp g2 CurrEstab = snmp g CurrEstab
         /\ trace g2
            = trace g ++ [KcpNew conv; KcpSetMtu mtu; UpdaterAdd]
              ++ (if l0 is None then [GoReadLoop; UpdaterRemove; ConnClose c]
                  else [UpdaterRemove; ListenerCloseSession a])).
  { intros (s2 & g2 & H1 & H2 & H3 & H4). by exists s, s2, g1, g2, mtu. }
  unfold Close. munfold. cbn [fst snd].
  rewrite Hl, Hopen, Hdie.
  destruct l0 as [lid|].
  - rewrite bool_decide_true by eauto. cbn [when fst snd].
    eexists _, _. split; [reflexivity|].
    cbn [isClosed set_isClosed snmp trace set_snmp emitG set_trace].
    split; [done|]. split.
    + unfold atomic_AddUint64. rewrite decide_True by done. by rewrite Hce.
    + rewrite Htr, Hrem, <- !app_assoc. reflexivity.
  - rewrite bool_decide_false by (by intros [? ?]). cbn [when fst snd].
    unfold s_conn_Close. munfold.
    cbn [fst snd conn set_isClosed set_die net set_snmp emitG set_trace].
    rewrite Hconn, Hnet.
    destruct (conn_Close (net g) c) as [net' err]. cbn [fst snd].
    eexists _, _. split; [reflexivity|].
    cbn [isClosed set_isClosed snmp trace set_snmp set_net emitG set_trace].
    split; [done|]. split.
    + unfold atomic_AddUint64. rewrite decide_True by done. by rewrite Hce.
    + rewrite Htr, <- !app_assoc. reflexivity.
Qed.

(** ** The listener, forwards *)

Lemma zoom_Ok {S T A} (proj : S -> T) (inj : T -> S -> S) (m : M T A)
    (s : S) (a : A) (t' : T) :
  m (proj s) = Ok (a, t') -> zoom proj inj m s = Ok (a, inj t' s).
Proof. intros H. unfold zoom. by rewrite H. Qed.

Lemma on_session_Ok {A} (sid : positive) (m : SM A) (w : World)
    (s s' : UDPSession) (g' : Glob) (a : A) :
  heap w !! sid = Some s ->
  m (s, glob w) = Ok (a, (s', g')) ->
  on_session (Some sid) m w
  = Ok (a, set_heap (<[sid := s']> (heap w)) (set_glob g' w)).
Proof.
  intros Hs Hm. unfold on_session. cbn [mbind option_bind default].
  rewrite Hs. cbn [mbind option_bind]. by rewrite Hm.
Qed.

(** The conversation id [monitor] reads from a datagram that may open a
    session: at offset 0 without FEC; with FEC at offset 8, and only from a
    data shard. *)
Lemma monitor_conv (fec : option FecDec) (payload : bytes) (conv : Z) (w : World) :
  (fec = None /\ LittleEndian.Uint32 payload = Some conv)
  \/ (is_Some fec
      /\ LittleEndian.Uint16 (drop 4 payload) = Some typeData
      /\ LittleEndian.Uint32 (drop 8 payload) = Some conv) ->
  (match fec with
   | Some _ =>
       let* isfec := try (slice_from payload 4 ≫= LittleEndian.Uint16) in
       if bool_decide (isfec = typeData) then
         let* c := try (slice_from payload fecHeaderSizePlus2
                        ≫= LittleEndian.Uint32) in
         ret (Some c)
       else ret None
   | None =>
       let* c := try (LittleEndian.Uint32 payload) in ret (Some c)
   end) w
  = Ok (Some conv, w).
Proof.
  intros [[-> Hc] | ([dec ->] & Hflag & Hc)].
  - rewrite Hc. unfold try. by step.
  - assert (H8 : 8 <= len payload).
    { unfold len. destruct (decide (length payload < 8)%nat) as [Hlt|]; [|lia].
      rewrite drop_ge in Hc by lia. discriminate Hc. }
    rewrite slice_from_Some by lia. cbn [mbind option_bind].
    change (Z.to_nat 4) with 4%nat. rewrite Hflag. unfold try at 1. step.
    rewrite bool_decide_true by done.
    rewrite slice_from_Some by (unfold fecHeaderSizePlus2; lia).
    cbn [mbind option_bind]. change (Z.to_nat fecHeaderSizePlus2) with 8%nat.
    rewrite Hc. unfold try. by step.
Qed.

(** A datagram that passes the checksum test, from an address that is
    neither the cached one nor in the session map, while the accept queue
    has room, and that carries a conversation id where [monitor] looks for
    it, opens a session: the session is made for that peer and this
    listener, is fed the datagram, is entered in the map under the peer's
    address and is queued for [AcceptKCP], which hands it out when it is the
    first in the queue. The cache of [monitor] is left as it was. *)
Theorem monitor_opens_session (from : Addr) (data payload : bytes) (conv : Z)
    (w : World) (g1 : Glob) :
  open_datagram (l_block (listener w)) data (glob w) = Ok ((payload, true), g1) ->
  from <> lastAddr w ->
  sessions (listener w) !! from = None ->
  len (chan_buf (chAccepts (listener w))) < chan_cap (chAccepts (listener w)) ->
  (l_fecDecoder (listener w) = None /\ LittleEndian.Uint32 payload = Some conv)
  \/ (is_Some (l_fecDecoder (listener w))
      /\ LittleEndian.Uint16 (drop 4 payload) = Some typeData
      /\ LittleEndian.Uint32 (drop 8 payload) = Some conv) ->
  first_input_returns conv (l_dataShards (listener w))
    (l_parityShards (listener w)) (Some (self w)) (l_conn (listener w)) from
    (l_block (listener w)) payload g1 = true ->
  exists (w' : World) (sid : positive) (s' : UDPSession),
    monitor_packet from data w = Ok (tt, w')
    /\ heap w !! sid = None
    /\ heap w' = <[sid := s']> (heap w)
    /\ remote s' = from /\ l s' = Some (self w)
    /\ conn s' = l_conn (listener w) /\ block s' = l_block (listener w)
    /\ isClosed s' = false
    /\ listener w'
       = set_chAccepts
           (mkChan (chan_buf (chAccepts (listener w)) ++ [sid])
                   (chan_cap (chAccepts (listener w))))
           (set_sessions (<[from := sid]> (sessions (listener w))) (listener w))
    /\ lastAddr w' = lastAddr w /\ lastSession w' = lastSession w
    /\ (chan_buf (chAccepts (listener w)) = [] ->
        exists w'',
          AcceptKCP AcceptSession w' = Ok ((Some sid, None), w'')
          /\ heap w'' = heap w'
          /\ chan_buf (chAccepts (listener w'')) = []).
Proof.
  intros Hopen Hnl Hns Hroom Hconv Hin.
  destruct (newUDPSession_fields conv (l_dataShards (listener w))
              (l_parityShards (listener w)) (Some (self w)) (l_conn (listener w))
              from (l_block (listener w)) g1)
    as (s & g2 & mtu & Hnew & Hc & Hl & Hr & Hb & Hcl & _).
  unfold first_input_returns in Hin. rewrite Hnew in Hin.
  apply is_Ok_inv in Hin as ([] & [s' g3] & Hin).
  pose proof (kcpInput_quiet payload (s, g2)) as Hq. rewrite Hin in Hq.
  destruct (quiet_fields _ _ Hq)
    as (Hcl' & _ & _ & _ & _ & _ & _ & Hr' & Hl' & Hc' & _).
  destruct (quiet_layout _ _ Hq) as (Hb' & _).
  cbn [final fst snd] in Hcl', Hr', Hl', Hc', Hb'.
  set (sid := fresh (dom (heap w))).
  assert (Hfresh : heap w !! sid = None).
  { apply not_elem_of_dom. apply is_fresh. }
  unfold monitor_packet. step.
  erewrite bind_Ok by (apply zoom_Ok; exact Hopen). cbn [fst snd when].
  cbn [lastAddr lastSession listener set_glob].
  rewrite bool_decide_false by done. rewrite Hns. step. cbn [negb].
  rewrite bool_decide_true by done. cbn [when].
  erewrite bind_Ok by (apply monitor_conv; exact Hconv). cbn [fst snd].
  erewrite bind_Ok by (apply zoom_Ok; cbn [glob set_glob]; exact Hnew).
  cbn [fst snd]. unfold alloc at 1. step. cbn [heap set_glob]. fold sid.
  erewrite bind_Ok.
  2:{ eapply on_session_Ok; cbn [heap glob set_heap set_glob];
        [apply lookup_insert_eq | exact Hin]. }
  cbn [fst snd]. step. unfold send_chAccepts. step.
  cbn [listener set_listener set_heap set_glob chAccepts set_sessions heap].
  rewrite bool_decide_true by done.
  eexists _, sid, s'. split; [reflexivity|].
  cbn [heap listener lastAddr lastSession set_listener set_heap set_glob
       set_chAccepts set_sessions chAccepts].
  split; [done|]. split; [apply insert_insert_eq|].
  split; [congruence|]. split; [congruence|]. split; [congruence|].
  split; [congruence|]. split; [congruence|]. split; [reflexivity|].
  split; [reflexivity|]. split; [reflexivity|].
  intros Hempty. unfold AcceptKCP. step.
  cbn [listener set_listener chAccepts set_chAccepts chan_buf chan_cap].
  rewrite Hempty. cbn [app]. step.
  eexists. split; [reflexivity|]. by split.
Qed.

(** A datagram that passes the checksum test, from an address that is in
    the session map and is not the cached one, is handed to the session of
    the map, which becomes the cached one; no session is made and the map and
    the accept queue are left as they were. *)
Theorem monitor_known_address (from : Addr) (data payload : bytes) (w : World)
    (g1 g' : Glob) (sid : positive) (s s' : UDPSession) :
  open_datagram (l_block (listener w)) data (glob w) = Ok ((payload, true), g1) ->
  from <> lastAddr w ->
  sessions (listener w) !! from = Some sid ->
  heap w !! sid = Some s ->
  kcpInput payload (s, g1) = Ok (tt, (s', g')) ->
  monitor_packet from data w
  = Ok (tt, set_heap (<[sid := s']> (heap w))
              (set_glob g' (set_last from (Some sid) w))).
Proof.
  intros Hopen Hnl Hks Hs Hin.
  unfold monitor_packet. step.
  erewrite bind_Ok by (apply zoom_Ok; exact Hopen). cbn [fst snd when].
  cbn [lastAddr lastSession listener set_glob].
  rewrite bool_decide_false by done. rewrite Hks. step. cbn [negb].
  erewrite on_session_Ok; [|cbn [heap set_last set_glob]; exact Hs
                           |cbn [glob set_last set_glob]; exact Hin].
  by destruct w.
Qed.

(** The cache of [monitor] outlives the entry of the map: when the cached
    address is deleted from the session map (its session was closed), a
    later datagram from that address is still handed to the cached session;
    no session is made for it, and the address stays absent from the map and
    the accept queue as it was. *)
Theorem monitor_cache_outlives_entry (from : Addr) (data payload : bytes)
    (w : World) (g1 g' : Glob) (sid : positive) (s s' : UDPSession) :
  lastAddr w = from -> lastSession w = Some sid ->
  heap w !! sid = Some s ->
  open_datagram (l_block (listener w)) data (glob w) = Ok ((payload, true), g1) ->
  kcpInput payload (s, g1) = Ok (tt, (s', g')) ->
  exists w1 w2,
    monitor (InClosed from) w = Ok (true, w1)
    /\ sessions (listener w1) !! from = None
    /\ monitor (InPacket from data) w1 = Ok (true, w2)
    /\ heap w2 = <[sid := s']> (heap w)
    /\ sessions (listener w2) !! from = None
    /\ chAccepts (listener w2) = chAccepts (listener w).
Proof.
  intros Hla Hls Hs Hopen Hin.
  set (w1 := set_listener
               (set_sessions (delete from (sessions (listener w))) (listener w)) w).
  exists w1, (set_heap (<[sid := s']> (heap w1)) (set_glob g' w1)).
  split; [reflexivity|].
  split; [apply lookup_delete_eq|].
  split.
  - assert (Hp : monitor_packet from data w1
                 = Ok (tt, set_heap (<[sid := s']> (heap w1)) (set_glob g' w1))).
    { unfold monitor_packet. step.
      erewrite bind_Ok by (apply zoom_Ok; exact Hopen). cbn [fst snd when].
      change (lastAddr w1) with (lastAddr w).
      change (lastSession w1) with (lastSession w).
      rewrite bool_decide_true by done. step. cbn [negb]. rewrite Hls.
      erewrite on_session_Ok; [|exact Hs|exact Hin]. reflexivity. }
    unfold monitor. by step_with Hp.
  - cbn [heap listener set_heap set_glob set_listener sessions set_sessions
         chAccepts w1].
    split; [done|]. split; [apply lookup_delete_eq | done].
Qed.

(** ** Closing the listener *)

(** [Listener.Close] closes [die] and the carrier and returns the carrier's
    result; the accepted sessions, the map and the accept queue are left as
    they were. From then on [monitor] returns when it sees [die], and
    [AcceptKCP] returns the broken-pipe error on it. A second
    [Listener.Close] panics, [die] being closed already. *)
Theorem Listener_Close_once (w : World) :
  l_die (listener w) = false ->
  exists w1,
    l_Close w = Ok ((conn_Close (net (glob w)) (l_conn (listener w))).2, w1)
    /\ heap w1 = heap w
    /\ sessions (listener w1) = sessions (listener w)
    /\ chAccepts (listener w1) = chAccepts (listener w)
    /\ trace (glob w1) = trace (glob w) ++ [ConnClose (l_conn (listener w))]
    /\ monitor InDie w1 = Ok (false, w1)
    /\ AcceptKCP AcceptDie w1
       = Ok ((None, Some (errors_New errBrokenPipe)), w1)
    /\ l_Close w1 = Panic w1.
Proof.
  intros Hopen. unfold l_Close at 1. step. rewrite Hopen. step. step.
  cbn [listener glob set_listener set_l_die l_conn].
  destruct (conn_Close (net (glob w)) (l_conn (listener w))) as [net' err].
  step. eexists. split; [reflexivity|].
  cbn [heap listener glob set_glob set_listener sessions chAccepts set_l_die
       trace emitG set_trace set_net l_conn].
  repeat (split; [reflexivity|]).
  reflexivity.
Qed.

(** * The datagrams of [output] *)

Lemma session_eq_nonce (s s' : UDPSession) :
  set_nonce (nonce s) s' = s ->
  conn s' = conn s /\ remote s' = remote s /\ dup s' = dup s
  /\ ext s' = ext s /\ headerSize s' = headerSize s.
Proof. intros <-. by destruct s'. Qed.

Lemma set_nonce_back (n : Entropy) (s s' : UDPSession) :
  set_nonce (nonce (set_nonce n s)) s' = set_nonce n s ->
  set_nonce (nonce s) s' = s.
Proof.
  destruct s, s'. cbn. intros H. by simplify_eq.
Qed.

(** Step 0 of [output], when the buffer has room. *)
Lemma output_stage0 (s : UDPSession) (g : Glob) (buf : bytes) :
  session_wf s ->
  (0 < headerSize s -> headerSize s + len buf <= mtuLimit) ->
  (if bool_decide (headerSize s > 0) then
     let* e := try (slice_to (ext s) (int_add (headerSize s) (len buf))) in
     let* tail := try (slice_from e (headerSize s)) in
     ret (take (Z.to_nat (headerSize s)) e ++ fst (copy tail buf))
   else ret buf) (s, g)
  = Ok (extended s buf, (s, g))
  /\ len (extended s buf) = headerSize s + len buf.
Proof.
  intros Hwf Hfit. pose proof (session_wf_nonneg s Hwf) as H0.
  destruct (decide (0 < headerSize s)) as [Hpos|Hz].
  - apply output_extend; [done | by apply Hfit].
  - unfold extended. rewrite bool_decide_false by lia. split; [done | lia].
Qed.

(** Step 0 of [output], when the buffer has no room. *)
Lemma output_stage0_panics (s : UDPSession) (g : Glob) (buf : bytes) :
  session_wf s -> len buf <= int_max ->
  0 < headerSize s -> mtuLimit < headerSize s + len buf ->
  (if bool_decide (headerSize s > 0) then
     let* e := try (slice_to (ext s) (int_add (headerSize s) (len buf))) in
     let* tail := try (slice_from e (headerSize s)) in
     ret (take (Z.to_nat (headerSize s)) e ++ fst (copy tail buf))
   else ret buf) (s, g)
  = Panic (s, g).
Proof.
  intros Hwf Hint Hpos Hlong.
  pose proof (session_wf_range s Hwf) as [_ Hhi].
  destruct Hwf as [_ Hext]. specialize (Hext Hpos).
  rewrite bool_decide_true by lia.
  assert (Hnone : slice_to (ext s) (int_add (headerSize s) (len buf)) = None).
  { unfold slice_to. rewrite bool_decide_false; [done|].
    rewrite Hext. unfold int_add, wrap_int, int_max, mtuLimit in *.
    destruct (decide (headerSize s + len buf < 2 ^ 63)) as [Hsmall|Hbig].
    - rewrite Z.mod_small by lia. lia.
    - replace (headerSize s + len buf + 2 ^ 63)
        with (headerSize s + len buf - 2 ^ 63 + 1 * 2 ^ 64) by lia.
      rewrite Z.mod_add by lia. rewrite Z.mod_small by lia. lia. }
  rewrite Hnone. reflexivity.
Qed.

(** Sealing a buffer that has no room for the crypto header panics. *)
Lemma seal_short (blk : BlockCrypt) (b : bytes) (s : UDPSession) (g : Glob) :
  len b < cryptHeaderSize ->
  exists s', seal blk b (s, g) = Panic (s', g) /\ set_nonce (nonce s) s' = s.
Proof.
  unfold cryptHeaderSize, nonceSize, crcSize. intros Hlen.
  unfold seal, cryptHeaderSize, nonceSize, crcSize.
  destruct (decide (len b < 16)) as [H16|H16].
  - exists s. unfold slice_to. rewrite bool_decide_false by lia.
    split; [reflexivity | by destruct s].
  - assert (Hb : 0 <= len b) by (unfold len; lia).
    rewrite (slice_to_Some b 16) by lia. unfold try at 1. step. step.
    destruct (nonce_Fill (nonce s)) as [e' r] eqn:Hfill. step.
    set (b1 := (copy (take (Z.to_nat 16) b) r).1 ++ drop (length (take (Z.to_nat 16) b)) b).
    assert (Hb1 : len b1 = len b).
    { unfold b1, len. rewrite length_app, length_fst_copy, length_drop.
      rewrite length_take. unfold len in *. lia. }
    exists (set_nonce e' s). unfold slice_from at 1.
    rewrite bool_decide_false by lia.
    split; [reflexivity | by destruct s].
Qed.

(** The loop that seals the parity shards, when each has room for the
    crypto header. *)
Lemma seal_each_Ok (blk : BlockCrypt) (ecc : list bytes) :
  Forall (fun p => cryptHeaderSize <= len p) ecc ->
  forall (done : list bytes) (s : UDPSession) (g : Glob),
  exists s',
    for_range ecc done
      (fun done shard => let* sh := seal blk shard in ret (done ++ [sh])) (s, g)
    = Ok (done ++ seal_each blk (nonce s) ecc, (s', g))
    /\ set_nonce (nonce s) s' = s.
Proof.
  induction 1 as [|p ecc Hp _ IH]; intros done s g.
  - exists s. cbn [for_range seal_each]. rewrite app_nil_r.
    split; [reflexivity | by destruct s].
  - cbn [for_range seal_each]. rewrite bind_assoc.
    erewrite bind_Ok by (by apply seal_sealed). cbn [fst snd]. step.
    destruct (IH (done ++ [sealed blk (nonce_Fill (nonce s)).2 p])
                (set_nonce (nonce_Fill (nonce s)).1 s) g) as (s' & Hrun & Hs').
    exists s'. rewrite Hrun. cbn [nonce set_nonce]. rewrite <- app_assoc.
    split; [reflexivity|]. by apply set_nonce_back in Hs'.
Qed.

(** The same loop, when a shard has no room for it. *)
Lemma seal_each_panics (blk : BlockCrypt) (ecc : list bytes) :
  Exists (fun p => len p < cryptHeaderSize) ecc ->
  forall (done : list bytes) (s : UDPSession) (g : Glob),
  exists s',
    for_range ecc done
      (fun done shard => let* sh := seal blk shard in ret (done ++ [sh])) (s, g)
    = Panic (s', g)
    /\ set_nonce (nonce s) s' = s.
Proof.
  induction ecc as [|p ecc IH]; intros Hex done s g.
  - by apply Exists_nil in Hex.
  - cbn [for_range]. rewrite bind_assoc.
    destruct (decide (len p < cryptHeaderSize)) as [Hshort|Hlong].
    + destruct (seal_short blk p s g Hshort) as (s' & Hp & Hs').
      exists s'. by erewrite bind_Panic by exact Hp.
    + apply Exists_cons in Hex as [Hex|Hex]; [done|].
      erewrite bind_Ok by (apply seal_sealed; lia). cbn [fst snd]. step.
      destruct (IH Hex (done ++ [sealed blk (nonce_Fill (nonce s)).2 p])
                  (set_nonce (nonce_Fill (nonce s)).1 s) g) as (s' & Hrun & Hs').
      exists s'. split; [exact Hrun|]. by apply set_nonce_back in Hs'.
Qed.

Lemma session_eq_fecEncoder (s s' : UDPSession) :
  set_fecEncoder (fecEncoder s) s' = s ->
  conn s' = conn s /\ remote s' = remote s /\ dup s' = dup s
  /\ ext s' = ext s /\ headerSize s' = headerSize s /\ nonce s' = nonce s
  /\ block s' = block s.
Proof. intros <-. by destruct s'. Qed.

Lemma datagrams_emit (e : Event) (g : Glob) :
  (if e is ConnWriteTo _ _ _ then False else True) ->
  datagrams (trace (emitG e g)) = datagrams (trace g).
Proof.
  intros He. cbn [trace emitG set_trace]. rewrite datagrams_app.
  destruct e; try done; apply app_nil_r.
Qed.

Lemma datagrams_writes_map {A} (c : ConnId) (a : Addr) (f : A -> bytes)
    (xs : list A) :
  datagrams ((fun x => ConnWriteTo c (f x) a) <$> xs) = f <$> xs.
Proof.
  rewrite (list_fmap_compose f (fun b => ConnWriteTo c b a)).
  apply datagrams_writes.
Qed.

(** Step 1 of [output]. *)
Lemma output_stage1 (s : UDPSession) (g : Glob) (buf : bytes) :
  exists s1 g1,
    (match fecEncoder s with
     | Some enc =>
         let '(enc', marked, ecc) := fec_encode enc (extended s buf) in
         emit (FecEncode (extended s buf)) ;;;
         modS (set_fecEncoder (Some enc')) ;;;
         ret (fst (copy (extended s buf) marked), ecc)
     | None => ret (extended s buf, [])
     end) (s, g) = Ok ((marked s buf, parity s buf), (s1, g1))
    /\ set_fecEncoder (fecEncoder s) s1 = s
    /\ datagrams (trace g1) = datagrams (trace g).
Proof.
  unfold marked, parity. destruct (fecEncoder s) as [enc|] eqn:Henc.
  - destruct (fec_encode enc (extended s buf)) as [[enc' mk] ecc].
    exists (set_fecEncoder (Some enc') s), (emitG (FecEncode (extended s buf)) g).
    split; [reflexivity|]. split.
    + rewrite <- Henc. by destruct s.
    + by apply datagrams_emit.
  - exists s, g. split; [reflexivity|]. split; [|done].
    rewrite <- Henc. by destruct s.
Qed.

(** C9, as amended. On a session as [newUDPSession] makes it, with
    [dup = d] and [0 <= d < MaxInt], a call of [output] returns when the
    buffer has room behind the additional header and, with a cipher, each
    parity shard of the encoder has room for the crypto header; the
    datagrams it has then handed to the carrier are, in this order and no
    others, [d+1] copies of the data datagram and one copy of each parity
    datagram, in the order of the encoder. When the buffer or a shard has no
    room, the call panics and has written nothing. The data datagram is the
    buffer behind the additional header, marked by the encoder and sealed;
    the parity datagrams are the encoder's shards, sealed. *)
Theorem output_writes (s : UDPSession) (g : Glob) (buf : bytes) :
  session_wf s -> 0 <= dup s < int_max -> len buf <= int_max ->
  ((0 < headerSize s -> headerSize s + len buf <= mtuLimit) ->
   (is_Some (block s) ->
    Forall (fun p => cryptHeaderSize <= len p) (parity s buf)) ->
   exists st',
     output buf (s, g) = Ok (tt, st')
     /\ datagrams (trace st'.2)
        = datagrams (trace g)
          ++ replicate (Z.to_nat (dup s + 1)) (data_datagram s buf)
          ++ parity_datagrams s buf)
  /\ ((0 < headerSize s /\ mtuLimit < headerSize s + len buf)
      \/ (is_Some (block s)
          /\ Exists (fun p => len p < cryptHeaderSize) (parity s buf)) ->
      exists st',
        output buf (s, g) = Panic st'
        /\ datagrams (trace st'.2) = datagrams (trace g)).
Proof.
  intros Hwf Hdup Hint.
  pose proof (session_wf_range s Hwf) as Hrange.
  destruct (output_stage1 s g buf) as (s1 & g1 & Hfec & Hs1 & Hd1).
  destruct (session_eq_fecEncoder _ _ Hs1)
    as (Hc1 & Hr1 & Hdup1 & He1 & Hh1 & Hn1 & Hb1).
  assert (Hlm : len (marked s buf) = len (extended s buf)).
  { unfold marked. destruct (fecEncoder s); [apply len_fst_copy | done]. }
  (* the write loops, from the state the sealing leaves *)
  assert (Hwrites : forall (s2 : UDPSession),
    conn s2 = conn s -> remote s2 = remote s ->
    exists st',
      (when (bool_decide (headerSize s > 0))
            (modS (fun s0 => set_ext (fst (copy (ext s0) (data_datagram s buf))) s0)) ;;;
       let* acc := for_lt (int_add (dup s) 1) (0, 0)
                     (fun acc _ => write_counted (data_datagram s buf) acc) in
       let* '(nbytes, npkts) :=
         for_range (parity_datagrams s buf) acc
           (fun acc shard => write_counted shard acc) in
       atomic_Add OutPkts (to_uint64 npkts) ;;;
       atomic_Add OutBytes (to_uint64 nbytes)) (s2, g1)
      = Ok (tt, st')
      /\ datagrams (trace st'.2)
         = datagrams (trace g)
           ++ replicate (Z.to_nat (dup s + 1)) (data_datagram s buf)
           ++ parity_datagrams s buf).
  { intros s2 Hc2 Hr2.
    set (pkt := data_datagram s buf). set (shards := parity_datagrams s buf).
    set (s3 := if bool_decide (headerSize s > 0)
               then set_ext (fst (copy (ext s2) pkt)) s2 else s2).
    assert (Hwb : when (bool_decide (headerSize s > 0))
                    (modS (fun s0 => set_ext (fst (copy (ext s0) pkt)) s0)) (s2, g1)
                  = Ok (tt, (s3, g1))).
    { unfold s3. by destruct (bool_decide (headerSize s > 0)). }
    assert (Hc3 : conn s3 = conn s /\ remote s3 = remote s).
    { unfold s3. destruct (bool_decide (headerSize s > 0)); simpl; by split. }
    destruct Hc3 as [Hc3 Hr3].
    unfold int_add at 1.
    rewrite wrap_int_id by (unfold int_min, int_max in *; lia).
    unfold for_lt.
    destruct (write_loop_Ok (fun _ : Z => pkt) (seqZ 0 (dup s + 1)) (0, 0) s3 g1)
      as (acc1 & g2 & Hw1 & Ht1 & _ & _).
    destruct (write_loop_Ok (fun b : bytes => b) shards acc1 s3 g2)
      as ([nbytes npkts] & g3 & Hw2 & Ht2 & _ & _).
    eexists. split.
    - step_with Hwb. step_with Hw1. step_with Hw2. by step.
    - cbn [snd trace set_snmp]. rewrite Ht2, Ht1, !datagrams_app, Hd1.
      rewrite !datagrams_writes_map, list_fmap_id.
      rewrite fmap_const_length, length_seqZ.
      by rewrite app_assoc. }
  split.
  - (* the buffer and the shards have room *)
    intros Hfit Hecc.
    destruct (output_stage0 s g buf Hwf Hfit) as [Hext Hlen0].
    assert (Hseal : exists s2,
      (match block s with
       | Some blk =>
           let* e := seal blk (marked s buf) in
           let* ecc' := for_range (parity s buf) []
                          (fun done shard =>
                             let* sh := seal blk shard in ret (done ++ [sh])) in
           ret (e, ecc')
       | None => ret (marked s buf, parity s buf)
       end) (s1, g1)
      = Ok ((data_datagram s buf, parity_datagrams s buf), (s2, g1))
      /\ conn s2 = conn s /\ remote s2 = remote s).
    { unfold data_datagram, parity_datagrams.
      destruct (block s) as [blk|] eqn:Hblk.
      - assert (Hl : cryptHeaderSize <= len (marked s buf)).
        { rewrite Hlm, Hlen0. assert (0 <= len buf) by (unfold len; lia). lia. }
        destruct (seal_each_Ok blk (parity s buf) (Hecc ltac:(eauto)) []
                    (set_nonce (nonce_Fill (nonce s1)).1 s1) g1)
          as (s2 & Hall & Hs2).
        destruct (session_eq_nonce _ _ Hs2) as (Hc2 & Hr2 & _).
        exists s2. rewrite <- Hn1. split.
        + erewrite bind_Ok by (by apply seal_sealed). cbn [fst snd].
          step_with Hall. reflexivity.
        + cbn [conn remote set_nonce] in Hc2, Hr2. split; congruence.
      - exists s1. by split. }
    destruct Hseal as (s2 & Hseal & Hc2 & Hr2).
    destruct (Hwrites s2 Hc2 Hr2) as (st' & Hw & Hd).
    exists st'. split; [|exact Hd].
    unfold output. step. step_with Hext. step_with Hfec. step_with Hseal.
    exact Hw.
  - (* no room *)
    intros Hbad.
    destruct (decide (0 < headerSize s /\ mtuLimit < headerSize s + len buf))
      as [[Hpos Hlong]|Hfit].
    + exists (s, g). split; [|done].
      unfold output. step.
      by erewrite bind_Panic by (by apply output_stage0_panics).
    + destruct Hbad as [Hbad | [[blk Hblk] Hshort]]; [done|].
      destruct (output_stage0 s g buf Hwf ltac:(lia)) as [Hext Hlen0].
      assert (Hl : cryptHeaderSize <= len (marked s buf)).
      { rewrite Hlm, Hlen0. rewrite Hblk in Hrange.
        assert (0 <= len buf) by (unfold len; lia). lia. }
      destruct (seal_each_panics blk (parity s buf) Hshort []
                  (set_nonce (nonce_Fill (nonce s1)).1 s1) g1)
        as (s2 & Hall & _).
      exists (s2, g1). split; [|exact Hd1].
      unfold output. step. step_with Hext. step_with Hfec. rewrite Hblk.
      rewrite !bind_assoc.
      erewrite bind_Ok by (by apply seal_sealed). cbn [fst snd].
      rewrite !bind_assoc. by erewrite bind_Panic by exact Hall.
Qed.

(** * Admission of sessions by [monitor] *)

Lemma zoom_Panic {S T A} (proj : S -> T) (inj : T -> S -> S) (m : M T A)
    (s : S) (t' : T) :
  m (proj s) = Panic t' -> zoom proj inj m s = Panic (inj t' s).
Proof. intros H. unfold zoom. by rewrite H. Qed.

Lemma zoom_Stuck {S T A} (proj : S -> T) (inj : T -> S -> S) (m : M T A)
    (s : S) (t' : T) :
  m (proj s) = Stuck t' -> zoom proj inj m s = Stuck (inj t' s).
Proof. intros H. unfold zoom. by rewrite H. Qed.

(** A method called on a session, however it ends, leaves the listener and
    the set of sessions as they were. *)
Lemma on_session_final {A} (p : option positive) (m : SM A) (w : World) :
  listener (final (on_session p m w)) = listener w
  /\ dom (heap (final (on_session p m w))) = dom (heap w).
Proof.
  unfold on_session. destruct p as [sid|]; cbn [mbind option_bind default];
    [|done].
  destruct (heap w !! sid) as [s|] eqn:Hs; [|done].
  destruct (m (s, glob w)) as [[a st]|st|st];
    cbn [final snd listener heap set_heap set_glob];
    (split; [done | by rewrite dom_insert_lookup_L by eauto]).
Qed.

(** Reading the conversation id changes nothing, and yields an id only
    under the conditions of [monitor_conv]. *)
Lemma monitor_conv_inv (fec : option FecDec) (payload : bytes) (w : World) :
  let m : LM (option Z) :=
    match fec with
    | Some _ =>
        let* isfec := try (slice_from payload 4 ≫= LittleEndian.Uint16) in
        if bool_decide (isfec = typeData) then
          let* c := try (slice_from payload fecHeaderSizePlus2
                         ≫= LittleEndian.Uint32) in
          ret (Some c)
        else ret None
    | None =>
        let* c := try (LittleEndian.Uint32 payload) in ret (Some c)
    end in
  final (m w) = w
  /\ forall conv w1, m w = Ok (Some conv, w1) ->
       (fec = None /\ LittleEndian.Uint32 payload = Some conv)
       \/ (is_Some fec
           /\ LittleEndian.Uint16 (drop 4 payload) = Some typeData
           /\ LittleEndian.Uint32 (drop 8 payload) = Some conv).
Proof.
  cbv zeta. destruct fec as [dec|].
  - unfold slice_from.
    destruct (bool_decide (0 <= 4 <= len payload)); [|by split].
    cbn [mbind option_bind]. change (Z.to_nat 4) with 4%nat.
    destruct (LittleEndian.Uint16 (drop 4 payload)) as [isfec|] eqn:Hfl;
      [|by split].
    unfold try at 1 3. step.
    destruct (bool_decide (isfec = typeData)) eqn:Hisfec; [|by split].
    apply bool_decide_eq_true in Hisfec. subst isfec.
    destruct (bool_decide (0 <= fecHeaderSizePlus2 <= len payload));
      [|by split].
    cbn [mbind option_bind]. change (Z.to_nat fecHeaderSizePlus2) with 8%nat.
    destruct (LittleEndian.Uint32 (drop 8 payload)) as [c|] eqn:Hcv;
      [|by split].
    unfold try. step. split; [done|]. intros conv w1 [= <- _].
    right. eauto.
  - destruct (LittleEndian.Uint32 payload) as [c|] eqn:Hcv; [|by split].
    unfold try. step. split; [done|]. intros conv w1 [= <- _]. by left.
Qed.

(** What a pass of [monitor] over a datagram leaves behind, however it
    ends: either the listener and the set of sessions are as before, or a
    session was made, and then under the conditions listed; the listener is
    then as before (the first input of the session did not return) or has
    the session in its map and at the end of its accept queue. *)
Lemma monitor_packet_final (from : Addr) (data : bytes) (w : World) :
  (listener (final (monitor_packet from data w)) = listener w
   /\ dom (heap (final (monitor_packet from data w))) = dom (heap w))
  \/ exists (payload : bytes) (g1 : Glob) (conv : Z) (sid : positive)
            (evs : list Event),
       open_datagram (l_block (listener w)) data (glob w)
       = Ok ((payload, true), g1)
       /\ from <> lastAddr w
       /\ sessions (listener w) !! from = None
       /\ len (chan_buf (chAccepts (listener w)))
          < chan_cap (chAccepts (listener w))
       /\ ((l_fecDecoder (listener w) = None
            /\ LittleEndian.Uint32 payload = Some conv)
           \/ (is_Some (l_fecDecoder (listener w))
               /\ LittleEndian.Uint16 (drop 4 payload) = Some typeData
               /\ LittleEndian.Uint32 (drop 8 payload) = Some conv))
       /\ heap w !! sid = None
       /\ dom (heap (final (monitor_packet from data w)))
          = {[sid]} ∪ dom (heap w)
       /\ trace (glob (final (monitor_packet from data w)))
          = trace (glob w) ++ KcpNew conv :: evs
       /\ (listener (final (monitor_packet from data w)) = listener w
           \/ listener (final (monitor_packet from data w))
              = set_chAccepts
                  (mkChan (chan_buf (chAccepts (listener w)) ++ [sid])
                          (chan_cap (chAccepts (listener w))))
                  (set_sessions (<[from := sid]> (sessions (listener w)))
                                (listener w))).
Proof.
  unfold monitor_packet. step.
  destruct (open_datagram (l_block (listener w)) data (glob w))
    as [[[payload valid] g1]|g1|g1] eqn:Hopen.
  2:{ left. by erewrite bind_Panic by (apply zoom_Panic; exact Hopen). }
  2:{ left. by erewrite bind_Stuck by (apply zoom_Stuck; exact Hopen). }
  erewrite bind_Ok by (apply zoom_Ok; exact Hopen). cbn [fst snd].
  apply open_datagram_trace in Hopen as Htr1.
  destruct valid; cbn [when]; [|by left].
  cbn [lastAddr lastSession listener set_glob].
  destruct (bool_decide (from = lastAddr w)) eqn:Hla.
  { (* the cached session *)
    left. step. cbn [negb].
    apply (on_session_final (lastSession w) (kcpInput payload) (set_glob g1 w)). }
  apply bool_decide_eq_false in Hla.
  destruct (sessions (listener w) !! from) as [s|] eqn:Hns.
  { (* a session of the map *)
    left. step. cbn [negb].
    apply (on_session_final (Some s) (kcpInput payload)
             (set_last from (Some s) (set_glob g1 w))). }
  step. cbn [negb].
  destruct (bool_decide (len (chan_buf (chAccepts (listener w)))
                         < chan_cap (chAccepts (listener w)))) eqn:Hroom;
    cbn [when]; [|by left].
  apply bool_decide_eq_true in Hroom.
  destruct (monitor_conv_inv (l_fecDecoder (listener w)) payload (set_glob g1 w))
    as [Hsame Hconv].
  cbv zeta in Hsame, Hconv.
  match type of Hsame with final (?m _) = _ => set (rd := m) in * end.
  destruct (rd (set_glob g1 w)) as [[[conv|] w3]|w3|w3] eqn:Hrd;
    cbn [final snd] in Hsame; subst w3.
  2:{ left. by step_with Hrd. }
  2:{ left. by erewrite bind_Panic by exact Hrd. }
  2:{ left. by erewrite bind_Stuck by exact Hrd. }
  specialize (Hconv conv _ eq_refl).
  step_with Hrd.
  (* the new session *)
  destruct (newUDPSession_Ok conv (l_dataShards (listener w))
              (l_parityShards (listener w)) (Some (self w))
              (l_conn (listener w)) from (l_block (listener w)) g1)
    as (s_new & g2 & Hmk & [mtu Htr2] & _).
  erewrite bind_Ok by (apply zoom_Ok; cbn [glob set_glob]; exact Hmk).
  cbn [fst snd]. unfold alloc. step. cbn [heap set_glob].
  set (sid := fresh (dom (heap w))).
  assert (Hfresh : heap w !! sid = None).
  { apply not_elem_of_dom. apply is_fresh. }
  destruct (kcpInput_grows payload (s_new, g2)) as [evs Htr3].
  cbn [fst snd] in Htr3.
  right. exists payload, g1, conv, sid, (KcpSetMtu mtu :: UpdaterAdd :: evs).
  do 6 (split; [done|]).
  set (w4 := set_heap (<[sid:=s_new]> (heap w)) (set_glob g2 (set_glob g1 w))).
  assert (Hs4 : heap w4 !! sid = Some s_new) by apply lookup_insert_eq.
  assert (Htr : trace (final (kcpInput payload (s_new, g2))).2
                = trace (glob w) ++ KcpNew conv :: KcpSetMtu mtu :: UpdaterAdd :: evs).
  { rewrite Htr3, Htr2, Htr1, <- app_assoc. reflexivity. }
  assert (Hon : forall r, on_session (Some sid) (kcpInput payload) w4 = r ->
            dom (heap (final r)) = {[sid]} ∪ dom (heap w)
            /\ trace (glob (final r))
               = trace (glob w) ++ KcpNew conv :: KcpSetMtu mtu :: UpdaterAdd :: evs
            /\ listener (final r) = listener w).
  { intros r <-. unfold on_session. cbn [mbind option_bind default].
    rewrite Hs4. subst w4. cbn [mbind option_bind glob set_heap set_glob].
    destruct (kcpInput payload (s_new, g2)) as [[a [s' g3]]|[s' g3]|[s' g3]].
    all: cbn [final fst snd heap glob listener set_heap set_glob] in *.
    all: rewrite insert_insert_eq, dom_insert_L; by repeat split. }
  destruct (Hon _ eq_refl) as (Hd & Ht & Hl). clear Hon.
  destruct (on_session (Some sid) (kcpInput payload) w4)
    as [[[] w5]|w5|w5] eqn:Hrun; cbn [final snd] in Hd, Ht, Hl.
  - step_with Hrun. step.
    set (w6 := set_listener _ w5).
    assert (Hsend : send_chAccepts sid w6
              = Ok (tt, set_listener
                          (set_chAccepts
                             (mkChan (chan_buf (chAccepts (listener w6)) ++ [sid])
                                     (chan_cap (chAccepts (listener w6))))
                             (listener w6)) w6)).
    { unfold send_chAccepts. step.
      rewrite bool_decide_true; [reflexivity|].
      unfold w6. cbn [listener set_listener chAccepts set_sessions].
      by rewrite Hl. }
    rewrite Hsend. unfold w6.
    cbn [final snd heap glob listener set_listener chAccepts set_sessions].
    rewrite Hl. split; [done|]. split; [done|]. by right.
  - erewrite bind_Panic by exact Hrun. cbn [final]. by repeat split; try left.
  - erewrite bind_Stuck by exact Hrun. cbn [final]. by repeat split; try left.
Qed.

(** From an address without session, while the accept queue is full, a
    datagram is dropped: the pass returns, and nothing but what opening the
    datagram counted has changed. *)
Lemma monitor_packet_full (from : Addr) (data payload : bytes) (valid : bool)
    (w : World) (g1 : Glob) :
  open_datagram (l_block (listener w)) data (glob w)
  = Ok ((payload, valid), g1) ->
  from <> lastAddr w ->
  sessions (listener w) !! from = None ->
  chan_cap (chAccepts (listener w)) <= len (chan_buf (chAccepts (listener w))) ->
  monitor_packet from data w = Ok (tt, set_glob g1 w).
Proof.
  intros Hopen Hla Hns Hfull. unfold monitor_packet. step.
  erewrite bind_Ok by (apply zoom_Ok; exact Hopen). cbn [fst snd].
  destruct valid; cbn [when]; [|done].
  cbn [lastAddr lastSession listener set_glob].
  rewrite bool_decide_false by done. rewrite Hns. step. cbn [negb].
  by rewrite bool_decide_false by lia.
Qed.

(** ** The accept queue *)

Lemma accept_ok_step (w w' : World) :
  accept_ok (listener w) -> lstep w w' -> accept_ok (listener w').
Proof.
  intros [Hcap Hlen] Hstep. destruct Hstep as [i w|a w|w w' Ho].
  - destruct i as [from data|deadlink|]; unfold monitor.
    + rewrite final_bind_ret.
      destruct (monitor_packet_final from data w)
        as [[-> _] | (payload & g1 & conv & sid & evs & _ & _ & _ & Hroom & _
                      & _ & _ & _ & [-> | ->])].
      * by split.
      * by split.
      * split; [done|]. cbn [chAccepts set_chAccepts chan_buf].
        unfold len in *. rewrite length_app. simpl. lia.
    + by split.
    + step. by destruct (l_die (listener w)).
  - unfold AcceptKCP. step. destruct a.
    + by destruct (negb (Time_IsZero (l_rd (listener w)))).
    + destruct (chan_buf (chAccepts (listener w))) as [|c rest] eqn:Hbuf.
      * split; [done|]. cbn [final stuck]. by rewrite Hbuf.
      * step. split; [done|].
        cbn [final snd ret listener set_listener chAccepts set_chAccepts chan_buf].
        unfold len in *. simpl in Hlen. lia.
    + by destruct (l_die (listener w)).
  - unfold accept_ok. rewrite Ho. by split.
Qed.

Lemma serving_accept_ok (w : World) : serving w -> accept_ok (listener w).
Proof.
  induction 1 as [blk ds ps c w Hl | w w' _ IH Hstep].
  - rewrite Hl. apply ServeConn_accept_ok.
  - by apply (accept_ok_step w w').
Qed.

(** The passes of [monitor] over [ins], one after the other, keep a
    listener among the states of a listener made by [ServeConn]. *)
Lemma serving_passes (ins : list MonitorIn) :
  forall w, serving w ->
    serving (foldl (fun w i => final (monitor i w)) w ins).
Proof.
  induction ins as [|i ins IH]; intros w Hw; [done|].
  cbn [foldl]. apply IH. apply (serving_step w); [done|]. apply lstep_monitor.
Qed.

(** C3. In every state a listener made by [ServeConn] goes through, whether
    the passes of [monitor] before it returned or not, the accept queue
    holds at most 128 sessions. A pass of [monitor] over a datagram, however
    it ends, makes a session only if the datagram passes the checksum test,
    its peer address has no session (it is not the cached address and not in
    the map), the accept queue holds fewer than 128 sessions, and the
    conversation id the core is created with is read from the decrypted
    payload at offset 0 if the listener has no FEC decoder, and at offset 8
    with the flag field (offset 4) equal to [typeData] if it has one; it
    then makes one session. While the accept queue holds 128 sessions, a
    datagram from an address without session is dropped: the pass returns
    and has made no session, made no call and left listener and sessions as
    they were. A datagram whose flag field is [typeFEC] makes no session
    and leaves the listener as it was. *)
Theorem monitor_admission (w : World) :
  serving w ->
  len (chan_buf (chAccepts (listener w))) <= 128
  /\ forall (from : Addr) (data : bytes),
       (dom (heap (final (monitor_packet from data w))) <> dom (heap w) ->
        exists (payload : bytes) (g1 : Glob) (conv : Z) (sid : positive)
               (evs : list Event),
          open_datagram (l_block (listener w)) data (glob w)
          = Ok ((payload, true), g1)
          /\ from <> lastAddr w
          /\ sessions (listener w) !! from = None
          /\ len (chan_buf (chAccepts (listener w))) < 128
          /\ heap w !! sid = None
          /\ dom (heap (final (monitor_packet from data w)))
             = {[sid]} ∪ dom (heap w)
          /\ trace (glob (final (monitor_packet from data w)))
             = trace (glob w) ++ KcpNew conv :: evs
          /\ (l_fecDecoder (listener w) = None
              /\ LittleEndian.Uint32 payload = Some conv
              \/ is_Some (l_fecDecoder (listener w))
                 /\ LittleEndian.Uint16 (drop 4 payload) = Some typeData
                 /\ LittleEndian.Uint32 (drop 8 payload) = Some conv))
       /\ (len (chan_buf (chAccepts (listener w))) = 128 ->
           from <> lastAddr w ->
           sessions (listener w) !! from = None ->
           forall (payload : bytes) (valid : bool) (g1 : Glob),
             open_datagram (l_block (listener w)) data (glob w)
             = Ok ((payload, valid), g1) ->
             monitor_packet from data w = Ok (tt, set_glob g1 w)
             /\ trace g1 = trace (glob w))
       /\ (is_Some (l_fecDecoder (listener w)) ->
           forall (payload : bytes) (valid : bool) (g1 : Glob),
             open_datagram (l_block (listener w)) data (glob w)
             = Ok ((payload, valid), g1) ->
             LittleEndian.Uint16 (drop 4 payload) = Some typeFEC ->
             dom (heap (final (monitor_packet from data w))) = dom (heap w)
             /\ listener (final (monitor_packet from data w)) = listener w)
       /\ len (chan_buf (chAccepts (listener (final (monitor_packet from data w)))))
          <= 128.
Proof.
  intros Hserving.
  destruct (serving_accept_ok w Hserving) as [Hcap Hlen].
  unfold acceptBacklog in *. split; [done|].
  intros from data.
  assert (Hlen' : len (chan_buf (chAccepts
                    (listener (final (monitor_packet from data w))))) <= 128).
  { rewrite <- (final_bind_ret (monitor_packet from data) true w).
    apply (serving_accept_ok (final (monitor (InPacket from data) w))).
    apply (serving_step w); [done|]. apply lstep_monitor. }
  split; [|split; [|split; [|done]]].
  - intros Hgrew.
    destruct (monitor_packet_final from data w)
      as [[_ Hd] | (payload & g1 & conv & sid & evs & Hopen & Hla & Hns & Hroom
                    & Hconv & Hfresh & Hd & Htr & _)]; [done|].
    exists payload, g1, conv, sid, evs. rewrite Hcap in Hroom.
    by repeat (split; [done|]).
  - intros Hfull Hla Hns payload valid g1 Hopen. split.
    + apply (monitor_packet_full from data payload valid w g1); try done. lia.
    + by apply open_datagram_trace in Hopen.
  - intros [dec Hdec] payload valid g1 Hopen Hflag.
    destruct (monitor_packet_final from data w)
      as [[Hl Hd] | (payload' & g1' & conv & sid & evs & Hopen' & _ & _ & _
                     & Hconv & _)]; [done|].
    rewrite Hopen in Hopen'. injection Hopen' as <- _ _.
    destruct Hconv as [[Hnone _] | (_ & Hdata & _)]; [congruence|].
    rewrite Hflag in Hdata. discriminate Hdata.
Qed.

Lemma set_glob_glob (w : World) : set_glob (glob w) w = w.
Proof. by destruct w. Qed.

End Properties.

Section Examples.

#[local] Existing Instance demo.

Lemma Close_then_broken_pipe_witness :
  exists s1 g1,
    Close (demo_client, demo_glob)
    = Ok (if l demo_client is None
          then snd (conn_Close (net demo_glob) (conn demo_client)) else None,
          (s1, g1))
    /\ isClosed s1 = true
    /\ forall (s2 : UDPSession) (g2 : Glob), isClosed s2 = true ->
         (exists g3, Close (s2, g2) = Ok (broken_pipe, (s2, g3)))
         /\ (forall sched b,
               Write sched b (s2, g2) = Ok (Return (0, broken_pipe), (s2, g2)))
         /\ (forall sched b, bufptr s2 = [] ->
               Read sched b (s2, g2) = Ok (Return (b, 0, broken_pipe), (s2, g2)))
         /\ (forall sched b, bufptr s2 <> [] ->
               exists s3,
                 Read sched b (s2, g2)
                 = Ok (Return (fst (copy b (bufptr s2)),
                               Z.of_nat (Nat.min (length b) (length (bufptr s2))),
                               None), (s3, g2))
                 /\ isClosed s3 = true
                 /\ bufptr s3
                    = drop (Nat.min (length b) (length (bufptr s2))) (bufptr s2)).
Proof.
  apply (Close_then_broken_pipe demo_client demo_glob); reflexivity.
Defined.

(** C1 as stated fails: closing a session whose carry buffer holds a byte
    and then reading returns that byte with a nil error, not the broken-pipe
    error. *)
Lemma Read_after_Close_returns_carry :
  ~ (forall (s : UDPSession) (g : Glob) r s1 g1 sched b,
       isClosed s = false -> die s = false ->
       Close (s, g) = Ok (r, (s1, g1)) ->
       exists b' n st,
         Read sched b (s1, g1) = Ok (Return (b', n, broken_pipe), st)).
Proof.
  intros H.
  destruct (is_Ok_inv (Close (demo_carry, demo_glob)))
    as (r & [s1 g1] & Hclose); [vm_compute; reflexivity|].
  assert (Hcarry : bufptr (final (Close (demo_carry, demo_glob))).1 <> [])
    by (vm_compute; discriminate).
  rewrite Hclose in Hcarry. cbn [final fst snd] in Hcarry.
  destruct (H demo_carry demo_glob r s1 g1 [] [x00] eq_refl eq_refl Hclose)
    as (b' & n & st & Hr).
  rewrite (Read_carry [] [x00] s1 g1 Hcarry) in Hr.
  injection Hr as _ _ Hnil _. discriminate Hnil.
Qed.

Lemma demo_corrupt_mismatch : crc_mismatch demo_cipher demo_corrupt.
Proof. intros H. vm_compute in H. discriminate H. Qed.

Lemma demo_crypto_client_wf : session_wf demo_crypto_client.
Proof. split; [by exists false | intros _; vm_compute; reflexivity]. Qed.

Lemma crc_mismatch_dropped_witness :
  (exists g',
     readLoop_packet demo_corrupt (demo_crypto_client, demo_glob)
     = Ok (tt, (demo_crypto_client, g'))
     /\ trace g' = trace demo_glob
     /\ snmp g' InCsumErrors = add_uint64 (snmp demo_glob InCsumErrors) 1
     /\ forall f, f <> InCsumErrors -> snmp g' f = snmp demo_glob f)
  /\ (exists g',
        monitor_packet "10.0.0.9" demo_corrupt demo_world
        = Ok (tt, set_glob g' demo_world)
        /\ trace g' = trace (glob demo_world)
        /\ snmp g' InCsumErrors
           = add_uint64 (snmp (glob demo_world) InCsumErrors) 1
        /\ forall f, f <> InCsumErrors -> snmp g' f = snmp (glob demo_world) f).
Proof.
  destruct (crc_mismatch_dropped demo_cipher demo_corrupt demo_corrupt_mismatch)
    as [Hsession Hlistener].
  split.
  - apply Hsession; [reflexivity | exact demo_crypto_client_wf | reflexivity].
  - apply Hlistener; [reflexivity | split; [by exists false|reflexivity] | reflexivity].
Defined.

Lemma demo_fec_client_wf : session_wf demo_fec_client.
Proof. split; [by exists true | intros _; vm_compute; reflexivity]. Qed.

(** C9 as stated fails at [dup = MaxInt]: [s.dup+1] wraps around to the
    least [int], the first write loop does not run, and the data datagram is
    not written at all. *)
Lemma output_dup_MaxInt_writes_nothing :
  ~ (forall (s : UDPSession) (g : Glob) (buf : bytes),
       session_wf s ->
       headerSize s + len buf <= mtuLimit ->
       (is_Some (block s) ->
        Forall (fun p => cryptHeaderSize <= len p) (parity s buf)) ->
       0 <= dup s ->
       exists (pkt : bytes) (shards : list bytes) (st' : UDPSession * Glob)
              (evs : list Event),
         output buf (s, g) = Ok (tt, st')
         /\ trace st'.2 = trace g ++ evs
         /\ datagrams evs = replicate (Z.to_nat (dup s + 1)) pkt ++ shards
         /\ len pkt = headerSize s + len buf
         /\ length shards = length (parity s buf)).
Proof.
  intros H.
  destruct (H (set_dup int_max demo_client) demo_glob demo_frame)
    as (pkt & shards & st' & evs & Hout & Htr & Hd & _).
  - split; [by exists false | intros Hpos; vm_compute in Hpos; discriminate Hpos].
  - vm_compute. discriminate.
  - intros [blk Hblk]. discriminate Hblk.
  - vm_compute. discriminate.
  - assert (Hrun : trace (final (output demo_frame
                                   (set_dup int_max demo_client, demo_glob))).2 = [])
      by (vm_compute; reflexivity).
    rewrite Hout in Hrun. cbn [final snd] in Hrun.
    rewrite Hrun in Htr. change (trace demo_glob) with (@nil Event) in Htr.
    destruct evs; [|discriminate Htr].
    change (datagrams []) with (@nil bytes) in Hd.
    assert (Hn : (0 < Z.to_nat (dup (set_dup int_max demo_client) + 1))%nat).
    { change (dup (set_dup int_max demo_client)) with int_max.
      unfold int_max. lia. }
    destruct (Z.to_nat (dup (set_dup int_max demo_client) + 1)); [lia|].
    discriminate Hd.
Qed.

Lemma short_output_discarded_witness :
  (kcp_output demo_frame 23 (demo_fec_client, demo_glob)
   = Ok (tt, (demo_fec_client, demo_glob))
   /\ datagrams (trace (final (kcp_output demo_frame 23
                                 (demo_fec_client, demo_glob))).2)
      = datagrams (trace demo_glob))
  /\ kcp_output demo_frame 24 (demo_fec_client, demo_glob)
     = output (take (Z.to_nat 24) demo_frame) (demo_fec_client, demo_glob).
Proof.
  destruct (short_output_discarded demo_frame 23 (demo_fec_client, demo_glob))
    as [Hshort _].
  destruct (short_output_discarded demo_frame 24 (demo_fec_client, demo_glob))
    as [_ Hrun].
  split.
  - apply Hshort. reflexivity.
  - apply Hrun; vm_compute; discriminate.
Defined.

Lemma recovered_shard_input_witness :
  exists (s' : UDPSession) (g' : Glob),
    kcpInput demo_shard (demo_recovering, demo_glob) = Ok (tt, (s', g'))
    /\ (forall (r : bytes) (sz : Z) (acc : Z * Z * Z) (st : UDPSession * Glob),
          LittleEndian.Uint16 r = Some sz -> 2 <= sz <= len r ->
          calls (final (kcpInput_recovered acc r st))
          = calls st ++ [KcpInput (drop 2 (take (Z.to_nat sz) r)) false
                                  (ackNoDelay st.1)])
    /\ calls (s', g')
       = [KcpInput demo_frame true false; KcpInput [xaa] false false].
Proof.
  destruct (is_Ok_inv (kcpInput demo_shard (demo_recovering, demo_glob)))
    as ([] & [s' g'] & Hrun); [vm_compute; reflexivity|].
  exists s', g'. split; [exact Hrun|].
  apply (recovered_shard_input demo_recovering s' demo_glob g' demo_shard
           demo_recovered
           (mkFecPacket 0 typeData (drop 6 demo_shard))) in Hrun.
  - exact Hrun.
  - reflexivity.
  - vm_compute. reflexivity.
  - reflexivity.
  - left. reflexivity.
Defined.

(** C4 as stated fails: the shard 00 03 AA BB carries the length 3 when read
    big-endian, so that [KCP.Input] would be called on its third byte; the
    session reads 768, more than the shard holds, and makes no call. *)
Lemma recovered_shard_not_big_endian :
  ~ (forall (r : bytes) (sz : Z) (acc : Z * Z * Z) (st : UDPSession * Glob),
       BigEndian.Uint16 r = Some sz -> 2 <= sz <= len r ->
       calls (final (kcpInput_recovered acc r st))
       = calls st ++ [KcpInput (drop 2 (take (Z.to_nat sz) r)) false
                               (ackNoDelay st.1)]).
Proof.
  intros H.
  specialize (H [x00; x03; xaa; xbb] 3 (0, 0, 0) (demo_client, demo_glob)).
  assert (Hno : calls (final (kcpInput_recovered (0, 0, 0) [x00; x03; xaa; xbb]
                                (demo_client, demo_glob))) = [])
    by (vm_compute; reflexivity).
  rewrite Hno in H.
  discriminate H; [reflexivity | vm_compute; split; discriminate].
Qed.

Lemma inconsistent_shards_counted_witness :
  exists (s' : UDPSession) (g' : Glob),
    kcpInput demo_shard (demo_recovering, demo_glob) = Ok (tt, (s', g'))
    /\ (forall (r : bytes) (acc : Z * Z * Z) (st : UDPSession * Glob),
          len r < 2
          \/ (exists sz, LittleEndian.Uint16 r = Some sz
                         /\ (sz < 2 \/ len r < sz)) ->
          shard_consistent r = false
          /\ kcpInput_recovered acc r st
             = Ok ((acc.1.1, add_uint64 acc.1.2 1, acc.2), st))
    /\ snmp g' FECErrs = 2
    /\ calls (s', g')
       = [KcpInput demo_frame true false; KcpInput [xaa] false false].
Proof.
  destruct (is_Ok_inv (kcpInput demo_shard (demo_recovering, demo_glob)))
    as ([] & [s' g'] & Hrun); [vm_compute; reflexivity|].
  exists s', g'. split; [exact Hrun|].
  apply (inconsistent_shards_counted demo_recovering s' demo_glob g' demo_shard
           demo_recovered
           (mkFecPacket 0 typeData (drop 6 demo_shard))) in Hrun.
  - exact Hrun.
  - reflexivity.
  - vm_compute. reflexivity.
  - reflexivity.
  - left. reflexivity.
  - vm_compute. split; [discriminate | reflexivity].
Defined.

(** C6 as stated fails in two places. A call made while the send window is
    saturated does not block once a write deadline has passed: it returns
    the timeout error. And for a core whose MSS is 0, as [SetMtu(24)] leaves
    it on a session without additional header, an admitted call neither
    fragments nor flushes: the session is open, the window has room and
    [writeDelay] is false, yet the loop of [Write] calls [Send] on an empty
    piece for as long as it is run, so that the byte is never sent and
    [flush] never called. *)
Lemma Write_neither_blocks_nor_flushes :
  let st0 := final (SetMtu 24 (demo_client, demo_glob)) in
  (isClosed demo_saturated = false
   /\ kcp_WaitSnd (kcp demo_saturated) >= snd_wnd (kcp demo_saturated)
   /\ Write [] [x41] (set_wd 500 demo_saturated, demo_glob)
      = Ok (Return (0, Some errTimeout), (set_wd 500 demo_saturated, demo_glob)))
  /\ SetMtu 24 (demo_client, demo_glob) = Ok (true, st0)
  /\ isClosed st0.1 = false
  /\ kcp_WaitSnd (kcp st0.1) < snd_wnd (kcp st0.1)
  /\ writeDelay st0.1 = false
  /\ (forall fuel, exists st',
        Write_fragment fuel [x41] st0 = Stuck st'
        /\ exists n, calls st' = calls st0 ++ replicate n (KcpSend []))
  /\ (forall sched, exists st',
        Write sched [x41] st0 = Stuck st'
        /\ (KcpFlush false ∉ calls st') /\ (KcpSend [x41] ∉ calls st')).
Proof.
  set (s0 := (final (SetMtu 24 (demo_client, demo_glob))).1).
  set (g0 := (final (SetMtu 24 (demo_client, demo_glob))).2).
  change (final (SetMtu 24 (demo_client, demo_glob))) with (s0, g0).
  cbv zeta. cbn [fst snd].
  assert (Hmss : mss (kcp s0) = 0) by reflexivity.
  assert (Hopen : isClosed s0 = false) by reflexivity.
  assert (Hroom : kcp_WaitSnd (kcp s0) < snd_wnd (kcp s0)) by reflexivity.
  assert (Hcalls0 : calls (s0, g0) = [KcpSetMtu 24]) by reflexivity.
  split.
  { split; [reflexivity|]. split; [vm_compute; discriminate | reflexivity]. }
  do 4 (split; [reflexivity|]). split.
  - intros fuel. by apply Write_fragment_zero_mss.
  - intros sched.
    destruct (Write_fragment_zero_mss 2 [x41] s0 g0 Hmss ltac:(reflexivity))
      as (st' & Hrun & n & Hc).
    exists st'. split.
    + assert (Hit : Write_iter [x41] (s0, g0) = Stuck st').
      { rewrite (Write_iter_admitted [x41] s0 g0 Hopen Hroom).
        by erewrite bind_Stuck by exact Hrun. }
      destruct sched; cbn [Write]; by erewrite bind_Stuck by exact Hit.
    + rewrite Hc, Hcalls0.
      split; intros [Hin|Hin]%elem_of_app.
      * by apply list_elem_of_singleton in Hin.
      * by apply elem_of_replicate in Hin as [? _].
      * by apply list_elem_of_singleton in Hin.
      * by apply elem_of_replicate in Hin as [? _].
Qed.

Lemma Write_admission_witness :
  (exists o,
     Write_iter demo_bytes (demo_saturated, demo_glob)
     = Ok (o, (demo_saturated, demo_glob))
     /\ o = Blocked None
     /\ Write [] demo_bytes (demo_saturated, demo_glob)
        = Ok (o, (demo_saturated, demo_glob))
     /\ forall timer tk sched, o = Blocked timer ->
          Write (tk :: sched) demo_bytes (demo_saturated, demo_glob)
          = (modify (tick_env tk) ;;;
             Write_select timer (tick_wake tk) ;;;
             Write sched demo_bytes) (demo_saturated, demo_glob))
  /\ (exists o,
        Write_iter demo_bytes (set_wd 500 demo_saturated, demo_glob)
        = Ok (o, (set_wd 500 demo_saturated, demo_glob))
        /\ o = Return (0, Some errTimeout)
        /\ Write [] demo_bytes (set_wd 500 demo_saturated, demo_glob)
           = Ok (o, (set_wd 500 demo_saturated, demo_glob))
        /\ forall timer tk sched, o = Blocked timer ->
             Write (tk :: sched) demo_bytes (set_wd 500 demo_saturated, demo_glob)
             = (modify (tick_env tk) ;;;
                Write_select timer (tick_wake tk) ;;;
                Write sched demo_bytes) (set_wd 500 demo_saturated, demo_glob))
  /\ (exists o,
        Write_iter demo_bytes (set_wd 1500 demo_saturated, demo_glob)
        = Ok (o, (set_wd 1500 demo_saturated, demo_glob))
        /\ o = Blocked (Some 500)
        /\ Write [] demo_bytes (set_wd 1500 demo_saturated, demo_glob)
           = Ok (o, (set_wd 1500 demo_saturated, demo_glob))
        /\ forall timer tk sched, o = Blocked timer ->
             Write (tk :: sched) demo_bytes (set_wd 1500 demo_saturated, demo_glob)
             = (modify (tick_env tk) ;;;
                Write_select timer (tick_wake tk) ;;;
                Write sched demo_bytes) (set_wd 1500 demo_saturated, demo_glob))
  /\ (exists ps,
        Write_fragment (S (length demo_bytes)) demo_bytes (demo_small, demo_glob)
        = Ok (tt, (set_kcp (send_all (kcp demo_small) ps) demo_small,
                   set_trace (trace demo_glob ++ (KcpSend <$> ps)) demo_glob))
        /\ concat ps = demo_bytes /\ mss_sized (mss (kcp demo_small)) ps
        /\ ps <> []
        /\ forall sched,
             calls (final (Write sched demo_bytes (demo_small, demo_glob)))
             = calls (demo_small, demo_glob) ++ (KcpSend <$> ps)
               ++ (if bool_decide
                        (kcp_WaitSnd (send_all (kcp demo_small) ps)
                         >= snd_wnd (send_all (kcp demo_small) ps))
                      || negb (writeDelay demo_small)
                   then [KcpFlush false] else [])).
Proof.
  split; [|split; [|split]].
  - apply (Write_admission demo_saturated demo_glob demo_bytes); [reflexivity|].
    vm_compute. discriminate.
  - apply (Write_admission (set_wd 500 demo_saturated) demo_glob demo_bytes);
      [reflexivity|]. vm_compute. discriminate.
  - apply (Write_admission (set_wd 1500 demo_saturated) demo_glob demo_bytes);
      [reflexivity|]. vm_compute. discriminate.
  - apply (Write_admission demo_small demo_glob demo_bytes);
      [reflexivity | reflexivity | reflexivity].
Defined.

Lemma Write_never_partial_witness :
  exists (st' : UDPSession * Glob),
    Write [] demo_bytes (demo_narrow, demo_glob) = Ok (Return (5, None), st')
    /\ 5 = len demo_bytes
    /\ exists (st0 : UDPSession * Glob) (ps : list bytes),
         isClosed st0.1 = false
         /\ kcp_WaitSnd (kcp st0.1) < snd_wnd (kcp st0.1)
         /\ (kcp_WaitSnd (kcp demo_narrow) < snd_wnd (kcp demo_narrow) ->
             st0 = (demo_narrow, demo_glob))
         /\ concat ps = demo_bytes
         /\ Write_fragment (S (length demo_bytes)) demo_bytes st0
            = Ok (tt, (set_kcp (send_all (kcp st0.1) ps) st0.1,
                       set_trace (trace st0.2 ++ (KcpSend <$> ps)) st0.2))
         /\ calls st'
            = calls st0 ++ (KcpSend <$> ps)
              ++ (if bool_decide (kcp_WaitSnd (send_all (kcp st0.1) ps)
                                  >= snd_wnd (send_all (kcp st0.1) ps))
                     || negb (writeDelay st0.1)
                  then [KcpFlush false] else []).
Proof.
  assert (Hn : returned (Write [] demo_bytes (demo_narrow, demo_glob)) = Some 5)
    by (vm_compute; reflexivity).
  destruct (Write [] demo_bytes (demo_narrow, demo_glob))
    as [[[[n [e|]]|t] st']| |] eqn:Hrun; try discriminate Hn.
  injection Hn as ->.
  exists st'. split; [reflexivity|].
  exact (Write_never_partial [] demo_bytes demo_narrow demo_glob 5 st' Hrun).
Defined.



Lemma Read_short_buffer_witness :
  exists s1 g1 s2,
    @Read demo_rx [] [x00] (demo_inbox, demo_rx_glob)
    = Ok (Return ([x41], 1, None), (s1, g1))
    /\ @Read demo_rx [] [x00; x00] (s1, g1)
       = Ok (Return ([x42; x43], 2, None), (s2, g1))
    /\ bufptr s2 = []
    /\ kcp_calls (trace g1) = [KcpRecv 3].
Proof.
  destruct (@Read_short_buffer demo_rx [] [] [x00] [x00; x00] demo_inbox
              demo_rx_glob)
    as (s1 & g1 & s2 & H1 & H2 & H3 & _ & _ & H4);
    [reflexivity | reflexivity | reflexivity | vm_compute; discriminate |].
  exists s1, g1, s2. split; [exact H1|]. split; [exact H2|].
  split; [exact H3 | exact H4].
Defined.

Lemma SetDeadline_expired_wakes_witness :
  (exists s',
     Read [meanwhile (SetDeadline 5) WakeEvent] [x00] (demo_saturated, demo_glob)
     = Ok (Return ([x00], 0, Some errTimeout), (s', demo_glob))
     /\ rd s' = 5 /\ wd s' = 5)
  /\ (exists s',
        Write [meanwhile (SetDeadline 5) WakeEvent] [x00]
          (demo_saturated, demo_glob)
        = Ok (Return (0, Some errTimeout), (s', demo_glob))
        /\ rd s' = 5 /\ wd s' = 5).
Proof.
  destruct (SetDeadline_expired_wakes [] [x00] 5 demo_saturated demo_glob)
    as [HR HW]; [reflexivity | discriminate | reflexivity |].
  split.
  - apply HR; [reflexivity | vm_compute; discriminate | reflexivity].
  - apply HW; [vm_compute; discriminate | reflexivity].
Defined.

Lemma kcpInput_posts_events_witness :
  exists s1 g1,
    @kcpInput demo_rx demo_push (demo_rx_client, demo_rx_glob) = Ok (tt, (s1, g1))
    /\ (chReadEvent s1 = true <-> 0 < @kcp_PeekSize demo_rx (kcp s1))
    /\ (chWriteEvent s1 = true
        <-> @kcp_WaitSnd demo_rx (kcp s1)
            < @kcp_WaitSnd demo_rx (kcp demo_rx_client)).
Proof.
  assert (Hok : is_Ok (@kcpInput demo_rx demo_push (demo_rx_client, demo_rx_glob))
                = true) by (vm_compute; reflexivity).
  apply is_Ok_inv in Hok as ([] & [s1 g1] & Hrun).
  exists s1, g1. split; [exact Hrun|].
  apply (@kcpInput_posts_events demo_rx demo_push demo_rx_client s1 demo_rx_glob
           g1 Hrun); [reflexivity | reflexivity | vm_compute; discriminate].
Defined.

Lemma kcpInput_wakes_Read_witness :
  exists s2 g2,
    @Read demo_rx [meanwhile (@kcpInput demo_rx demo_push) WakeEvent]
      [x00; x00; x00] (demo_rx_client, demo_rx_glob)
    = Ok (Return ([x41; x42; x00], 2, None), (s2, g2))
    /\ bufptr s2 = [].
Proof.
  assert (Hok : is_Ok (@kcpInput demo_rx demo_push (demo_rx_client, demo_rx_glob))
                = true) by (vm_compute; reflexivity).
  assert (Hk : kcp (final (@kcpInput demo_rx demo_push
                             (demo_rx_client, demo_rx_glob))).1
               = mkKCP 7 1376 32 0 [] [[x41; x42]])
    by (vm_compute; reflexivity).
  apply is_Ok_inv in Hok as ([] & [s1 g1] & Hrun).
  rewrite Hrun in Hk. cbn [final fst snd] in Hk.
  destruct (@kcpInput_wakes_Read demo_rx [] demo_push [x00; x00; x00]
              demo_rx_client s1 demo_rx_glob g1)
    as (s2 & g2 & HR & _ & Hb & _);
    [reflexivity | reflexivity | reflexivity | vm_compute; discriminate
    | exact Hrun | rewrite Hk; split; [reflexivity | vm_compute; discriminate] |].
  exists s2, g2. split; [|exact Hb].
  rewrite HR. unfold received. rewrite Hk. reflexivity.
Defined.

Lemma update_wakes_Write_witness :
  exists s1 g1 interval,
    update (demo_full, demo_glob) = Ok (interval, (s1, g1))
    /\ Write [meanwhile update WakeEvent] [x43] (demo_full, demo_glob)
       = Write_iter [x43] (set_chWriteEvent false s1, g1)
    /\ forall o st',
         Write [meanwhile update WakeEvent] [x43] (demo_full, demo_glob)
         = Ok (o, st') ->
         o = Return (1, None).
Proof.
  assert (Hok : is_Ok (update (demo_full, demo_glob)) = true)
    by (vm_compute; reflexivity).
  assert (Hk : kcp (final (update (demo_full, demo_glob))).1 = mkKCP 7 2 1 0 [] tt)
    by (vm_compute; reflexivity).
  apply is_Ok_inv in Hok as (interval & [s1 g1] & Hrun).
  rewrite Hrun in Hk. cbn [final fst snd] in Hk.
  exists s1, g1, interval. split; [exact Hrun|].
  apply (update_wakes_Write [] [x43] demo_full s1 demo_glob g1 interval);
    [reflexivity | reflexivity | reflexivity | vm_compute; discriminate
    | exact Hrun | rewrite Hk; reflexivity | rewrite Hk; reflexivity].
Defined.

Lemma kcpInput_refused_witness :
  exists g',
    kcpInput demo_unflagged (demo_fec_client, demo_glob)
    = Ok (tt, (demo_fec_client, g'))
    /\ trace g' = trace demo_glob
    /\ snmp g' InErrs = add_uint64 (snmp demo_glob InErrs) 1
    /\ snmp g' InPkts = add_uint64 (snmp demo_glob InPkts) 1
    /\ snmp g' InBytes
       = add_uint64 (snmp demo_glob InBytes) (to_uint64 (len demo_unflagged)).
Proof.
  apply (kcpInput_refused demo_unflagged demo_fec_client demo_glob []).
  - vm_compute. reflexivity.
  - right. eexists. split; [reflexivity|].
    split; vm_compute; discriminate.
Defined.

Lemma demo_xor_involutive (b : byte) : demo_xor (demo_xor b) = b.
Proof. destruct b; vm_compute; reflexivity. Qed.

Lemma demo_cipher_ok : cipher_ok demo_cipher.
Proof.
  intros x. cbn [demo_cipher Encrypt Decrypt]. split; [apply length_fmap|].
  rewrite <- list_fmap_compose. rewrite <- (list_fmap_id x) at 2.
  apply list_fmap_ext. intros i b _. apply demo_xor_involutive.
Qed.

Lemma output_opens_witness :
  exists (st' : UDPSession * Glob) (pkt : bytes),
    output demo_frame (demo_crypto_client, demo_glob) = Ok (tt, st')
    /\ trace st'.2 = [ConnWriteTo 1%positive pkt "10.0.0.2"]
    /\ forall g0, open_datagram (Some demo_cipher) pkt g0
                  = Ok ((demo_frame, true), g0).
Proof.
  destruct (output_opens demo_crypto_client demo_glob demo_frame)
    as (st' & pkt & H1 & H2 & H3).
  - apply demo_crypto_client_wf.
  - vm_compute. reflexivity.
  - vm_compute. reflexivity.
  - vm_compute. discriminate.
  - vm_compute. split; [discriminate | reflexivity].
  - intros blk [= <-]. apply demo_cipher_ok.
  - exists st', pkt. split; [exact H1|]. split; [exact H2 | exact H3].
Defined.

Lemma demo_accepting : @accepting demo.
Proof. intros net c b a. by exists net. Qed.

Lemma demo_down_failing : @failing demo_down.
Proof. intros net c b a. by exists net, 0, (carrier_error 101). Qed.

Lemma output_counts_witness :
  exists st' : UDPSession * Glob,
    output demo_frame (set_dup 2 demo_client, demo_glob) = Ok (tt, st')
    /\ snmp st'.2 OutPkts = 3
    /\ snmp st'.2 OutBytes = 72
    /\ forall f, f <> OutPkts -> f <> OutBytes -> snmp st'.2 f = 0.
Proof.
  destruct (output_counts (set_dup 2 demo_client) demo_glob demo_frame)
    as (st' & H1 & H2 & H3 & H4).
  - apply demo_accepting.
  - split; [by exists false | intros H; vm_compute in H; discriminate H].
  - reflexivity.
  - vm_compute. discriminate.
  - vm_compute. split; [discriminate | reflexivity].
  - vm_compute. discriminate.
  - exists st'. split; [exact H1|]. split; [exact H2|]. split; [exact H3 | exact H4].
Defined.

Lemma output_swallows_errors_witness :
  exists (st' : UDPSession * Glob) (pkt : bytes),
    @output demo_down demo_frame (demo_down_client, demo_down_glob) = Ok (tt, st')
    /\ trace st'.2 = [ConnWriteTo 1%positive pkt "10.0.0.2";
                     ConnWriteTo 1%positive pkt "10.0.0.2"]
    /\ snmp st'.2 OutPkts = 0
    /\ snmp st'.2 OutBytes = 0.
Proof.
  destruct (@output_swallows_errors demo_down demo_down_client demo_down_glob
              demo_frame) as (st' & pkt & H1 & H2 & H3 & H4).
  - apply demo_down_failing.
  - split; [by exists false | intros H; vm_compute in H; discriminate H].
  - reflexivity.
  - vm_compute. discriminate.
  - vm_compute. split; [discriminate | reflexivity].
  - exists st', pkt. split; [exact H1|]. split; [exact H2|].
    split; [exact H3 | exact H4].
Defined.

Lemma output_too_long_witness :
  output (replicate 1481 x00) (demo_crypto_client, demo_glob)
  = Panic (demo_crypto_client, demo_glob).
Proof.
  apply (output_too_long demo_crypto_client demo_glob (replicate 1481 x00)).
  - apply demo_crypto_client_wf.
  - reflexivity.
  - vm_compute. discriminate.
  - reflexivity.
Defined.

Lemma SetMtu_keeps_room_witness :
  SetMtu 1501 (demo_crypto_client, demo_glob)
  = Ok (false, (demo_crypto_client, demo_glob))
  /\ exists s',
       SetMtu 1400 (demo_crypto_client, demo_glob)
       = Ok (true, (s', emitG (KcpSetMtu 1380) demo_glob))
       /\ is_Ok (output (replicate 1380 x00) (s', demo_glob)) = true.
Proof.
  split.
  - apply (SetMtu_keeps_room 1501 demo_crypto_client demo_glob);
      [apply demo_crypto_client_wf | vm_compute; discriminate | reflexivity].
  - destruct (SetMtu_keeps_room 1400 demo_crypto_client demo_glob)
      as [_ Hok]; [apply demo_crypto_client_wf | vm_compute; discriminate |].
    destruct Hok as (s' & Hrun & _ & Hout); [vm_compute; discriminate|].
    exists s'. split; [exact Hrun|].
    apply Hout; [vm_compute; discriminate | vm_compute; reflexivity
                | vm_compute; split; [discriminate | reflexivity]].
Defined.

Lemma session_made_and_closed_witness :
  exists (s s2 : UDPSession) (g1 g2 : Glob) (mtu : Z),
    newUDPSession 7 0 0 None 1%positive "10.0.0.2" None demo_glob = Ok (s, g1)
    /\ Close (s, g1) = Ok (None, (s2, g2))
    /\ isClosed s2 = true
    /\ snmp g2 CurrEstab = 0
    /\ trace g2 = [KcpNew 7; KcpSetMtu mtu; UpdaterAdd; GoReadLoop;
                   UpdaterRemove; ConnClose 1%positive].
Proof.
  apply (session_made_and_closed 7 0 0 None 1%positive "10.0.0.2" None demo_glob).
  vm_compute. split; [discriminate | reflexivity].
Defined.

Lemma monitor_opens_session_witness :
  exists (w' w'' : World) (sid : positive),
    monitor_packet "10.0.0.9" demo_hello demo_listening = Ok (tt, w')
    /\ sessions (listener w') !! "10.0.0.9" = Some sid
    /\ AcceptKCP AcceptSession w' = Ok ((Some sid, None), w'')
    /\ lastAddr w' = "".
Proof.
  destruct (monitor_opens_session "10.0.0.9" demo_hello demo_hello 7
              demo_listening demo_glob)
    as (w' & sid & s' & Hrun & _ & _ & _ & _ & _ & _ & _ & Hl & Hla & _ & Hacc).
  - reflexivity.
  - discriminate.
  - reflexivity.
  - reflexivity.
  - right. split; [by eexists|]. split; reflexivity.
  - vm_compute. reflexivity.
  - destruct Hacc as (w'' & Hacc & _); [reflexivity|].
    exists w', w'', sid. split; [exact Hrun|]. split.
    + rewrite Hl. cbn [sessions set_chAccepts set_sessions].
      apply lookup_insert_eq.
    + split; [exact Hacc | exact Hla].
Defined.

Lemma monitor_known_address_witness :
  exists s' g',
    monitor_packet "10.0.0.9" demo_frame demo_serving
    = Ok (tt, set_heap (<[1%positive := s']> (heap demo_serving))
                (set_glob g' demo_cached)).
Proof.
  assert (Hok : is_Ok (kcpInput demo_frame (demo_accepted, demo_glob)) = true)
    by (vm_compute; reflexivity).
  apply is_Ok_inv in Hok as ([] & [s' g'] & Hin).
  exists s', g'.
  apply (monitor_known_address "10.0.0.9" demo_frame demo_frame demo_serving
           demo_glob g' 1%positive demo_accepted s').
  - reflexivity.
  - discriminate.
  - apply lookup_insert_eq.
  - apply lookup_insert_eq.
  - exact Hin.
Defined.

Lemma monitor_cache_outlives_entry_witness :
  exists w1 w2,
    monitor (InClosed "10.0.0.9") demo_cached = Ok (true, w1)
    /\ sessions (listener w1) !! "10.0.0.9" = None
    /\ monitor (InPacket "10.0.0.9" demo_frame) w1 = Ok (true, w2)
    /\ dom (heap w2) = dom (heap demo_cached)
    /\ sessions (listener w2) !! "10.0.0.9" = None
    /\ chan_buf (chAccepts (listener w2)) = [].
Proof.
  assert (Hok : is_Ok (kcpInput demo_frame (demo_accepted, demo_glob)) = true)
    by (vm_compute; reflexivity).
  apply is_Ok_inv in Hok as ([] & [s' g'] & Hin).
  destruct (monitor_cache_outlives_entry "10.0.0.9" demo_frame demo_frame
              demo_cached demo_glob g' 1%positive demo_accepted s')
    as (w1 & w2 & H1 & H2 & H3 & H4 & H5 & H6).
  - reflexivity.
  - reflexivity.
  - apply lookup_insert_eq.
  - reflexivity.
  - exact Hin.
  - exists w1, w2. split; [exact H1|]. split; [exact H2|]. split; [exact H3|].
    split; [|split; [exact H5 | by rewrite H6]].
    rewrite H4. apply dom_insert_lookup_L. exists demo_accepted.
    apply lookup_insert_eq.
Defined.

Lemma Listener_Close_once_witness :
  exists w1,
    l_Close demo_serving = Ok (None, w1)
    /\ heap w1 = heap demo_serving
    /\ AcceptKCP AcceptDie w1 = Ok ((None, Some (errors_New errBrokenPipe)), w1)
    /\ l_Close w1 = Panic w1.
Proof.
  destruct (Listener_Close_once demo_serving)
    as (w1 & H1 & H2 & _ & _ & _ & _ & H3 & H4); [reflexivity|].
  exists w1. split; [exact H1|]. split; [exact H2|]. split; [exact H3 | exact H4].
Defined.

Lemma output_writes_witness :
  (exists st',
     output demo_frame (demo_fec_client, demo_glob) = Ok (tt, st')
     /\ datagrams (trace st'.2)
        = replicate 3 (replicate 32 x00) ++ [replicate 30 xf2])
  /\ (exists st',
        output (replicate 1493 x00) (demo_fec_client, demo_glob) = Panic st'
        /\ datagrams (trace st'.2) = []).
Proof.
  split.
  - destruct (proj1 (output_writes demo_fec_client demo_glob demo_frame
                       demo_fec_client_wf
                       ltac:(vm_compute; split; [discriminate | reflexivity])
                       ltac:(vm_compute; discriminate)))
      as (st' & Hout & Hd).
    + vm_compute. discriminate.
    + intros [blk Hblk]. discriminate Hblk.
    + exists st'. split; [exact Hout|]. rewrite Hd. vm_compute. reflexivity.
  - destruct (proj2 (output_writes demo_fec_client demo_glob (replicate 1493 x00)
                       demo_fec_client_wf
                       ltac:(vm_compute; split; [discriminate | reflexivity])
                       ltac:(vm_compute; discriminate)))
      as (st' & Hout & Hd).
    + left. vm_compute. split; reflexivity.
    + exists st'. split; [exact Hout|]. rewrite Hd. vm_compute. reflexivity.
Defined.

Lemma monitor_admission_witness :
  len (chan_buf (chAccepts (listener demo_crowded))) = 128
  /\ monitor_packet "10.0.0.9" demo_hello demo_crowded = Ok (tt, demo_crowded)
  /\ (exists (sid : positive) (evs : list Event),
        dom (heap (final (monitor_packet "10.0.0.9" demo_hello demo_listening)))
        = {[sid]} ∪ dom (heap demo_listening)
        /\ trace (glob (final (monitor_packet "10.0.0.9" demo_hello
                                 demo_listening)))
           = trace (glob demo_listening) ++ KcpNew 7 :: evs)
  /\ (dom (heap (final (monitor_packet "10.0.0.9" demo_parity demo_listening)))
      = dom (heap demo_listening)
      /\ listener (final (monitor_packet "10.0.0.9" demo_parity demo_listening))
         = listener demo_listening)
  /\ len (chan_buf (chAccepts
            (listener (final (monitor_packet "10.0.0.9" demo_hello
                                demo_crowded))))) <= 128.
Proof.
  assert (Hl : serving demo_listening).
  { apply (serving_start None 10 3 1%positive). reflexivity. }
  assert (Hc : serving demo_crowded).
  { apply (serving_passes _ demo_listening Hl). }
  destruct (monitor_admission demo_crowded Hc) as [_ Hcrowded].
  destruct (Hcrowded "10.0.0.9" demo_hello) as (_ & Hfull & _ & Hlen).
  destruct (monitor_admission demo_listening Hl) as [_ Hempty].
  destruct (Hempty "10.0.0.9" demo_hello) as (Honly & _).
  destruct (Hempty "10.0.0.9" demo_parity) as (_ & _ & Hfec & _).
  split; [vm_compute; reflexivity|].
  split.
  { assert (Hblk : l_block (listener demo_crowded) = None)
      by (vm_compute; reflexivity).
    assert (Hla : lastAddr demo_crowded = EmptyString)
      by (vm_compute; reflexivity).
    assert (Hopen : open_datagram (l_block (listener demo_crowded)) demo_hello
                      (glob demo_crowded)
                    = Ok ((demo_hello, true), glob demo_crowded))
      by (rewrite Hblk; reflexivity).
    destruct (Hfull ltac:(vm_compute; reflexivity)
                    ltac:(rewrite Hla; discriminate)
                    ltac:(vm_compute; reflexivity)
                    demo_hello true (glob demo_crowded) Hopen) as [Hrun _].
    rewrite set_glob_glob in Hrun. exact Hrun. }
  split.
  { destruct Honly as (payload & g1 & conv & sid & evs & Hopen & _ & _ & _ & _
                       & Hdom & Htr & Hconv).
    - intros Heq.
      assert (Hin : (if heap (final (monitor_packet "10.0.0.9" demo_hello
                                       demo_listening)) !! 1%positive
                     is Some _ then true else false) = true)
        by (vm_compute; reflexivity).
      destruct (heap (final (monitor_packet "10.0.0.9" demo_hello
                               demo_listening)) !! 1%positive) as [s|] eqn:Hs;
        [|discriminate Hin].
      apply (elem_of_dom_2 (D := gset positive)) in Hs.
      rewrite Heq in Hs. apply elem_of_dom in Hs as [s0 Hs0].
      discriminate Hs0.
    - assert (Ho : open_datagram (l_block (listener demo_listening)) demo_hello
                     (glob demo_listening)
                   = Ok ((demo_hello, true), glob demo_listening))
        by reflexivity.
      rewrite Ho in Hopen. injection Hopen as <- <-.
      destruct Hconv as [[Hnone _]|(_ & _ & Hcv)]; [discriminate Hnone|].
      assert (Hseven : LittleEndian.Uint32 (drop 8 demo_hello) = Some 7)
        by (vm_compute; reflexivity).
      rewrite Hseven in Hcv. injection Hcv as <-. by exists sid, evs. }
  split; [|exact Hlen].
  apply (Hfec ltac:(by eexists) demo_parity true (glob demo_listening));
    [reflexivity | vm_compute; reflexivity].
Defined.

End Examples.
